(** * Procedural texture synthesis: noise field, FBM, albedo, roughness and
      normal maps of [TextureGenerator]

    The development embeds the [TextureGenerator] object of the scene source
    (the gradient-noise primitive, its permutation table, the FBM compositor
    and the three canvas-producing entry points) and settles the properties
    the design document states about it.

    JavaScript numbers are kept behind one interface, [Number], with two
    instances:
    - [float_number]: IEEE-754 binary64 through Rocq's primitive floats.  It
      is what the program runs on and it evaluates, so every concrete run
      (special values included) is computed with it;
    - [real_number]: exact real arithmetic, the idealisation in which the
      algebraic statements (polynomial identities, interpolation bounds,
      unit length) are proved for all inputs.  It has no NaN and no
      infinity, so the statements made with it keep every divisor away from
      0 and every radicand non-negative, where it agrees with the
      arithmetic of the program up to rounding. *)

From Stdlib Require Import PrimFloat FloatOps SpecFloat.
From Stdlib Require Import ZArith List Bool Lia Permutation FinFun.
From Stdlib Require Import Reals Lra Psatz Zfloor.
From Stdlib Require String.
Import ListNotations.
Import String.StringSyntax.
Delimit Scope string_scope with string.

Set Implicit Arguments.

(** ** The number interface *)

Declare Scope js_scope.
Delimit Scope js_scope with js.

Class Number (F : Type) := {
  ofZ : Z -> F;                      (* an integer literal or loop counter *)
  add : F -> F -> F;
  sub : F -> F -> F;
  mul : F -> F -> F;
  div : F -> F -> F;
  neg : F -> F;
  ltb : F -> F -> bool;              (* [a < b] *)
  Math_floor : F -> F;
  Math_sqrt : F -> F;
  Math_sin : F -> F;
  Math_max : F -> F -> F;
  Math_min : F -> F -> F;
  Math_fround : F -> F;              (* the rounding of a Float32Array store *)
  integer_value : F -> option Z;     (* [Some k] when the number is the integer [k] *)
  ToUint8Clamp : F -> Z              (* the conversion of a Uint8ClampedArray store *)
}.

Notation "x + y" := (add x y) : js_scope.
Notation "x - y" := (sub x y) : js_scope.
Notation "x * y" := (mul x y) : js_scope.
Notation "x / y" := (div x y) : js_scope.
Notation "- x" := (neg x) : js_scope.
Notation "x <? y" := (ltb x y) : js_scope.
Notation "x >? y" := (ltb y x) : js_scope.

(** A decimal literal [n/d] of the source, such as [0.3] = [lit 3 10]: the
    correctly rounded quotient of two exactly representable integers is the
    double the literal denotes. *)
Definition lit {F} `{Number F} (n d : Z) : F := (ofZ n / ofZ d)%js.

(** *** Binary64 instance *)

Module Float64.

Definition of_Z (z : Z) : float :=
  SF2Prim (binary_normalize prec emax z 0 false).

(** [floorZ s m e] is the floor of the finite value [(-1)^s * m * 2^e]. *)
Definition floorZ (s : bool) (m : positive) (e : Z) : Z :=
  Z.shiftl (if s then Z.neg m else Z.pos m) e.

Definition floor (x : float) : float :=
  match Prim2SF x with
  | S754_finite s m e =>
      if (0 <=? e)%Z then x else of_Z (floorZ s m e)
  | _ => x
  end.

Definition integer_of (x : float) : option Z :=
  match Prim2SF x with
  | S754_zero _ => Some 0%Z
  | S754_finite s m e =>
      if PrimFloat.eqb (floor x) x then Some (floorZ s m e) else None
  | _ => None
  end.

(** Math.max and Math.min: NaN if either argument is NaN. *)
Definition max (a b : float) : float :=
  if is_nan a then a else if is_nan b then b
  else if PrimFloat.ltb a b then b else a.

Definition min (a b : float) : float :=
  if is_nan a then a else if is_nan b then b
  else if PrimFloat.ltb b a then b else a.

(** Rounding to binary32 and back, as a Float32Array element does. *)
Definition fround (x : float) : float :=
  match Prim2SF x with
  | S754_finite s m e =>
      SF2Prim (binary_normalize 24 128 (if s then Z.neg m else Z.pos m) e s)
  | _ => x
  end.

Definition half : float := PrimFloat.div (of_Z 1) (of_Z 2).

(** Round to the nearest integer, ties to even, for [0 < x < 255]. *)
Definition round_ties_even (x : float) : Z :=
  match Prim2SF x with
  | S754_finite s m e =>
      let f := floorZ s m e in
      let d := PrimFloat.sub x (of_Z f) in
      if PrimFloat.ltb d half then f
      else if PrimFloat.ltb half d then (f + 1)%Z
      else if Z.even f then f else (f + 1)%Z
  | _ => 0%Z
  end.

Definition byte_clip (z : Z) : Z := Z.max 0 (Z.min 255 z).

Definition to_uint8_clamp (x : float) : Z :=
  if is_nan x then 0%Z
  else if PrimFloat.leb x (of_Z 0) then 0%Z
  else if PrimFloat.leb (of_Z 255) x then 255%Z
  else byte_clip (round_ties_even x).

(** Math.sin is implementation-approximated in ECMAScript; the instance
    takes the host's sine as an argument. *)
Definition number (host_sin : float -> float) : Number float := {|
  ofZ := of_Z;
  add := PrimFloat.add;
  sub := PrimFloat.sub;
  mul := PrimFloat.mul;
  div := PrimFloat.div;
  neg := PrimFloat.opp;
  ltb := PrimFloat.ltb;
  Math_floor := floor;
  Math_sqrt := PrimFloat.sqrt;
  Math_sin := host_sin;
  Math_max := max;
  Math_min := min;
  Math_fround := fround;
  integer_value := integer_of;
  ToUint8Clamp := to_uint8_clamp
|}.

(** A stand-in for the host's sine in the concrete runs: an odd Taylor
    polynomial of 30 terms.  It agrees with [Math.sin] up to the last digits
    on the arguments the generator passes ([0 <= nx * 10 < 10]) and is not
    meant for large arguments; no statement depends on its values. *)
Fixpoint sin_terms (n : nat) (k : Z) (term x2 acc : float) : float :=
  match n with
  | O => acc
  | S n' =>
      let term' :=
        PrimFloat.opp
          (PrimFloat.div (PrimFloat.mul term x2)
             (of_Z ((2 * k) * (2 * k + 1)))) in
      sin_terms n' (k + 1)%Z term' x2 (PrimFloat.add acc term')
  end.

Definition host_sin (x : float) : float :=
  sin_terms 30 1 x (PrimFloat.mul x x) x.

End Float64.

#[export] Instance float_number : Number float := Float64.number Float64.host_sin.

(** *** Exact real instance *)

Module Exact.

Definition lt_bool (a b : R) : bool := if Rlt_dec a b then true else false.

Definition floor (x : R) : R := IZR (Zfloor x).

Definition integer_of (x : R) : option Z :=
  if Req_dec_T x (IZR (Zfloor x)) then Some (Zfloor x) else None.

Definition round_ties_even (x : R) : Z :=
  let f := Zfloor x in
  let d := (x - IZR f)%R in
  if Rlt_dec d (1 / 2) then f
  else if Rlt_dec (1 / 2) d then (f + 1)%Z
  else if Z.even f then f else (f + 1)%Z.

Definition to_uint8_clamp (x : R) : Z :=
  if Rle_dec x 0 then 0%Z
  else if Rle_dec 255 x then 255%Z
  else Z.max 0 (Z.min 255 (round_ties_even x)).

Definition number : Number R := {|
  ofZ := IZR;
  add := Rplus;
  sub := Rminus;
  mul := Rmult;
  div := Rdiv;
  neg := Ropp;
  ltb := lt_bool;
  Math_floor := floor;
  Math_sqrt := sqrt;
  Math_sin := sin;
  Math_max := Rmax;
  Math_min := Rmin;
  Math_fround := fun x => x;
  integer_value := integer_of;
  ToUint8Clamp := to_uint8_clamp
|}.

End Exact.

#[export] Instance real_number : Number R := Exact.number.


(** ** Typed arrays and loops *)

(** [a[k] = v] on a typed array: a store outside the array is ignored. *)
Fixpoint store {A} (a : list A) (k : nat) (v : A) : list A :=
  match a, k with
  | [], _ => []
  | _ :: t, O => v :: t
  | h :: t, S k' => h :: store t k' v
  end.

(** [for (let i = k; i < k + n; i++) s = body(i, s)]. *)
Fixpoint for_from {St} (k n : nat) (body : nat -> St -> St) (s : St) : St :=
  match n with
  | O => s
  | S n' => for_from (S k) n' body (body k s)
  end.

Definition for_lt {St} (n : nat) (body : nat -> St -> St) (s : St) : St :=
  for_from 0 n body s.

(** ** The generator *)

(** The [TextureGenerator] singleton: its table and its [init] flag. *)
Record generator := { perm : list Z; init : bool }.

Inductive organic := granite | bamboo | wood | sand | roughness | moss.
Inductive rough := stone_r | bamboo_r | sand_r.
Inductive relief := generic_n | bamboo_n | stone_n.

Section TextureGenerator.

Context {F : Type} `{NF : Number F}.
Local Open Scope js_scope.

(** The process: the singleton, the stream behind [Math.random] with the
    number of draws made so far, and a count of synthesis passes (entries
    into a pixel loop), which the program does not have and which only
    observes it. *)
Record world := {
  tg : generator;
  rng : nat -> F;
  drawn : nat;
  passes : nat
}.

Definition M (A : Type) : Type := world -> A * world.
Definition ret {A} (a : A) : M A := fun w => (a, w).
Definition bind {A B} (c : M A) (k : A -> M B) : M B :=
  fun w => let (a, w') := c w in k a w'.

Notation "x <- c ;; k" := (bind c (fun x => k))
  (at level 61, c at next level, right associativity).

Definition Math_random : M F :=
  fun w => (rng w (drawn w),
            {| tg := tg w; rng := rng w; drawn := S (drawn w); passes := passes w |}).

Definition tick : M unit :=
  fun w => (tt, {| tg := tg w; rng := rng w; drawn := drawn w; passes := S (passes w) |}).

Definition set_generator (g : generator) : M unit :=
  fun w => (tt, {| tg := g; rng := rng w; drawn := drawn w; passes := passes w |}).

(** *** setup *)

(** An element read inside the array.  The reads of [noise] are of this
    kind: the table has 512 bytes, so [X + 1 <= 256] and every other index
    is a byte plus a byte, plus 1 at most. *)
Definition at_ (a : list Z) (k : Z) : Z := nth (Z.to_nat k) a 0%Z.

(** [p[r]] for a number [r] used as a key: [undefined] (stored as 0 by a
    Uint8Array) unless [r] is an integer inside the array. *)
Definition key (a : list Z) (r : option Z) : option nat :=
  match r with
  | Some k => if (0 <=? k)%Z && (k <? Z.of_nat (length a))%Z
              then Some (Z.to_nat k) else None
  | None => None
  end.

(** [[p[i], p[r]] = [p[r], p[i]]]. *)
Definition swap (p : list Z) (i : nat) (r : option Z) : list Z :=
  match key p r with
  | Some j => store (store p i (nth j p 0%Z)) j (nth i p 0%Z)
  | None => store p i 0%Z
  end.

(** [for (let i = 255; i > 0; i--)], counting down from [i]. *)
Fixpoint shuffle (i : nat) (p : list Z) : M (list Z) :=
  match i with
  | O => ret p
  | S i' =>
      u <- Math_random ;;
      let r := Math_floor (u * ofZ (Z.of_nat i + 1)) in
      shuffle i' (swap p i (integer_value r))
  end.

Definition identity_table : list Z := map Z.of_nat (seq 0 256).

Definition mirror (p : list Z) (t : list Z) : list Z :=
  for_lt 512 (fun i t => store t i (at_ p (Z.land (Z.of_nat i) 255))) t.

Definition setup : M unit :=
  fun w =>
    if init (tg w) then (tt, w)
    else
      (p <- shuffle 255 identity_table ;;
       set_generator {| perm := mirror p (perm (tg w)); init := true |}) w.

(** *** fade, lerp, grad *)

Definition fade (t : F) : F := t * t * t * (t * (t * ofZ 6 - ofZ 15) + ofZ 10).

Definition lerp (t a b : F) : F := a + t * (b - a).

Definition grad (hash : Z) (x y z : F) : F :=
  let h := Z.land hash 15 in
  let u := if (h <? 8)%Z then x else y in
  let v := if (h <? 4)%Z then y
           else if (h =? 12)%Z || (h =? 14)%Z then x else z in
  (if (Z.land h 1 =? 0)%Z then u else - u)
  + (if (Z.land h 2 =? 0)%Z then v else - v).

(** *** noise *)

(** ToInt32 of the result of [Math.floor]: such a number is an integer, a
    NaN or an infinity, and the last two convert to 0. *)
Definition ToInt32 (v : F) : Z :=
  match integer_value v with
  | Some k => ((k + 2 ^ 31) mod 2 ^ 32 - 2 ^ 31)%Z
  | None => 0%Z
  end.

(** The body of [noise] once the table is there. *)
Definition noise_at (p : list Z) (x y z : F) : F :=
  let X := Z.land (ToInt32 (Math_floor x)) 255 in
  let Y := Z.land (ToInt32 (Math_floor y)) 255 in
  let Z_ := Z.land (ToInt32 (Math_floor z)) 255 in
  let x := x - Math_floor x in
  let y := y - Math_floor y in
  let z := z - Math_floor z in
  let u := fade x in
  let v := fade y in
  let w := fade z in
  let A := (at_ p X + Y)%Z in
  let AA := (at_ p A + Z_)%Z in
  let AB := (at_ p (A + 1) + Z_)%Z in
  let B := (at_ p (X + 1) + Y)%Z in
  let BA := (at_ p B + Z_)%Z in
  let BB := (at_ p (B + 1) + Z_)%Z in
  lerp w
    (lerp v
       (lerp u (grad (at_ p AA) x y z) (grad (at_ p BA) (x - ofZ 1) y z))
       (lerp u (grad (at_ p AB) x (y - ofZ 1) z)
          (grad (at_ p BB) (x - ofZ 1) (y - ofZ 1) z)))
    (lerp v
       (lerp u (grad (at_ p (AA + 1)) x y (z - ofZ 1))
          (grad (at_ p (BA + 1)) (x - ofZ 1) y (z - ofZ 1)))
       (lerp u (grad (at_ p (AB + 1)) x (y - ofZ 1) (z - ofZ 1))
          (grad (at_ p (BB + 1)) (x - ofZ 1) (y - ofZ 1) (z - ofZ 1)))).

Definition noise (x y z : F) : M F :=
  fun w =>
    let (_, w') := (if init (tg w) then ret tt else setup) w in
    (noise_at (perm (tg w')) x y z, w').

(** *** fbm *)

Definition persistence_default : F := lit 5 10.
Definition scale_default : F := ofZ 1.

(** The octave loop, on [(total, frequency, amplitude, maxValue)]. *)
Fixpoint octave_loop (n : nat) (x y z persistence : F)
    (total frequency amplitude maxValue : F) : M (F * F) :=
  match n with
  | O => ret (total, maxValue)
  | S n' =>
      v <- noise (x * frequency) (y * frequency) (z * frequency) ;;
      octave_loop n' x y z persistence
        (total + v * amplitude)
        (frequency * ofZ 2)
        (amplitude * persistence)
        (maxValue + amplitude)
  end.

Definition fbm (x y z : F) (octaves : nat) (persistence scale : F) : M F :=
  tm <- octave_loop octaves x y z persistence (ofZ 0) scale (ofZ 1) (ofZ 0) ;;
  ret (fst tm / snd tm).

(** *** Canvas textures *)

(** What an entry point hands back: the ImageData bytes put on the canvas
    and, over them, the rectangles filled by the scuff overlay
    ([rx, ry, w, h], style [rgba(60, 50, 30, 0.1)]). *)
Record texture := {
  tex_width : nat;
  tex_height : nat;
  tex_data : list Z;
  tex_scuffs : list (F * F * F * F)
}.

Definition for_m {A} (n : nat) (body : nat -> A -> M A) (a : A) : M A :=
  fun w => for_lt n (fun i s => body i (fst s) (snd s)) (a, w).

(** [data[i] = v] on the Uint8ClampedArray of an ImageData. *)
Definition put (data : list Z) (i : nat) (v : F) : list Z :=
  store data i (ToUint8Clamp v).

(** [data[i] = r; data[i+1] = g; data[i+2] = b; data[i+3] = 255]. *)
Definition put_rgba (data : list Z) (i : nat) (r g b : F) : list Z :=
  store (put (put (put data i r) (i + 1) g) (i + 2) b) (i + 3) 255%Z.

Definition num (n : nat) : F := ofZ (Z.of_nat n).

Definition organic_pixel (type : organic) (width height x y : nat)
    (data : list Z) : M (list Z) :=
  let i := ((y * width + x) * 4)%nat in
  let nx := num x / num width in
  let ny := num y / num height in
  match type with
  | granite =>
      n1 <- fbm (nx * ofZ 15) (ny * ofZ 15) (ofZ 0) 4 (lit 5 10) scale_default ;;
      n2 <- fbm (nx * ofZ 50) (ny * ofZ 50) (ofZ 10) 3 (lit 5 10) scale_default ;;
      n3 <- fbm (nx * ofZ 100) (ny * ofZ 100) (ofZ 20) 2 (lit 5 10) scale_default ;;
      let baseVal := lit 4 10 + n1 * lit 3 10 in
      let r := baseVal * ofZ 160 in
      let g := baseVal * ofZ 165 in
      let b := baseVal * ofZ 170 in
      let '(r, g, b) :=
        if n2 <? lit 3 10
        then (r * lit 5 10, g * lit 5 10, b * lit 5 10) else (r, g, b) in
      let '(r, g, b) :=
        if n3 >? lit 7 10
        then (r + ofZ 40, g + ofZ 40, b + ofZ 40) else (r, g, b) in
      ret (put_rgba data i r g b)
  | bamboo =>
      fiber <- fbm (nx * ofZ 80) (ny * ofZ 2) (ofZ 0) 5 (lit 6 10) scale_default ;;
      stain <- fbm (nx * ofZ 4) (ny * ofZ 6) (ofZ 32) 4 (lit 5 10) scale_default ;;
      let baseR := ofZ 110 in
      let baseG := ofZ 140 in
      let baseB := ofZ 80 in
      let fiberVar := (fiber - lit 5 10) * ofZ 40 in
      let stainVar := (stain - lit 5 10) * ofZ 50 in
      ret (put_rgba data i
             (Math_max (ofZ 0) (Math_min (ofZ 255) (baseR + fiberVar - stainVar * lit 5 10)))
             (Math_max (ofZ 0) (Math_min (ofZ 255) (baseG + fiberVar - stainVar * lit 5 10)))
             (Math_max (ofZ 0) (Math_min (ofZ 255) (baseB + fiberVar - stainVar * lit 8 10))))
  | wood =>
      grain <- fbm (nx * ofZ 6) (ny * ofZ 40 + Math_sin (nx * ofZ 10) * ofZ 3)
                 (ofZ 5) 4 persistence_default scale_default ;;
      let r := ofZ 120 + grain * ofZ 30 in
      let g := ofZ 20 + grain * ofZ 10 in
      let b := ofZ 15 + grain * ofZ 10 in
      ret (put_rgba data i r g b)
  | sand =>
      grain <- fbm (nx * ofZ 150) (ny * ofZ 150) (ofZ 0) 2
                 persistence_default scale_default ;;
      patch <- fbm (nx * ofZ 5) (ny * ofZ 5) (ofZ 10) 3
                 persistence_default scale_default ;;
      let val := ofZ 200 + grain * ofZ 40 + patch * ofZ 15 in
      ret (put_rgba data i val val (val - ofZ 5))
  | roughness | moss => ret data
  end.

(** The bamboo overlay: [for (let k = 0; k < 30; k++)], four draws and one
    [fillRect] each. *)
Definition scuff (width height : nat) (rects : list (F * F * F * F))
    : M (list (F * F * F * F)) :=
  u1 <- Math_random ;;
  let rx := u1 * num width in
  u2 <- Math_random ;;
  let ry := u2 * num height in
  u3 <- Math_random ;;
  let w := ofZ 2 + u3 * ofZ 5 in
  u4 <- Math_random ;;
  let h := ofZ 10 + u4 * ofZ 30 in
  ret (rects ++ [(rx, ry, w, h)]).

Definition blank (width height : nat) : list Z :=
  repeat 0%Z (width * height * 4).

(** [new THREE.CanvasTexture(canvas)], which ends each entry point.  The
    constructor is three.js code, outside the sources; what it does to the
    process is to draw from [Math.random]: the texture and its image
    source are each given a UUID, and [generateUUID] makes four draws. *)
Definition generateUUID : M unit :=
  _ <- Math_random ;;
  _ <- Math_random ;;
  _ <- Math_random ;;
  _ <- Math_random ;;
  ret tt.

Definition CanvasTexture : M unit :=
  _ <- generateUUID ;;
  generateUUID.

(** [ctx.createImageData] throws on a zero dimension: [None]. *)
Definition createOrganicTexture (width height : nat) (type : organic)
    : M (option texture) :=
  if (width =? 0)%nat || (height =? 0)%nat then ret None
  else
    _ <- setup ;;
    _ <- tick ;;
    data <- for_m height (fun y d =>
              for_m width (fun x d => organic_pixel type width height x y d) d)
              (blank width height) ;;
    scuffs <- match type with
              | bamboo => for_m 30 (fun _ rects => scuff width height rects) []
              | _ => ret []
              end ;;
    _ <- CanvasTexture ;;
    ret (Some {| tex_width := width; tex_height := height;
                 tex_data := data; tex_scuffs := scuffs |}).

(** [val], the scalar roughness of a pixel, before it is scaled to a byte. *)
Definition roughness_value (type : rough) (width height x y : nat) : M F :=
  let nx := num x / num width in
  let ny := num y / num height in
  match type with
  | stone_r =>
      n <- fbm (nx * ofZ 60) (ny * ofZ 60) (ofZ 5) 3
             persistence_default scale_default ;;
      ret (lit 4 10 + n * lit 6 10)
  | bamboo_r =>
      fiber <- fbm (nx * ofZ 100) (ny * ofZ 2) (ofZ 0) 2
                 persistence_default scale_default ;;
      ret (lit 2 10 + fiber * lit 3 10)
  | sand_r =>
      n <- fbm (nx * ofZ 100) (ny * ofZ 100) (ofZ 0) 2
             persistence_default scale_default ;;
      ret (lit 8 10 + n * lit 2 10)
  end.

Definition roughness_pixel (type : rough) (width height x y : nat)
    (data : list Z) : M (list Z) :=
  let i := ((y * width + x) * 4)%nat in
  val <- roughness_value type width height x y ;;
  ret (put_rgba data i (val * ofZ 255) (val * ofZ 255) (val * ofZ 255)).

Definition createRoughnessMap (width height : nat) (type : rough)
    : M (option texture) :=
  if (width =? 0)%nat || (height =? 0)%nat then ret None
  else
    _ <- setup ;;
    _ <- tick ;;
    data <- for_m height (fun y d =>
              for_m width (fun x d => roughness_pixel type width height x y d) d)
              (blank width height) ;;
    _ <- CanvasTexture ;;
    ret (Some {| tex_width := width; tex_height := height;
                 tex_data := data; tex_scuffs := [] |}).

(** *** The normal map *)

Definition strength_default : F := ofZ 5.

Definition height_pixel (type : relief) (width height x y : nat)
    (buffer : list F) : M (list F) :=
  let nx := num x / num width in
  let ny := num y / num height in
  v <- match type with
       | bamboo_n =>
           fbm (nx * ofZ 150) (ny * ofZ 5) (ofZ 0) 3
             persistence_default scale_default
       | stone_n =>
           fbm (nx * ofZ 20) (ny * ofZ 20) (ofZ 99) 5
             persistence_default scale_default
       | generic_n =>
           fbm (nx * ofZ 10) (ny * ofZ 10) (ofZ 99) 4
             persistence_default scale_default
       end ;;
  ret (store buffer (y * width + x) (Math_fround v)).

(** The four neighbour indices of the Sobel loop; [%] is the remainder of
    JavaScript, which truncates. *)
Definition left_index (width x y : nat) : Z :=
  (Z.of_nat y * Z.of_nat width
   + Z.rem (Z.of_nat x - 1 + Z.of_nat width) (Z.of_nat width))%Z.
Definition right_index (width x y : nat) : Z :=
  (Z.of_nat y * Z.of_nat width
   + Z.rem (Z.of_nat x + 1) (Z.of_nat width))%Z.
Definition up_index (width height x y : nat) : Z :=
  (Z.rem (Z.of_nat y - 1 + Z.of_nat height) (Z.of_nat height) * Z.of_nat width
   + Z.of_nat x)%Z.
Definition down_index (width height x y : nat) : Z :=
  (Z.rem (Z.of_nat y + 1) (Z.of_nat height) * Z.of_nat width
   + Z.of_nat x)%Z.

(** A read of the height buffer; the four indices of a pixel lie inside it. *)
Definition sample (buffer : list F) (k : Z) : F :=
  nth (Z.to_nat k) buffer (ofZ 0).

(** [(dx, dy, dz)] at a pixel. *)
Definition gradient (buffer : list F) (width height : nat) (strength : F)
    (x y : nat) : F * F * F :=
  let x1 := sample buffer (left_index width x y) in
  let x2 := sample buffer (right_index width x y) in
  let y1 := sample buffer (up_index width height x y) in
  let y2 := sample buffer (down_index width height x y) in
  let dx := (x1 - x2) * strength in
  let dy := (y1 - y2) * strength in
  let dz := ofZ 1 / strength in
  (dx, dy, dz).

Definition length3 (d : F * F * F) : F :=
  let '(dx, dy, dz) := d in Math_sqrt (dx * dx + dy * dy + dz * dz).

(** [(dx / len, dy / len, dz / len)]. *)
Definition normal_at (buffer : list F) (width height : nat) (strength : F)
    (x y : nat) : F * F * F :=
  let '(dx, dy, dz) := gradient buffer width height strength x y in
  let len := length3 (dx, dy, dz) in
  (dx / len, dy / len, dz / len).

(** The three numbers written at a pixel, before the byte conversion. *)
Definition encoded_normal (buffer : list F) (width height : nat)
    (strength : F) (x y : nat) : F * F * F :=
  let '(n1, n2, n3) := normal_at buffer width height strength x y in
  ((n1 * lit 5 10 + lit 5 10) * ofZ 255,
   (n2 * lit 5 10 + lit 5 10) * ofZ 255,
   n3 * ofZ 255).

Definition normal_pixel (buffer : list F) (width height : nat) (strength : F)
    (x y : nat) (data : list Z) : list Z :=
  let i := ((y * width + x) * 4)%nat in
  let '(r, g, b) := encoded_normal buffer width height strength x y in
  put_rgba data i r g b.

Definition createNormalMap (width height : nat) (strength : F) (type : relief)
    : M (option texture) :=
  if (width =? 0)%nat || (height =? 0)%nat then ret None
  else
    let buffer := repeat (ofZ 0) (width * height) in
    _ <- setup ;;
    _ <- tick ;;
    buffer <- for_m height (fun y b =>
                for_m width (fun x b => height_pixel type width height x y b) b)
                buffer ;;
    let data :=
      for_lt height (fun y d =>
        for_lt width (fun x d =>
          normal_pixel buffer width height strength x y d) d)
        (blank width height) in
    _ <- CanvasTexture ;;
    ret (Some {| tex_width := width; tex_height := height;
                 tex_data := data; tex_scuffs := [] |}).

End TextureGenerator.

Arguments world F : clear implicits.
Arguments M F A : clear implicits.
Arguments texture F : clear implicits.
Arguments shuffle : simpl never.
Arguments mirror : simpl never.
Arguments identity_table : simpl never.
Arguments setup : simpl never.
Arguments noise_at : simpl never.

Definition boot {F} (random : nat -> F) : world F :=
  {| tg := {| perm := repeat 0%Z 512; init := false |};
     rng := random; drawn := 0; passes := 0 |}.

(** ** Predicates of the statements *)

(** The table has been built. *)
Definition ready {F} (w : world F) : Prop := init (tg w) = true.

(** A computation that only reads the table: on a ready process it changes
    nothing, and what it returns depends on the singleton alone. *)
Definition reader {F A} (c : M F A) : Prop :=
  forall w, ready w ->
    snd (c w) = w /\
    forall w', ready w' -> tg w' = tg w -> fst (c w') = fst (c w).

(** A computation that may draw random numbers but touches neither the
    singleton nor the pass counter. *)
Definition drawer {F A} (c : M F A) : Prop :=
  forall w, tg (snd (c w)) = tg w /\ passes (snd (c w)) = passes w.

(** The part of an entry point that follows [setup]: on a ready process it
    returns a texture, leaves the singleton and the pass counter alone, and
    the bytes of the texture depend on the singleton alone. *)
Definition repeatable {F} (c : M F (option (texture F))) : Prop :=
  forall w, ready w ->
    (exists t, fst (c w) = Some t) /\
    tg (snd (c w)) = tg w /\
    passes (snd (c w)) = passes w /\
    forall w', ready w' -> tg w' = tg w ->
      option_map (@tex_data F) (fst (c w')) = option_map (@tex_data F) (fst (c w)).

(** Two calls of an entry point in a row, from the process [w]: both
    return a texture, with the same bytes, and each of them made a synthesis
    pass of its own. *)
Definition resynthesises {F} (f : M F (option (texture F))) (w : world F) : Prop :=
  let r1 := f w in
  let r2 := f (snd r1) in
  (exists t1 t2,
      fst r1 = Some t1 /\ fst r2 = Some t2 /\ tex_data t2 = tex_data t1) /\
  passes (snd r1) = S (passes w) /\
  passes (snd r2) = S (S (passes w)).

(** The FBM sum in the words of the design document: octave [i] samples the
    noise at frequency [scale * 2^i] with amplitude [persistence^i], and the
    sum of the octaves is divided by the sum of the amplitudes. *)
Fixpoint octave_sum (p : list Z) (x y z persistence scale : R) (n : nat) : R :=
  match n with
  | O => 0
  | S i =>
      octave_sum p x y z persistence scale i
      + noise_at p (x * (scale * 2 ^ i))%R (y * (scale * 2 ^ i))%R
          (z * (scale * 2 ^ i))%R * persistence ^ i
  end%R.

Fixpoint amplitude_sum (persistence : R) (n : nat) : R :=
  match n with
  | O => 0
  | S i => amplitude_sum persistence i + persistence ^ i
  end%R.

(** The noise in the words of the design document: the cell coordinates
    modulo 256, the fractional offsets, the ease curve applied to each
    offset, the eight corners hashed through the table, the dot product of
    each corner's gradient with the offset to that corner, and the trilinear
    interpolation of the eight values with the eased offsets. *)
Definition quintic (t : R) : R := (6 * t ^ 5 - 15 * t ^ 4 + 10 * t ^ 3)%R.

Definition hash3 (p : list Z) (a b c : Z) : Z :=
  at_ p (at_ p (at_ p a + b) + c).

Definition trilinear (u v w c000 c100 c010 c110 c001 c101 c011 c111 : R) : R :=
  ((1 - w) * ((1 - v) * ((1 - u) * c000 + u * c100)
              + v * ((1 - u) * c010 + u * c110))
   + w * ((1 - v) * ((1 - u) * c001 + u * c101)
          + v * ((1 - u) * c011 + u * c111)))%R.

Definition lattice_noise (ease : R -> R) (p : list Z) (x y z : R) : R :=
  let X := (Zfloor x mod 256)%Z in
  let Y := (Zfloor y mod 256)%Z in
  let Z_ := (Zfloor z mod 256)%Z in
  let fx := (x - IZR (Zfloor x))%R in
  let fy := (y - IZR (Zfloor y))%R in
  let fz := (z - IZR (Zfloor z))%R in
  trilinear (ease fx) (ease fy) (ease fz)
    (grad (hash3 p X Y Z_) fx fy fz)
    (grad (hash3 p (X + 1) Y Z_) (fx - 1)%R fy fz)
    (grad (hash3 p X (Y + 1) Z_) fx (fy - 1)%R fz)
    (grad (hash3 p (X + 1) (Y + 1) Z_) (fx - 1)%R (fy - 1)%R fz)
    (grad (hash3 p X Y (Z_ + 1)) fx fy (fz - 1)%R)
    (grad (hash3 p (X + 1) Y (Z_ + 1)) (fx - 1)%R fy (fz - 1)%R)
    (grad (hash3 p X (Y + 1) (Z_ + 1)) fx (fy - 1)%R (fz - 1)%R)
    (grad (hash3 p (X + 1) (Y + 1) (Z_ + 1)) (fx - 1)%R (fy - 1)%R (fz - 1)%R).

(** A random source for concrete runs: [Math.random] returning 0 at every
    draw, which its contract ([0 <= u < 1]) allows. *)
Definition zeros : nat -> float := fun _ => PrimFloat.zero.

(** A random source with distinct draws: [n / 4096] at draw [n] (inside
    [0, 1) for the first 4096 draws). *)
Definition ramp : nat -> float :=
  fun n => PrimFloat.div (Float64.of_Z (Z.of_nat n)) (Float64.of_Z 4096).

(** The materials [createOrganicTexture] has a branch for. *)
Definition material (type : organic) : Prop :=
  match type with
  | granite | bamboo | wood | sand => True
  | roughness | moss => False
  end.

(** The first [k] pixels of [data] are written: opaque, and all of [data]
    holds bytes. *)
Definition painted (size k : nat) (data : list Z) : Prop :=
  length data = size /\
  (forall b, In b data -> (0 <= b <= 255)%Z) /\
  (forall j, j < k -> nth (4 * j + 3) data 0%Z = 255%Z).

(** ** Further definitions *)

(** The FBM sample that [createNormalMap] stores at a cell of the height
    buffer ([height_pixel] rounds it to binary32 and stores it). *)
Definition height_value {F} `{Number F} (type : relief)
    (width height x y : nat) : M F F :=
  let nx := (num x / num width)%js in
  let ny := (num y / num height)%js in
  match type with
  | bamboo_n =>
      fbm (nx * ofZ 150)%js (ny * ofZ 5)%js (ofZ 0) 3
        persistence_default scale_default
  | stone_n =>
      fbm (nx * ofZ 20)%js (ny * ofZ 20)%js (ofZ 99) 5
        persistence_default scale_default
  | generic_n =>
      fbm (nx * ofZ 10)%js (ny * ofZ 10)%js (ofZ 99) 4
        persistence_default scale_default
  end.

(** The four bytes of pixel [j] of an ImageData. *)
Definition pixel (data : list Z) (j : nat) : Z * Z * Z * Z :=
  (nth (4 * j) data 0%Z, nth (4 * j + 1) data 0%Z,
   nth (4 * j + 2) data 0%Z, nth (4 * j + 3) data 0%Z).

(** A scuff rectangle [(rx, ry, w, h)] starts inside the canvas and is
    between 2 and 7 wide and between 10 and 40 high. *)
Definition scuff_inside (width height : nat) (r : R * R * R * R) : Prop :=
  let '(rx, ry, rw, rh) := r in
  (0 <= rx < IZR (Z.of_nat width) /\ 0 <= ry < IZR (Z.of_nat height) /\
   2 <= rw < 7 /\ 10 <= rh < 40)%R.

(** ** The scene components

    The components of the scene that compute: the particle systems of
    [SeasonalEffects], the haiku of a [ZenStone], the koi and the ring of
    stones of [ZenPond], and the blades of [GrassField].  A [useMemo]
    callback is a computation in [M] (it may draw from [Math.random]); a
    [useFrame] callback is a function of the clock and of the data it
    mutates. *)

(** [Math.cos] and [Math.PI], which the components use and the generator
    does not. *)
Class Circular (F : Type) := {
  Math_cos : F -> F;
  Math_PI : F
}.

(** A stand-in for the host's cosine in the concrete runs of the binary64
    instance, as [Float64.host_sin] is for the sine: an even Taylor
    polynomial of 30 terms, not meant for large arguments; no statement
    depends on its values. *)
Fixpoint cos_terms (n : nat) (k : Z) (term x2 acc : float) : float :=
  match n with
  | O => acc
  | S n' =>
      let term' :=
        PrimFloat.opp
          (PrimFloat.div (PrimFloat.mul term x2)
             (Float64.of_Z ((2 * k - 1) * (2 * k)))) in
      cos_terms n' (k + 1)%Z term' x2 (PrimFloat.add acc term')
  end.

Definition host_cos (x : float) : float :=
  cos_terms 30 1 (Float64.of_Z 1) (PrimFloat.mul x x) (Float64.of_Z 1).

(** 3.141592653589793, the double [884279719003555 / 2^48]. *)
Definition host_PI : float :=
  PrimFloat.div (Float64.of_Z 884279719003555) (Float64.of_Z 281474976710656).

#[export] Instance float_circular : Circular float :=
  {| Math_cos := host_cos; Math_PI := host_PI |}.

#[export] Instance real_circular : Circular R :=
  {| Math_cos := cos; Math_PI := PI |}.

(** [new Array(n).fill(0).map(f)] and [new Float32Array(n).map(f)]: [f]
    runs once for each index, in order ([k] is the first index). *)
Fixpoint array_map {F A} (k n : nat) (f : nat -> M F A) : M F (list A) :=
  match n with
  | O => ret []
  | S n' =>
      bind (f k) (fun a =>
      bind (array_map (S k) n' f) (fun rest => ret (a :: rest)))
  end.

(** *** types.ts *)

Inductive Season := Spring | Summer | Autumn | Winter.

Record HaikuData := {
  line1 : String.string;
  line2 : String.string;
  line3 : String.string;
  author : option String.string
}.

Definition HAIKUS : list HaikuData := [
  {| line1 := "The old pond,"; line2 := "A frog jumps in:";
     line3 := "Plop! Sound of water."; author := Some "Bashō" |};
  {| line1 := "In the cherry blossom's shade"; line2 := "there's no such thing";
     line3 := "as a stranger."; author := Some "Issa" |};
  {| line1 := "First winter rain—"; line2 := "even the monkey";
     line3 := "seems to want a raincoat."; author := Some "Bashō" |};
  {| line1 := "Silence—"; line2 := "the cicada's cry";
     line3 := "pierces the rocks."; author := Some "Bashō" |};
  {| line1 := "Light of the moon"; line2 := "Moves west, flowers' shadows";
     line3 := "Creep eastward."; author := Some "Buson" |};
  {| line1 := "I write, erase, rewrite"; line2 := "Erase again, and then";
     line3 := "A poppy blooms."; author := Some "Hokushi" |};
  {| line1 := "Winter seclusion -"; line2 := "Listening, that evening,";
     line3 := "To the rain in the mountain."; author := Some "Issa" |};
  {| line1 := "A world of dew,"; line2 := "And within every dewdrop";
     line3 := "A world of struggle."; author := Some "Issa" |}
]%string.

(** [activeHaiku.author || "Unknown"], the author line of the modal. *)
Definition author_shown (h : HaikuData) : String.string :=
  match author h with
  | Some a => if String.eqb a "" then "Unknown"%string else a
  | None => "Unknown"%string
  end.

(** *** SeasonalEffects.tsx *)

Module GenerateParticles.

(** The properties of a particle system ([shape] is not used). *)
Record props (F : Type) := {
  count : nat;
  color : String.string;
  size : F;
  speedY : F;
  speedX : F;
  area : F;
  opacity : F
}.

Section Body.

Context {F : Type} `{NF : Number F} `{CF : Circular F}.
Local Open Scope js_scope.
Local Notation "x <- c ;; k" := (bind c (fun x => k))
  (at level 61, c at next level, right associativity).

(** The initial positions: a Float32Array of [count * 3] numbers, three
    draws for each particle. *)
Definition positions (count : nat) (area : F) : M F (list F) :=
  for_m count (fun i pos =>
      r <- Math_random ;;
      let pos := store pos (i * 3) (Math_fround ((r - lit 5 10) * area)) in
      r <- Math_random ;;
      let pos :=
        store pos (i * 3 + 1)
          (Math_fround (r * area * lit 8 10 + ofZ 2)) in
      r <- Math_random ;;
      ret (store pos (i * 3 + 2) (Math_fround ((r - lit 5 10) * area))))
    (repeat (ofZ 0) (count * 3)).

Definition seeds (count : nat) : M F (list F) :=
  array_map 0 count (fun _ =>
    r <- Math_random ;; ret (Math_fround (r * Math_PI * ofZ 2))).

(** The frame callback, with the points mounted.  Every read is inside the
    arrays when [positions] has [count * 3] entries and [seeds] has
    [count]. *)
Definition useFrame (count : nat) (speedY speedX area : F) (seeds : list F)
    (elapsedTime delta : F) (positions : list F) : M F (list F) :=
  for_m count (fun i positions =>
      let t := elapsedTime in
      let seed := nth i seeds (ofZ 0) in
      let positions :=
        store positions (i * 3 + 1)
          (Math_fround
             (nth (i * 3 + 1) positions (ofZ 0)
              - speedY * delta * (ofZ 1 + Math_sin (seed + t) * lit 2 10))) in
      let positions :=
        store positions (i * 3)
          (Math_fround
             (nth (i * 3) positions (ofZ 0)
              + Math_sin (t * lit 5 10 + seed) * speedX * delta)) in
      let positions :=
        store positions (i * 3 + 2)
          (Math_fround
             (nth (i * 3 + 2) positions (ofZ 0)
              + Math_cos (t * lit 3 10 + seed) * speedX * delta)) in
      if nth (i * 3 + 1) positions (ofZ 0) <? ofZ 0 then
        let positions :=
          store positions (i * 3 + 1) (Math_fround (area * lit 6 10)) in
        r <- Math_random ;;
        let positions :=
          store positions (i * 3) (Math_fround ((r - lit 5 10) * area)) in
        r <- Math_random ;;
        ret (store positions (i * 3 + 2) (Math_fround ((r - lit 5 10) * area)))
      else ret positions)
    positions.

End Body.

End GenerateParticles.

Definition SeasonalEffects {F} `{Number F} (season : Season)
    : GenerateParticles.props F :=
  match season with
  | Spring =>
      {| GenerateParticles.count := 400;
         GenerateParticles.color := "#FFE4E1"%string;
         GenerateParticles.size := lit 12 100;
         GenerateParticles.speedY := lit 8 10;
         GenerateParticles.speedX := lit 5 10;
         GenerateParticles.area := ofZ 40;
         GenerateParticles.opacity := lit 8 10 |}
  | Summer =>
      {| GenerateParticles.count := 150;
         GenerateParticles.color := "#ccff00"%string;
         GenerateParticles.size := lit 15 100;
         GenerateParticles.speedY := neg (lit 1 10);
         GenerateParticles.speedX := lit 2 10;
         GenerateParticles.area := ofZ 40;
         GenerateParticles.opacity := lit 6 10 |}
  | Autumn =>
      {| GenerateParticles.count := 300;
         GenerateParticles.color := "#D2691E"%string;
         GenerateParticles.size := lit 15 100;
         GenerateParticles.speedY := ofZ 1;
         GenerateParticles.speedX := lit 8 10;
         GenerateParticles.area := ofZ 40;
         GenerateParticles.opacity := lit 8 10 |}
  | Winter =>
      {| GenerateParticles.count := 1000;
         GenerateParticles.color := "#FFFFFF"%string;
         GenerateParticles.size := lit 8 100;
         GenerateParticles.speedY := lit 15 10;
         GenerateParticles.speedX := lit 3 10;
         GenerateParticles.area := ofZ 40;
         GenerateParticles.opacity := lit 8 10 |}
  end.

(** *** GardenElements: the stone's haiku *)

Module ZenStone.

(** [HAIKUS[Math.floor(Math.random() * HAIKUS.length)]]; an index that is
    not an integer of the table gives [undefined]. *)
Definition haiku {F} `{Number F} : M F (option HaikuData) :=
  bind Math_random (fun r =>
  ret (match integer_value (Math_floor (r * num (length HAIKUS))%js) with
       | Some k =>
           if (k <? 0)%Z then None else nth_error HAIKUS (Z.to_nat k)
       | None => None
       end)).

End ZenStone.

(** *** GardenElements: the pond *)

Module Koi.

Section Body.

Context {F : Type} `{NF : Number F} `{CF : Circular F}.
Local Open Scope js_scope.

Definition offset : M F F :=
  bind Math_random (fun r => ret (r * ofZ 100)).

(** [t], the phase of the frame callback. *)
Definition phase (speed offset elapsedTime : F) : F :=
  elapsedTime * speed + offset.

(** The point given to [position.set]. *)
Definition position (startPos : F * F * F) (t : F) : F * F * F :=
  let '(sx, _, sz) := startPos in
  let x := Math_sin t * lit 25 10 + sx in
  let z := Math_cos (t * lit 7 10) * ofZ 2 + sz in
  (x, - lit 3 10, z).

(** The point given to [lookAt]. *)
Definition lookAt (startPos : F * F * F) (t : F) : F * F * F :=
  let '(sx, _, sz) := startPos in
  let x := Math_sin t * lit 25 10 + sx in
  let z := Math_cos (t * lit 7 10) * ofZ 2 + sz in
  (x + Math_cos t * lit 25 10, - lit 3 10,
   z - Math_sin (t * lit 7 10) * lit 14 10).

End Body.

End Koi.

Module RingOfStones.

Record stone (F : Type) := {
  pos : F * F * F;
  scale : F;
  rot : F * F * F
}.

Section Body.

Context {F : Type} `{NF : Number F} `{CF : Circular F}.
Local Open Scope js_scope.
Local Notation "x <- c ;; k" := (bind c (fun x => k))
  (at level 61, c at next level, right associativity).

Definition stones (radius : F) (count : nat) : M F (list (stone F)) :=
  array_map 0 count (fun i =>
    let angle := (num i / num count) * Math_PI * ofZ 2 in
    r1 <- Math_random ;;
    r2 <- Math_random ;;
    r3 <- Math_random ;;
    r4 <- Math_random ;;
    r5 <- Math_random ;;
    r6 <- Math_random ;;
    ret {| pos := (Math_cos angle * radius + (r1 - lit 5 10) * lit 5 10,
                   lit 1 10,
                   Math_sin angle * radius + (r2 - lit 5 10) * lit 5 10);
           scale := lit 3 10 + r3 * lit 3 10;
           rot := (r4 * Math_PI, r5 * Math_PI, r6 * Math_PI) |}).

End Body.

End RingOfStones.

Module ZenPond.

Section Body.

Context {F : Type} `{NF : Number F}.
Local Open Scope js_scope.

(** The radius of the water disc and of the ring, and the number of its
    stones. *)
Definition water_radius : F := ofZ 6.
Definition ring_radius : F := lit 61 10.
Definition ring_count : nat := 40.

(** [startPos] and [speed] of the three koi. *)
Definition koi : list (F * F * F * F) :=
  [ ((ofZ 0, ofZ 0, ofZ 0), lit 5 10);
    ((ofZ 2, ofZ 0, ofZ 1), lit 4 10);
    ((- lit 15 10, ofZ 0, - lit 15 10), lit 6 10) ].

End Body.

End ZenPond.

(** *** GardenElements: the grass *)

Module GrassField.

Record blade (F : Type) := {
  x : F;
  z : F;
  scale : F;
  rotation : F;
  lean : F
}.

Section Body.

Context {F : Type} `{NF : Number F} `{CF : Circular F}.
Local Open Scope js_scope.
Local Notation "x <- c ;; k" := (bind c (fun x => k))
  (at level 61, c at next level, right associativity).

(** The vertex loop: how much of its width a vertex at height [y] keeps,
    and its colour. *)
Definition widthMod (y : F) : F :=
  if y >? lit 4 10 then lit 1 10
  else if y >? lit 3 10 then lit 5 10
  else if y >? lit 1 10 then lit 8 10
  else ofZ 1.

Definition vertex_color (y : F) : F * F * F :=
  if y <? lit 1 10 then (lit 1 10, lit 2 10, lit 5 100)
  else (lit 4 10, lit 6 10, lit 2 10).

Definition data (count : nat) (area : F) : M F (list (blade F)) :=
  array_map 0 count (fun _ =>
    r1 <- Math_random ;;
    r2 <- Math_random ;;
    r3 <- Math_random ;;
    r4 <- Math_random ;;
    r5 <- Math_random ;;
    ret {| x := (r1 - lit 5 10) * area;
           z := (r2 - lit 5 10) * area;
           scale := lit 6 10 + r3 * lit 8 10;
           rotation := r4 * Math_PI;
           lean := r5 * lit 4 10 |}).

(** The frame callback, for one blade. *)
Definition windX (time : F) (d : blade F) : F :=
  Math_sin (time * lit 7 10 + x d * lit 3 10)
  + Math_sin (time * lit 13 10 + x d * lit 8 10) * lit 3 10.

Definition windStrength (time : F) (d : blade F) : F :=
  lit 15 100 + Math_max (ofZ 0) (windX time d) * lit 2 10.

(** The three angles given to [dummy.rotation.set]. *)
Definition dummy_rotation (time : F) (d : blade F) : F * F * F :=
  (Math_sin (time * lit 5 10 + x d) * windStrength time d * lit 6 10 + lean d,
   rotation d + windX time d * lit 1 10,
   Math_cos (time * lit 5 10 + z d) * windStrength time d * lit 2 10).

End Body.

End GrassField.

(** *** GardenElements: the raked sand *)

Module SandGarden.

Section Body.

Context {F : Type} `{NF : Number F}.
Local Open Scope js_scope.
Local Notation "x <- c ;; k" := (bind c (fun x => k))
  (at level 61, c at next level, right associativity).

(** The noise loop of [rakeNormal] over the bytes of the ImageData:
    [for (let i = 0; i < data.length; i += 4)], one draw for each pixel,
    added to its first two bytes. *)
Definition rake_noise (data : list Z) : M F (list Z) :=
  for_m ((length data + 3) / 4) (fun k data =>
      let i := (k * 4)%nat in
      r <- Math_random ;;
      let n := (r - lit 5 10) * ofZ 10 in
      let data := put data i (ofZ (nth i data 0%Z) + n) in
      ret (put data (i + 1) (ofZ (nth (i + 1) data 0%Z) + n)))
    data.

End Body.

End SandGarden.

(** *** ZenScene: the light *)

Module Lighting.

(** [(position.x, position.z)] of the directional light, as the frame
    callback sets them. *)
Definition position {F} `{Number F} `{Circular F} (elapsedTime : F) : F * F :=
  let t := (elapsedTime * lit 5 100)%js in
  ((ofZ 20 * Math_cos (t + lit 5 10))%js,
   (ofZ 15 * Math_sin (t + lit 5 10))%js).

End Lighting.

(** * Properties *)

Unset Implicit Arguments.

(** ** Loops and stores *)

Lemma for_from_invariant {St} (P : nat -> St -> Prop) (body : nat -> St -> St) :
  forall n k s,
    P k s ->
    (forall i t, k <= i < k + n -> P i t -> P (S i) (body i t)) ->
    P (k + n) (for_from k n body s).
Proof.
  induction n as [|n IH]; intros k s Hs Hstep; simpl.
  - now rewrite Nat.add_0_r.
  - rewrite <- Nat.add_succ_comm. apply IH.
    + apply Hstep; [lia | exact Hs].
    + intros i t Hi. apply Hstep. lia.
Qed.

Lemma for_lt_invariant {St} (P : nat -> St -> Prop) (body : nat -> St -> St) n s :
  P 0 s ->
  (forall i t, i < n -> P i t -> P (S i) (body i t)) ->
  P n (for_lt n body s).
Proof.
  intros H0 Hstep. unfold for_lt.
  apply (for_from_invariant P body n 0 s H0).
  intros i t Hi. apply Hstep. lia.
Qed.

Lemma store_length {A} (a : list A) k v : length (store a k v) = length a.
Proof.
  revert k; induction a as [|h t IH]; intros [|k]; simpl; auto.
Qed.

Lemma nth_store_same {A} (a : list A) k v d :
  k < length a -> nth k (store a k v) d = v.
Proof.
  revert k; induction a as [|h t IH]; intros [|k] Hk; simpl in *; try lia; auto.
  apply IH; lia.
Qed.

Lemma nth_store_other {A} (a : list A) k j v d :
  j <> k -> nth j (store a k v) d = nth j a d.
Proof.
  revert k j; induction a as [|h t IH]; intros [|k] [|j] Hjk; simpl; auto;
    contradiction.
Qed.

Lemma nth_error_store {A} (a : list A) k j v :
  nth_error (store a k v) j =
  if (j =? k)%nat then (if (k <? length a)%nat then Some v else None)
  else nth_error a j.
Proof.
  revert k j; induction a as [|h t IH]; intros [|k] [|j]; simpl; auto.
  now destruct (j =? k)%nat.
Qed.

(** ** Setup runs once *)

Section Frames.

Context {F : Type} `{NF : Number F}.

Lemma setup_ready (w : world F) : ready (snd (setup w)).
Proof.
  unfold ready, setup. destruct (init (tg w)) eqn:E; [exact E|].
  unfold bind. destruct (shuffle 255 identity_table w). reflexivity.
Qed.

Lemma setup_again (w : world F) : ready w -> setup w = (tt, w).
Proof. unfold ready, setup. intros ->. reflexivity. Qed.

Lemma noise_setup (x y z : F) (w : world F) :
  noise x y z w = (noise_at (perm (tg (snd (setup w)))) x y z, snd (setup w)).
Proof.
  unfold noise. destruct (init (tg w)) eqn:E.
  - rewrite (setup_again w E). reflexivity.
  - destruct (setup w). reflexivity.
Qed.

Lemma noise_ready (x y z : F) (w : world F) :
  ready w -> noise x y z w = (noise_at (perm (tg w)) x y z, w).
Proof. intros Hw. rewrite noise_setup, (setup_again w Hw). reflexivity. Qed.

Lemma reader_ret {A} (a : A) : reader (F:=F) (ret a).
Proof. intros w _. split; [reflexivity | intros; reflexivity]. Qed.

Lemma reader_bind {A B} (c : M F A) (k : A -> M F B) :
  reader c -> (forall a, reader (k a)) -> reader (bind c k).
Proof.
  intros Hc Hk w Hw. unfold bind.
  destruct (Hc w Hw) as [Hs Hf].
  destruct (c w) as [a w1] eqn:Ec. simpl in Hs, Hf. subst w1.
  destruct (Hk a w Hw) as [Hks Hkf]. split; [exact Hks|].
  intros w' Hw' Ht. specialize (Hf w' Hw' Ht).
  destruct (Hc w' Hw') as [Hs' _].
  destruct (c w') as [a' w1'] eqn:Ec'. simpl in *. subst.
  destruct (Hk a w' Hw') as [_ Hkf'].
  rewrite (Hkf w' Hw' Ht). reflexivity.
Qed.

Lemma reader_noise (x y z : F) : reader (noise x y z).
Proof.
  intros w Hw. rewrite (noise_ready x y z w Hw). split; [reflexivity|].
  intros w' Hw' Ht. rewrite (noise_ready x y z w' Hw'), Ht. reflexivity.
Qed.

Lemma reader_for_m {A} (n : nat) (body : nat -> A -> M F A) (a : A) :
  (forall i b, reader (body i b)) -> reader (for_m n body a).
Proof.
  intros Hb. unfold for_m, for_lt. generalize 0 as k. revert a.
  induction n as [|n IH]; intros a k w Hw; simpl.
  - split; [reflexivity | intros; reflexivity].
  - destruct (Hb k a w Hw) as [Hs Hf].
    destruct (body k a w) as [a1 w1] eqn:Eb. simpl in Hs, Hf. subst w1.
    destruct (IH a1 (S k) w Hw) as [IHs IHf]. split; [exact IHs|].
    intros w' Hw' Ht. specialize (Hf w' Hw' Ht).
    destruct (Hb k a w' Hw') as [Hs' _].
    destruct (body k a w') as [a1' w1'] eqn:Eb'. simpl in *. subst.
    apply IHf; assumption.
Qed.

Lemma reader_octave_loop (n : nat) (x y z persistence : F) :
  forall total frequency amplitude maxValue,
    reader (octave_loop n x y z persistence total frequency amplitude maxValue).
Proof.
  induction n as [|n IH]; intros; simpl.
  - apply reader_ret.
  - apply reader_bind; [apply reader_noise | intros; apply IH].
Qed.

Lemma reader_fbm (x y z : F) (octaves : nat) (persistence scale : F) :
  reader (fbm x y z octaves persistence scale).
Proof.
  unfold fbm. apply reader_bind; [apply reader_octave_loop|].
  intros; apply reader_ret.
Qed.

End Frames.

(** ** Calling an entry point twice *)

Section Twice.

Context {F : Type} `{NF : Number F}.

Lemma drawer_ret {A} (a : A) : drawer (F:=F) (ret a).
Proof. intros w. split; reflexivity. Qed.

Lemma drawer_bind {A B} (c : M F A) (k : A -> M F B) :
  drawer c -> (forall a, drawer (k a)) -> drawer (bind c k).
Proof.
  intros Hc Hk w. unfold bind. destruct (Hc w) as [Ht Hp].
  destruct (c w) as [a w1]. simpl in Ht, Hp.
  destruct (Hk a w1) as [Ht' Hp']. split; congruence.
Qed.

Lemma drawer_random : drawer (F:=F) Math_random.
Proof. intros w. split; reflexivity. Qed.

Lemma drawer_for_m {A} (n : nat) (body : nat -> A -> M F A) (a : A) :
  (forall i b, drawer (body i b)) -> drawer (for_m n body a).
Proof.
  intros Hb. unfold for_m, for_lt. generalize 0 as k. revert a.
  induction n as [|n IH]; intros a k w; simpl.
  - split; reflexivity.
  - destruct (Hb k a w) as [Ht Hp].
    destruct (body k a w) as [a1 w1]. simpl in Ht, Hp.
    destruct (IH a1 (S k) w1) as [Ht' Hp']. split; congruence.
Qed.

Lemma drawer_shuffle (i : nat) : forall p, drawer (F:=F) (shuffle i p).
Proof.
  induction i as [|i IH]; intros p.
  - apply drawer_ret.
  - change (shuffle (S i) p)
      with (bind Math_random (fun u : F =>
              shuffle i (swap p (S i)
                 (integer_value (Math_floor (u * ofZ (Z.of_nat (S i) + 1))%js))))).
    apply drawer_bind; [apply drawer_random | intros; apply IH].
Qed.

Lemma drawer_scuff (width height : nat) (rects : list (F * F * F * F)) :
  drawer (scuff width height rects).
Proof.
  unfold scuff.
  repeat (apply drawer_bind; [apply drawer_random | intros]).
  apply drawer_ret.
Qed.

Lemma drawer_CanvasTexture : drawer (F:=F) CanvasTexture.
Proof.
  unfold CanvasTexture, generateUUID.
  repeat (apply drawer_bind; [|intros]);
    repeat first [apply drawer_random | apply drawer_ret
                 | apply drawer_bind; [|intros]].
Qed.

Lemma setup_passes (w : world F) : passes (snd (setup w)) = passes w.
Proof.
  unfold setup. destruct (init (tg w)); [reflexivity|].
  unfold bind. destruct (drawer_shuffle 255 identity_table w) as [_ Hp].
  destruct (shuffle 255 identity_table w). exact Hp.
Qed.

Lemma reader_organic_pixel type width height x y data :
  reader (F:=F) (organic_pixel type width height x y data).
Proof.
  destruct type; unfold organic_pixel; cbv zeta;
    repeat (apply reader_bind; [apply reader_fbm | intros]);
    try apply reader_ret.
  destruct (ltb _ _), (ltb _ _); apply reader_ret.
Qed.

Lemma reader_roughness_pixel type width height x y data :
  reader (F:=F) (roughness_pixel type width height x y data).
Proof.
  unfold roughness_pixel, roughness_value; cbv zeta.
  apply reader_bind; [|intros; apply reader_ret].
  destruct type; (apply reader_bind; [apply reader_fbm | intros; apply reader_ret]).
Qed.

Lemma reader_height_pixel type width height x y buffer :
  reader (F:=F) (height_pixel type width height x y buffer).
Proof.
  unfold height_pixel; cbv zeta.
  apply reader_bind; [|intros; apply reader_ret].
  destruct type; apply reader_fbm.
Qed.

Lemma repeatable_pixels {A B C} (pixels : M F A) (overlay : M F B)
    (tail : M F C) (pack : A -> B -> texture F) :
  reader pixels -> drawer overlay -> drawer tail ->
  (forall d s s', tex_data (pack d s') = tex_data (pack d s)) ->
  repeatable
    (bind pixels (fun d =>
     bind overlay (fun s =>
     bind tail (fun _ => ret (Some (pack d s)))))).
Proof.
  intros Hr Hd Hc Hpack w Hw. unfold bind, ret.
  destruct (Hr w Hw) as [Hs Hf].
  destruct (pixels w) as [d w1] eqn:Ep. simpl in Hs, Hf. subst w1.
  destruct (Hd w) as [Ht Hp].
  destruct (overlay w) as [s w2] eqn:Eo. simpl in Ht, Hp.
  destruct (Hc w2) as [Ht' Hp'].
  destruct (tail w2) as [c w3] eqn:Et. simpl in Ht', Hp'. simpl.
  split; [eexists; reflexivity|].
  split; [congruence|]. split; [congruence|].
  intros w' Hw' Htg. specialize (Hf w' Hw' Htg).
  destruct (pixels w') as [d' w1'] eqn:Ep'. simpl in Hf. subst d'.
  destruct (overlay w1') as [s' w2'].
  destruct (tail w2') as [c' w3']. simpl.
  f_equal. apply Hpack.
Qed.

Lemma repeatable_reader {A C} (pixels : M F A) (tail : M F C)
    (pack : A -> texture F) :
  reader pixels -> drawer tail ->
  repeatable (bind pixels (fun d => bind tail (fun _ => ret (Some (pack d))))).
Proof.
  intros Hr Hc w Hw. unfold bind, ret.
  destruct (Hr w Hw) as [Hs Hf].
  destruct (pixels w) as [d w1] eqn:Ep. simpl in Hs, Hf. subst w1.
  destruct (Hc w) as [Ht Hp].
  destruct (tail w) as [c w2] eqn:Et. simpl in Ht, Hp. simpl.
  split; [eexists; reflexivity|]. split; [exact Ht|]. split; [exact Hp|].
  intros w' Hw' Htg. specialize (Hf w' Hw' Htg).
  destruct (pixels w') as [d' w1']. simpl in Hf. subst d'.
  destruct (tail w1') as [c' w2']. reflexivity.
Qed.

(** The two calls of one entry point: same bytes, two passes. *)
Lemma twice (body : M F (option (texture F))) (w : world F) :
  repeatable body ->
  resynthesises (bind setup (fun _ => bind tick (fun _ => body))) w.
Proof.
  intros Hb.
  set (f := bind setup (fun _ => bind tick (fun _ => body))).
  assert (Hf : forall v, f v = body (snd (tick (snd (setup v))))).
  { intros v. unfold f, bind. destruct (setup v) as [[] v1]. reflexivity. }
  pose proof (setup_ready w) as Hs.
  pose proof (setup_passes w) as Hps.
  unfold resynthesises. cbv zeta.
  set (ws := snd (setup w)) in *.
  set (wt := snd (tick ws)).
  assert (Hwt : ready wt) by exact Hs.
  destruct (Hb wt Hwt) as ([t1 Ht1] & Htg & Hp & Hdata).
  rewrite (Hf w). fold ws. fold wt.
  set (w1 := snd (body wt)) in *.
  assert (Hw1 : ready w1) by (unfold ready; rewrite Htg; exact Hwt).
  rewrite (Hf w1), (setup_again w1 Hw1).
  set (wt1 := snd (tick w1)).
  change (snd (tick (snd (tt, w1)))) with wt1.
  assert (Hwt1 : ready wt1) by exact Hw1.
  assert (Htg1 : tg wt1 = tg wt) by exact Htg.
  destruct (Hb wt1 Hwt1) as ([t2 Ht2] & _ & Hp1 & _).
  specialize (Hdata wt1 Hwt1 Htg1). rewrite Ht1, Ht2 in Hdata. simpl in Hdata.
  split; [|split].
  - exists t1, t2. repeat split; congruence.
  - rewrite Hp. unfold wt. simpl. now rewrite Hps.
  - rewrite Hp1. unfold wt1. simpl. rewrite Hp. unfold wt. simpl. now rewrite Hps.
Qed.

Lemma positive_sizes (width height : nat) :
  0 < width -> 0 < height -> (width =? 0)%nat || (height =? 0)%nat = false.
Proof.
  intros Hw Hh. apply orb_false_iff. split; apply Nat.eqb_neq; lia.
Qed.

Lemma sizes_cases (width height : nat) :
  (width =? 0)%nat || (height =? 0)%nat = true \/ (0 < width /\ 0 < height).
Proof.
  destruct width, height; simpl; auto; right; lia.
Qed.

(** Each entry point, on sizes other than 0, is [setup], the tick of the
    pass counter and a repeatable rest. *)
Lemma organic_shape (width height : nat) (type : organic) :
  0 < width -> 0 < height ->
  exists body, repeatable body /\
    createOrganicTexture (F:=F) width height type =
    bind setup (fun _ => bind tick (fun _ => body)).
Proof.
  intros Hw Hh. unfold createOrganicTexture.
  rewrite (positive_sizes width height Hw Hh).
  eexists. split; [|reflexivity].
  apply (repeatable_pixels _ _ _
           (fun data scuffs =>
              {| tex_width := width; tex_height := height;
                 tex_data := data; tex_scuffs := scuffs |})).
  - apply reader_for_m; intros; apply reader_for_m; intros.
    apply reader_organic_pixel.
  - destruct type;
      [ apply drawer_ret
      | apply drawer_for_m; intros; apply drawer_scuff
      | apply drawer_ret .. ].
  - apply drawer_CanvasTexture.
  - reflexivity.
Qed.

Lemma roughness_shape (width height : nat) (type : rough) :
  0 < width -> 0 < height ->
  exists body, repeatable body /\
    createRoughnessMap (F:=F) width height type =
    bind setup (fun _ => bind tick (fun _ => body)).
Proof.
  intros Hw Hh. unfold createRoughnessMap.
  rewrite (positive_sizes width height Hw Hh).
  eexists. split; [|reflexivity].
  apply (repeatable_reader _ _
           (fun data =>
              {| tex_width := width; tex_height := height;
                 tex_data := data; tex_scuffs := [] |})).
  - apply reader_for_m; intros; apply reader_for_m; intros.
    apply reader_roughness_pixel.
  - apply drawer_CanvasTexture.
Qed.

Lemma normal_shape (width height : nat) (strength : F) (type : relief) :
  0 < width -> 0 < height ->
  exists body, repeatable body /\
    createNormalMap width height strength type =
    bind setup (fun _ => bind tick (fun _ => body)).
Proof.
  intros Hw Hh. unfold createNormalMap.
  rewrite (positive_sizes width height Hw Hh). cbv zeta.
  eexists. split; [|reflexivity].
  apply (repeatable_reader _ _
           (fun buffer =>
              {| tex_width := width; tex_height := height;
                 tex_data :=
                   for_lt height (fun y d =>
                     for_lt width (fun x d =>
                       normal_pixel buffer width height strength x y d) d)
                     (blank width height);
                 tex_scuffs := [] |})).
  - apply reader_for_m; intros; apply reader_for_m; intros.
    apply reader_height_pixel.
  - apply drawer_CanvasTexture.
Qed.

Lemma entry_keeps_table (body : M F (option (texture F))) (w : world F) :
  repeatable body -> ready w ->
  tg (snd (bind setup (fun _ => bind tick (fun _ => body)) w)) = tg w.
Proof.
  intros Hb Hw. unfold bind. rewrite (setup_again w Hw). simpl.
  destruct (Hb (snd (tick w)) Hw) as (_ & Ht & _). exact Ht.
Qed.

Lemma organic_keeps_table (width height : nat) (type : organic) (w : world F) :
  ready w -> tg (snd (createOrganicTexture width height type w)) = tg w.
Proof.
  intros Hr. destruct (sizes_cases width height) as [E|[Hw Hh]].
  - unfold createOrganicTexture. rewrite E. reflexivity.
  - destruct (organic_shape width height type Hw Hh) as (body & Hb & ->).
    now apply entry_keeps_table.
Qed.

Lemma roughness_keeps_table (width height : nat) (type : rough) (w : world F) :
  ready w -> tg (snd (createRoughnessMap width height type w)) = tg w.
Proof.
  intros Hr. destruct (sizes_cases width height) as [E|[Hw Hh]].
  - unfold createRoughnessMap. rewrite E. reflexivity.
  - destruct (roughness_shape width height type Hw Hh) as (body & Hb & ->).
    now apply entry_keeps_table.
Qed.

Lemma normal_keeps_table (width height : nat) (strength : F) (type : relief)
    (w : world F) :
  ready w -> tg (snd (createNormalMap width height strength type w)) = tg w.
Proof.
  intros Hr. destruct (sizes_cases width height) as [E|[Hw Hh]].
  - unfold createNormalMap. rewrite E. reflexivity.
  - destruct (normal_shape width height strength type Hw Hh) as (body & Hb & ->).
    now apply entry_keeps_table.
Qed.

End Twice.

(** C1 (amended).  The generator keeps no cache: every call of an entry point
    runs its pixel loop again, so two calls with the same arguments make two
    synthesis passes.  Both calls return a texture and the bytes of the two
    ImageData buffers are equal, since the permutation table is built by the
    first [setup] and only read afterwards.  (The bamboo scuff rectangles are
    drawn from fresh random numbers at each call: the statement is about the
    bytes, not about them.) *)
Theorem repeated_request_synthesises_again :
  forall (F : Type) (NF : Number F) (w : world F) (width height : nat),
    0 < width -> 0 < height ->
    (forall type, resynthesises (createOrganicTexture width height type) w) /\
    (forall type, resynthesises (createRoughnessMap width height type) w) /\
    (forall strength type,
        resynthesises (createNormalMap width height strength type) w).
Proof.
  intros F NF w width height Hw Hh. split; [|split].
  - intros type.
    destruct (organic_shape width height type Hw Hh) as (body & Hb & ->).
    now apply twice.
  - intros type.
    destruct (roughness_shape width height type Hw Hh) as (body & Hb & ->).
    now apply twice.
  - intros strength type.
    destruct (normal_shape width height strength type Hw Hh) as (body & Hb & ->).
    now apply twice.
Qed.

(** ** Exact arithmetic *)

Ltac exact_arith :=
  unfold lit, num in *;
  cbn [add sub mul div neg ofZ ltb Math_floor Math_sqrt Math_sin Math_max
       Math_min Math_fround integer_value ToUint8Clamp real_number
       Exact.number] in *.

Section ExactNoise.

Local Open Scope R_scope.

Lemma fade_expand (t : R) : fade t = 6 * t ^ 5 - 15 * t ^ 4 + 10 * t ^ 3.
Proof. unfold fade. exact_arith. ring. Qed.

Lemma fade_0 : fade 0 = 0.
Proof. rewrite fade_expand. ring. Qed.

Lemma lerp_0 (a b : R) : lerp 0 a b = a.
Proof. unfold lerp. exact_arith. ring. Qed.

Lemma grad_origin (hash : Z) : grad hash 0 0 0 = 0.
Proof.
  unfold grad. exact_arith.
  repeat match goal with |- context [if ?c then _ else _] => destruct c end;
    ring.
Qed.

Lemma floor_integer (k : Z) : Math_floor (IZR k) = IZR k.
Proof. exact_arith. unfold Exact.floor. now rewrite ZfloorZ. Qed.

Lemma noise_at_lattice (p : list Z) (a b c : Z) :
  noise_at p (IZR a) (IZR b) (IZR c) = 0.
Proof.
  unfold noise_at. rewrite !floor_integer.
  replace (IZR a - IZR a)%js with 0 by (exact_arith; ring).
  replace (IZR b - IZR b)%js with 0 by (exact_arith; ring).
  replace (IZR c - IZR c)%js with 0 by (exact_arith; ring).
  cbv zeta. rewrite fade_0, !lerp_0. apply grad_origin.
Qed.

Lemma low_byte_of_int32 (k : Z) :
  Z.land ((k + 2 ^ 31) mod 2 ^ 32 - 2 ^ 31) 255 = (k mod 256)%Z.
Proof.
  change 255%Z with (Z.ones 8). rewrite Z.land_ones by lia.
  rewrite (Z.mod_eq (k + 2 ^ 31) (2 ^ 32)) by lia.
  replace (k + 2 ^ 31 - 2 ^ 32 * ((k + 2 ^ 31) / 2 ^ 32) - 2 ^ 31)%Z
    with (k + (- ((k + 2 ^ 31) / 2 ^ 32) * 2 ^ 24) * 2 ^ 8)%Z by ring.
  now rewrite Z.mod_add by lia.
Qed.

Lemma cell_coordinate (x : R) :
  Z.land (ToInt32 (Math_floor x)) 255 = (Zfloor x mod 256)%Z.
Proof.
  unfold ToInt32. exact_arith. unfold Exact.floor, Exact.integer_of.
  rewrite ZfloorZ.
  destruct (Req_dec_T (IZR (Zfloor x)) (IZR (Zfloor x))) as [_|Hne];
    [|now elim Hne].
  apply low_byte_of_int32.
Qed.

Lemma lerp_convex (t a b : R) : lerp t a b = (1 - t) * a + t * b.
Proof. unfold lerp. exact_arith. ring. Qed.

Lemma noise_at_refines (p : list Z) (x y z : R) :
  noise_at p x y z = lattice_noise quintic p x y z.
Proof.
  unfold noise_at, lattice_noise, hash3, trilinear, quintic. cbv zeta.
  rewrite !cell_coordinate, !lerp_convex, !fade_expand, <- !Z.add_assoc.
  exact_arith. unfold Exact.floor. reflexivity.
Qed.

End ExactNoise.

(** C9.  [fade] is the quintic [6t^5 - 15t^4 + 10t^3] at every [t], and
    [noise] is the lattice noise of the design document with that quintic
    as the ease curve of the three fractional coordinates (exact
    arithmetic). *)
Theorem fade_is_the_quintic :
  (forall t : R, fade t = 6 * t ^ 5 - 15 * t ^ 4 + 10 * t ^ 3)%R /\
  (forall (p : list Z) (x y z : R),
      noise_at p x y z = lattice_noise quintic p x y z) /\
  (forall (w : world R) (x y z : R),
      fst (noise x y z w) =
      lattice_noise quintic (perm (tg (snd (setup w)))) x y z).
Proof.
  split; [exact fade_expand|]. split; [exact noise_at_refines|].
  intros w x y z. rewrite noise_setup. apply noise_at_refines.
Qed.

(** C10.  At every point of the integer lattice [noise] returns exactly 0,
    whatever the table holds and whether or not it was built before the call
    (exact arithmetic). *)
Theorem noise_vanishes_on_the_lattice :
  forall (w : world R) (a b c : Z),
    fst (noise (IZR a) (IZR b) (IZR c) w) = 0%R.
Proof.
  intros w a b c. rewrite noise_setup. simpl fst. apply noise_at_lattice.
Qed.

(** ** The octave loop *)

Section ExactFbm.

Local Open Scope R_scope.

Variables (p : list Z) (x y z persistence : R).

Lemma octave_sum_front (scale : R) (n : nat) :
  octave_sum p x y z persistence scale (S n) =
  noise_at p (x * scale) (y * scale) (z * scale)
  + persistence * octave_sum p x y z persistence (scale * 2) n.
Proof.
  induction n as [|n IH].
  - simpl. replace (x * (scale * 1)) with (x * scale) by ring.
    replace (y * (scale * 1)) with (y * scale) by ring.
    replace (z * (scale * 1)) with (z * scale) by ring. ring.
  - change (octave_sum p x y z persistence scale (S (S n)))
      with (octave_sum p x y z persistence scale (S n)
            + noise_at p (x * (scale * 2 ^ S n)) (y * (scale * 2 ^ S n))
                (z * (scale * 2 ^ S n)) * persistence ^ S n).
    rewrite IH.
    change (octave_sum p x y z persistence (scale * 2) (S n))
      with (octave_sum p x y z persistence (scale * 2) n
            + noise_at p (x * (scale * 2 * 2 ^ n)) (y * (scale * 2 * 2 ^ n))
                (z * (scale * 2 * 2 ^ n)) * persistence ^ n).
    replace (x * (scale * 2 ^ S n)) with (x * (scale * 2 * 2 ^ n)) by (simpl; ring).
    replace (y * (scale * 2 ^ S n)) with (y * (scale * 2 * 2 ^ n)) by (simpl; ring).
    replace (z * (scale * 2 ^ S n)) with (z * (scale * 2 * 2 ^ n)) by (simpl; ring).
    simpl pow. ring.
Qed.

Lemma amplitude_sum_front (n : nat) :
  amplitude_sum persistence (S n) = 1 + persistence * amplitude_sum persistence n.
Proof.
  induction n as [|n IH]; [simpl; ring|].
  change (amplitude_sum persistence (S (S n)))
    with (amplitude_sum persistence (S n) + persistence ^ S n).
  rewrite IH at 1.
  change (amplitude_sum persistence (S n))
    with (amplitude_sum persistence n + persistence ^ n).
  simpl pow. ring.
Qed.

End ExactFbm.

Lemma octave_loop_exact (x y z persistence : R) (n : nat) :
  forall (total frequency amplitude maxValue : R) (w : world R),
    ready w ->
    octave_loop n x y z persistence total frequency amplitude maxValue w =
    ((total + amplitude * octave_sum (perm (tg w)) x y z persistence frequency n,
      maxValue + amplitude * amplitude_sum persistence n)%R, w).
Proof.
  induction n as [|n IH]; intros total frequency amplitude maxValue w Hw.
  - simpl. unfold ret. do 2 f_equal; ring.
  - rewrite octave_sum_front, amplitude_sum_front.
    change (octave_loop (S n) x y z persistence total frequency amplitude maxValue w)
      with (bind (noise (x * frequency)%js (y * frequency)%js (z * frequency)%js)
              (fun v => octave_loop n x y z persistence
                          (total + v * amplitude)%js (frequency * ofZ 2)%js
                          (amplitude * persistence)%js (maxValue + amplitude)%js) w).
    unfold bind. rewrite (noise_ready _ _ _ w Hw). rewrite (IH _ _ _ _ w Hw).
    exact_arith. do 2 f_equal; ring.
Qed.

Lemma octave_loop_setup (x y z persistence : R) (n : nat) :
  forall (total frequency amplitude maxValue : R) (w : world R),
    fst (octave_loop n x y z persistence total frequency amplitude maxValue w) =
    fst (octave_loop n x y z persistence total frequency amplitude maxValue
           (snd (setup w))).
Proof.
  destruct n as [|n]; intros; [reflexivity|].
  simpl. unfold bind. rewrite (noise_setup _ _ _ w).
  rewrite (noise_ready _ _ _ (snd (setup w)) (setup_ready w)). reflexivity.
Qed.

Lemma fbm_exact (w : world R) (x y z persistence scale : R) (n : nat) :
  fst (fbm x y z n persistence scale w) =
  (octave_sum (perm (tg (snd (setup w)))) x y z persistence scale n
   / amplitude_sum persistence n)%R.
Proof.
  unfold fbm, bind.
  pose proof (octave_loop_setup x y z persistence n
                (ofZ 0) scale (ofZ 1) (ofZ 0) w) as Hs.
  rewrite (octave_loop_exact x y z persistence n _ _ _ _ _ (setup_ready w)) in Hs.
  destruct (octave_loop n x y z persistence (ofZ 0) scale (ofZ 1) (ofZ 0) w)
    as [tm w1].
  simpl in Hs. subst tm. simpl. exact_arith. f_equal; ring.
Qed.

(** C8.  With one octave [fbm] is the noise at the scaled point; with [n]
    octaves it is the sum of the noise at frequencies [scale * 2^i] weighted
    by [persistence^i], divided by the sum of these weights, whenever that
    sum is not 0 (exact arithmetic; the table is the one [setup] leaves). *)
Theorem fbm_is_the_normalised_octave_sum :
  forall (w : world R) (x y z persistence scale : R),
    fst (fbm x y z 1 persistence scale w) =
      fst (noise (x * scale)%R (y * scale)%R (z * scale)%R w) /\
    forall n : nat,
      amplitude_sum persistence n <> 0%R ->
      fst (fbm x y z n persistence scale w) =
      (octave_sum (perm (tg (snd (setup w)))) x y z persistence scale n
       / amplitude_sum persistence n)%R.
Proof.
  intros w x y z persistence scale.
  split; [|intros n _; apply fbm_exact].
  rewrite fbm_exact, noise_setup. simpl.
  replace (x * (scale * 1))%R with (x * scale)%R by ring.
  replace (y * (scale * 1))%R with (y * scale)%R by ring.
  replace (z * (scale * 1))%R with (z * scale)%R by ring.
  field.
Qed.

Lemma fbm_is_the_normalised_octave_sum_witness :
  fst (fbm (1 / 2)%R 0%R 0%R 2 (1 / 2)%R 1%R (boot (fun _ : nat => 0%R))) =
  (octave_sum (perm (tg (snd (setup (boot (fun _ : nat => 0%R))))))
     (1 / 2) 0 0 (1 / 2) 1 2
   / amplitude_sum (1 / 2) 2)%R.
Proof.
  pose proof (fbm_is_the_normalised_octave_sum (boot (fun _ : nat => 0%R))
                (1 / 2)%R 0%R 0%R (1 / 2)%R 1%R) as [_ H].
  apply H. simpl. lra.
Defined.

(** ** Bounds on the noise *)

Section ExactBounds.

Local Open Scope R_scope.

Lemma fraction_bounds (x : R) : 0 <= (x - Math_floor x)%js < 1.
Proof.
  exact_arith. unfold Exact.floor. pose proof (Zfloor_bound x). lra.
Qed.

Lemma fade_unit (t : R) : 0 <= t <= 1 -> 0 <= fade t <= 1.
Proof.
  intros [H0 H1]. rewrite fade_expand. split.
  - replace (6 * t ^ 5 - 15 * t ^ 4 + 10 * t ^ 3)
      with (t ^ 3 * (6 * (t - 5 / 4) ^ 2 + 5 / 8)) by field.
    apply Rmult_le_pos; [apply pow_le; lra | nra].
  - assert (0 <= (1 - t) ^ 3 * (6 * t ^ 2 + 3 * t + 1)) as H
        by (apply Rmult_le_pos; [apply pow_le; lra | nra]).
    replace ((1 - t) ^ 3 * (6 * t ^ 2 + 3 * t + 1))
      with (1 - (6 * t ^ 5 - 15 * t ^ 4 + 10 * t ^ 3)) in H by ring.
    lra.
Qed.

Lemma lerp_between (t a b lo hi : R) :
  0 <= t <= 1 -> lo <= a <= hi -> lo <= b <= hi -> lo <= lerp t a b <= hi.
Proof.
  intros Ht Ha Hb. unfold lerp. exact_arith.
  replace (a + t * (b - a)) with ((1 - t) * a + t * b) by ring. nra.
Qed.

Lemma grad_bound (hash : Z) (a b c : R) :
  -1 <= a <= 1 -> -1 <= b <= 1 -> -1 <= c <= 1 ->
  -2 <= grad hash a b c <= 2.
Proof.
  intros Ha Hb Hc. unfold grad. exact_arith.
  repeat match goal with |- context [if ?k then _ else _] => destruct k end;
    lra.
Qed.

Lemma noise_at_bound (p : list Z) (x y z : R) : -2 <= noise_at p x y z <= 2.
Proof.
  unfold noise_at. cbv zeta.
  pose proof (fraction_bounds x) as Hx.
  pose proof (fraction_bounds y) as Hy.
  pose proof (fraction_bounds z) as Hz.
  set (fx := (x - Math_floor x)%js) in *.
  set (fy := (y - Math_floor y)%js) in *.
  set (fz := (z - Math_floor z)%js) in *.
  assert (Hx1 : -1 <= (fx - ofZ 1)%js <= 1) by (exact_arith; lra).
  assert (Hy1 : -1 <= (fy - ofZ 1)%js <= 1) by (exact_arith; lra).
  assert (Hz1 : -1 <= (fz - ofZ 1)%js <= 1) by (exact_arith; lra).
  assert (Hx0 : -1 <= fx <= 1) by lra.
  assert (Hy0 : -1 <= fy <= 1) by lra.
  assert (Hz0 : -1 <= fz <= 1) by lra.
  repeat apply lerp_between;
    try (apply fade_unit; lra); apply grad_bound; assumption.
Qed.

Lemma octave_sum_bound (p : list Z) (x y z persistence scale : R) (n : nat) :
  0 <= persistence ->
  0 <= amplitude_sum persistence n /\
  - (2 * amplitude_sum persistence n)
    <= octave_sum p x y z persistence scale n
    <= 2 * amplitude_sum persistence n.
Proof.
  intros Hp. induction n as [|n [IH0 IH]]; [simpl; lra|].
  cbn [octave_sum amplitude_sum].
  pose proof (pow_le persistence n Hp) as Hpow.
  pose proof (noise_at_bound p (x * (scale * 2 ^ n)) (y * (scale * 2 ^ n))
                (z * (scale * 2 ^ n))) as Hn.
  split; [lra | nra].
Qed.

Lemma amplitude_sum_positive (persistence : R) (n : nat) :
  0 <= persistence -> 1 <= amplitude_sum persistence (S n).
Proof.
  intros Hp. rewrite amplitude_sum_front.
  destruct (octave_sum_bound [] 0 0 0 persistence 0 n Hp) as [H _]. nra.
Qed.

Lemma fbm_bound (w : world R) (x y z persistence scale : R) (n : nat) :
  0 <= persistence ->
  -2 <= fst (fbm x y z (S n) persistence scale w) <= 2.
Proof.
  intros Hp. rewrite fbm_exact.
  pose proof (amplitude_sum_positive persistence n Hp) as Ha.
  destruct (octave_sum_bound (perm (tg (snd (setup w)))) x y z persistence
              scale (S n) Hp) as [_ Hs].
  set (a := amplitude_sum persistence (S n)) in *.
  set (s := octave_sum _ _ _ _ _ _ _) in *.
  split.
  - apply Rmult_le_reg_r with a; [lra|].
    unfold Rdiv. rewrite Rmult_assoc, Rinv_l by lra. lra.
  - apply Rmult_le_reg_r with a; [lra|].
    unfold Rdiv. rewrite Rmult_assoc, Rinv_l by lra. lra.
Qed.

End ExactBounds.

(** C3 (amended).  The roughness of a sand pixel is [0.8 + 0.2 n], where [n]
    is the two-octave FBM sample of the pixel.  The sample is signed, so the
    value may lie below 0.8; it lies between -2 and 2, so the value is never
    below 0.4: no sand pixel reports a roughness near zero (exact
    arithmetic). *)
Theorem sand_roughness_floor :
  forall (w : world R) (width height x y : nat),
    x < width -> y < height ->
    let n :=
      fst (fbm (num x / num width * 100)%R (num y / num height * 100)%R 0%R 2
             persistence_default scale_default w) in
    let val := fst (roughness_value sand_r width height x y w) in
    (val = 8 / 10 + n * (2 / 10) /\ -2 <= n <= 2 /\ 4 / 10 <= val)%R.
Proof.
  intros w width height x y _ _ n val.
  assert (Hn : (-2 <= n <= 2)%R).
  { apply fbm_bound. unfold persistence_default. exact_arith. lra. }
  assert (Hv : (val = 8 / 10 + n * (2 / 10))%R).
  { unfold val, n, roughness_value, bind. cbv zeta. exact_arith.
    destruct (fbm _ _ _ _ _ _ w) as [v w1]. reflexivity. }
  split; [exact Hv|]. split; [exact Hn|]. lra.
Qed.

Lemma sand_roughness_floor_witness :
  (4 / 10 <= fst (roughness_value sand_r 8 1 1 0 (boot (fun _ : nat => 0%R))))%R.
Proof.
  pose proof (sand_roughness_floor (boot (fun _ : nat => 0%R)) 8 1 1 0
                ltac:(lia) ltac:(lia)) as H.
  cbv zeta in H. destruct H as (_ & _ & H). exact H.
Defined.

(** ** The normal map *)

Section ExactNormal.

Local Open Scope R_scope.

Lemma squares_positive (dx dy dz : R) :
  dz <> 0 -> 0 < dx * dx + dy * dy + dz * dz.
Proof. intros Hz. assert (0 < dz * dz) by nra. nra. Qed.

Lemma length3_positive (dx dy dz : R) : dz <> 0 -> 0 < length3 (dx, dy, dz).
Proof.
  intros Hz. unfold length3. exact_arith.
  apply sqrt_lt_R0. now apply squares_positive.
Qed.

Lemma normalised_is_unit (dx dy dz : R) :
  dz <> 0 ->
  let len := length3 (dx, dy, dz) in
  length3 (dx / len, dy / len, dz / len)%js = 1.
Proof.
  intros Hz len.
  pose proof (length3_positive dx dy dz Hz) as Hlen. fold len in Hlen.
  assert (Hsq : len * len = dx * dx + dy * dy + dz * dz).
  { unfold len, length3. exact_arith. apply sqrt_sqrt.
    pose proof (squares_positive dx dy dz Hz). lra. }
  unfold length3 at 1. exact_arith.
  replace (dx / len * (dx / len) + dy / len * (dy / len) + dz / len * (dz / len))
    with ((dx * dx + dy * dy + dz * dz) / (len * len)) by (field; lra).
  rewrite <- Hsq. unfold Rdiv. rewrite Rinv_r by nra. apply sqrt_1.
Qed.

Lemma gradient_depth (buffer : list R) (width height : nat) (strength : R)
    (x y : nat) :
  snd (gradient buffer width height strength x y) = 1 / strength.
Proof. reflexivity. Qed.

Lemma depth_nonzero (strength : R) : strength <> 0 -> 1 / strength <> 0.
Proof.
  intros Hs. unfold Rdiv. rewrite Rmult_1_l. now apply Rinv_neq_0_compat.
Qed.

End ExactNormal.

(** C2, as stated, fails at strength 0 (binary64, a 1x1 generic map): the
    Z-depth term is +Infinity, the Z component written is NaN, and the byte
    the buffer keeps for it is 0. *)
Lemma zero_strength_gives_nan :
  PrimFloat.is_infinity (snd (gradient [PrimFloat.zero] 1 1 (ofZ 0) 0 0)) = true /\
  PrimFloat.is_nan (snd (encoded_normal [PrimFloat.zero] 1 1 (ofZ 0) 0 0)) = true /\
  option_map (@tex_data float)
    (fst (createNormalMap 1 1 (ofZ 0) generic_n (boot zeros)))
  = Some [128; 128; 0; 255]%Z.
Proof. vm_compute. repeat split. Qed.

(** ** Wrap-around sampling *)

Section Wrap.

Context {F : Type} `{NF : Number F}.

Lemma rem_wraps (k n : Z) : (0 <= k)%Z -> (0 < n)%Z -> Z.rem k n = (k mod n)%Z.
Proof. intros Hk Hn. apply Z.rem_mod_nonneg; lia. Qed.

Lemma left_index_wraps (width x y : nat) :
  x < width ->
  left_index width x y =
  (Z.of_nat y * Z.of_nat width + (Z.of_nat x - 1) mod Z.of_nat width)%Z.
Proof.
  intros Hx. unfold left_index. rewrite rem_wraps by lia.
  f_equal.
  replace (Z.of_nat x - 1 + Z.of_nat width)%Z
    with (Z.of_nat x - 1 + 1 * Z.of_nat width)%Z by lia.
  apply Z.mod_add. lia.
Qed.

Lemma right_index_wraps (width x y : nat) :
  x < width ->
  right_index width x y =
  (Z.of_nat y * Z.of_nat width + (Z.of_nat x + 1) mod Z.of_nat width)%Z.
Proof. intros Hx. unfold right_index. rewrite rem_wraps by lia. reflexivity. Qed.

Lemma up_index_wraps (width height x y : nat) :
  y < height ->
  up_index width height x y =
  ((Z.of_nat y - 1) mod Z.of_nat height * Z.of_nat width + Z.of_nat x)%Z.
Proof.
  intros Hy. unfold up_index. rewrite rem_wraps by lia.
  do 2 f_equal.
  replace (Z.of_nat y - 1 + Z.of_nat height)%Z
    with (Z.of_nat y - 1 + 1 * Z.of_nat height)%Z by lia.
  apply Z.mod_add. lia.
Qed.

Lemma down_index_wraps (width height x y : nat) :
  y < height ->
  down_index width height x y =
  ((Z.of_nat y + 1) mod Z.of_nat height * Z.of_nat width + Z.of_nat x)%Z.
Proof. intros Hy. unfold down_index. rewrite rem_wraps by lia. reflexivity. Qed.

End Wrap.

(** ** The permutation table *)

Section Shuffle.

Lemma swap_permutation (p : list Z) (i j : nat) :
  i < length p -> j < length p ->
  Permutation (store (store p i (nth j p 0%Z)) j (nth i p 0%Z)) p.
Proof.
  intros Hi Hj. symmetry. apply Permutation_nth_error. split.
  - now rewrite !store_length.
  - exists (fun n => if (n =? j)%nat then i else if (n =? i)%nat then j else n).
    split.
    + intros a b.
      destruct (Nat.eqb_spec a j), (Nat.eqb_spec b j),
               (Nat.eqb_spec a i), (Nat.eqb_spec b i); congruence.
    + intros n. rewrite !nth_error_store, store_length.
      destruct (Nat.eqb_spec n j) as [->|Hnj].
      * apply Nat.ltb_lt in Hj. rewrite Hj. symmetry.
        apply nth_error_nth'. assumption.
      * destruct (Nat.eqb_spec n i) as [->|Hni]; [|reflexivity].
        pose proof Hi as Hi'. apply Nat.ltb_lt in Hi'. rewrite Hi'. symmetry.
        apply nth_error_nth'. assumption.
Qed.

(** A draw in [0, 1) scaled by [i + 1] and floored is an index in [0, i]. *)
Lemma draw_index (u : R) (i : nat) :
  (0 <= u < 1)%R ->
  exists k : Z,
    integer_value (Math_floor (u * ofZ (Z.of_nat i + 1))%js) = Some k /\
    (0 <= k <= Z.of_nat i)%Z.
Proof.
  intros Hu. exact_arith. unfold Exact.floor, Exact.integer_of.
  set (k := Zfloor (u * IZR (Z.of_nat i + 1))).
  rewrite ZfloorZ.
  destruct (Req_dec_T (IZR k) (IZR k)) as [_|Hne]; [|now elim Hne].
  exists k. split; [reflexivity|].
  pose proof (Zfloor_bound (u * IZR (Z.of_nat i + 1))) as Hb. fold k in Hb.
  assert (Hi : (1 <= IZR (Z.of_nat i + 1))%R) by (apply IZR_le; lia).
  split.
  - apply Zfloor_lub. simpl. nra.
  - assert (Hlt : (IZR k < IZR (Z.of_nat i + 1))%R) by nra.
    apply lt_IZR in Hlt. lia.
Qed.

Lemma shuffle_permutation (i : nat) :
  forall (p : list Z) (w : world R),
    i < length p ->
    (forall n, (0 <= rng w n < 1)%R) ->
    Permutation (fst (shuffle i p w)) p.
Proof.
  induction i as [|i IH]; intros p w Hi Hr; [reflexivity|].
  change (shuffle (S i) p w)
    with (bind Math_random (fun u : R =>
            shuffle i (swap p (S i)
               (integer_value (Math_floor (u * ofZ (Z.of_nat (S i) + 1))%js)))) w).
  unfold bind, Math_random.
  destruct (draw_index (rng w (drawn w)) (S i) (Hr (drawn w))) as (k & -> & Hk).
  assert (Hkey : key p (Some k) = Some (Z.to_nat k)).
  { unfold key.
    replace ((0 <=? k)%Z) with true by (symmetry; apply Z.leb_le; lia).
    replace ((k <? Z.of_nat (length p))%Z) with true
      by (symmetry; apply Z.ltb_lt; lia).
    reflexivity. }
  unfold swap. rewrite Hkey.
  etransitivity.
  - apply IH; [rewrite !store_length; lia | exact Hr].
  - apply swap_permutation; lia.
Qed.

Lemma shuffle_length (F : Type) (NF : Number F) (i : nat) :
  forall (p : list Z) (w : world F), length (fst (shuffle i p w)) = length p.
Proof.
  induction i as [|i IH]; intros p w; [reflexivity|].
  change (shuffle (S i) p w)
    with (bind Math_random (fun u : F =>
            shuffle i (swap p (S i)
               (integer_value (Math_floor (u * ofZ (Z.of_nat (S i) + 1))%js)))) w).
  unfold bind, Math_random. rewrite IH. unfold swap.
  destruct (key p _); now rewrite ?store_length.
Qed.

Lemma low_byte (i : nat) : i < 256 -> Z.land (Z.of_nat i) 255 = Z.of_nat i.
Proof.
  intros Hi. change 255%Z with (Z.ones 8). rewrite Z.land_ones by lia.
  apply Z.mod_small. lia.
Qed.

Lemma low_byte_high (i : nat) :
  i < 256 -> Z.land (Z.of_nat (i + 256)) 255 = Z.of_nat i.
Proof.
  intros Hi. change 255%Z with (Z.ones 8). rewrite Z.land_ones by lia.
  rewrite Nat2Z.inj_add. change (Z.of_nat 256) with (1 * 2 ^ 8)%Z.
  rewrite Z.mod_add by lia. apply Z.mod_small. lia.
Qed.

Lemma mirror_entries (p t : list Z) :
  length t = 512 ->
  length (mirror p t) = 512 /\
  forall i, i < 512 ->
    nth i (mirror p t) 0%Z = at_ p (Z.land (Z.of_nat i) 255).
Proof.
  intros Ht. unfold mirror.
  apply (for_lt_invariant
           (fun k (a : list Z) =>
              length a = 512 /\
              forall i, i < k -> nth i a 0%Z = at_ p (Z.land (Z.of_nat i) 255))).
  - split; [exact Ht | intros; lia].
  - intros k a Hk [Hl Ha]. split; [now rewrite store_length|].
    intros i Hi. destruct (Nat.eq_dec i k) as [->|Hne].
    + apply nth_store_same. lia.
    + rewrite nth_store_other by assumption. apply Ha. lia.
Qed.

Lemma mirror_low (p t : list Z) :
  length p = 256 -> length t = 512 -> firstn 256 (mirror p t) = p.
Proof.
  intros Hp Ht. destruct (mirror_entries p t Ht) as [Hl Hn].
  apply (nth_ext _ _ 0%Z 0%Z).
  - rewrite firstn_length_le; lia.
  - intros n Hlt. rewrite firstn_length_le in Hlt by lia.
    rewrite nth_firstn. apply Nat.ltb_lt in Hlt as Hb. rewrite Hb.
    rewrite Hn by lia. rewrite low_byte by assumption.
    unfold at_. now rewrite Nat2Z.id.
Qed.

Lemma mirror_high (p t : list Z) (i : nat) :
  length t = 512 -> i < 256 ->
  nth (i + 256) (mirror p t) 0%Z = nth i (mirror p t) 0%Z.
Proof.
  intros Ht Hi. destruct (mirror_entries p t Ht) as [_ Hn].
  rewrite !Hn by lia.
  rewrite low_byte_high by assumption. now rewrite low_byte by assumption.
Qed.

Lemma identity_table_length : length identity_table = 256.
Proof. reflexivity. Qed.

Lemma identity_table_once (v : Z) :
  (0 <= v < 256)%Z -> count_occ Z.eq_dec identity_table v = 1.
Proof.
  intros Hv. apply NoDup_count_occ'.
  - unfold identity_table. apply Injective_map_NoDup.
    + intros a b. apply Nat2Z.inj.
    + apply seq_NoDup.
  - unfold identity_table. apply in_map_iff. exists (Z.to_nat v). split.
    + lia.
    + apply in_seq. lia.
Qed.

Lemma setup_table (w : world R) :
  init (tg w) = false ->
  perm (tg (snd (setup w))) =
  mirror (fst (shuffle 255 identity_table w)) (perm (tg w)).
Proof.
  intros Hi. unfold setup. rewrite Hi. unfold bind.
  destruct (shuffle 255 identity_table w). reflexivity.
Qed.

End Shuffle.

(** C7.  When [setup] has built the table from draws in [0, 1): the first
    256 entries are a permutation of 0..255, each value occurring exactly
    once; entries 256..511 repeat entries 0..255; and nothing changes the
    table afterwards: a second [setup] changes nothing at all, [noise] and
    [fbm] return the process as they found it, and the three entry points
    leave the singleton as it is. *)
Theorem permutation_table_invariant :
  forall w : world R,
    init (tg w) = false ->
    length (perm (tg w)) = 512 ->
    (forall n, (0 <= rng w n < 1)%R) ->
    let w' := snd (setup w) in
    let table := perm (tg w') in
    Permutation (firstn 256 table) identity_table /\
    (forall v, (0 <= v < 256)%Z ->
       count_occ Z.eq_dec (firstn 256 table) v = 1) /\
    (forall i, i < 256 -> nth (i + 256) table 0%Z = nth i table 0%Z) /\
    setup w' = (tt, w') /\
    (forall x y z, snd (noise x y z w') = w') /\
    (forall x y z octaves persistence scale,
       snd (fbm x y z octaves persistence scale w') = w') /\
    (forall width height type,
       tg (snd (createOrganicTexture width height type w')) = tg w') /\
    (forall width height type,
       tg (snd (createRoughnessMap width height type w')) = tg w') /\
    (forall width height strength type,
       tg (snd (createNormalMap width height strength type w')) = tg w').
Proof.
  intros w Hi Hl Hr w' table.
  pose proof (setup_ready w) as Hready. fold w' in Hready.
  assert (Hp : Permutation (firstn 256 table) identity_table).
  { unfold table, w'. rewrite (setup_table w Hi).
    rewrite mirror_low; [| now rewrite shuffle_length | exact Hl].
    apply shuffle_permutation; [rewrite identity_table_length; lia | exact Hr]. }
  split; [exact Hp|]. split; [|split; [|split; [|split; [|split]]]].
  - intros v Hv.
    rewrite (proj1 (Permutation_count_occ Z.eq_dec _ _) Hp).
    now apply identity_table_once.
  - intros i Hlt. unfold table, w'. rewrite (setup_table w Hi).
    now apply mirror_high.
  - now apply setup_again.
  - intros x y z. now rewrite (noise_ready x y z w' Hready).
  - intros x y z octaves persistence scale.
    now destruct (reader_fbm x y z octaves persistence scale w' Hready).
  - split; [|split]; intros.
    + now apply organic_keeps_table.
    + now apply roughness_keeps_table.
    + now apply normal_keeps_table.
Qed.

Lemma permutation_table_invariant_witness :
  let w' := snd (setup (boot (fun _ : nat => 0%R))) in
  Permutation (firstn 256 (perm (tg w'))) identity_table /\
  setup w' = (tt, w').
Proof.
  pose proof (permutation_table_invariant (boot (fun _ : nat => 0%R))
                eq_refl eq_refl ltac:(intros; simpl; lra))
    as (Hp & _ & _ & Hs & _).
  split; [exact Hp | exact Hs].
Defined.

(** ** Albedo bytes *)

Section Albedo.

Context {F : Type} `{NF : Number F}.

Hypothesis clamp_is_byte : forall v : F, (0 <= ToUint8Clamp v <= 255)%Z.

Lemma in_store {A} (a : list A) (k : nat) (v b : A) :
  In b (store a k v) -> b = v \/ In b a.
Proof.
  revert k; induction a as [|h t IH]; intros [|k] Hb; simpl in *; auto.
  - destruct Hb; auto.
  - destruct Hb as [Hb|Hb]; auto. destruct (IH k Hb); auto.
Qed.

Lemma put_rgba_painted (size j : nat) (data : list Z) (r g b : F) :
  4 * j + 3 < size ->
  painted size j data ->
  painted size (S j) (put_rgba data (4 * j) r g b).
Proof.
  intros Hj (Hl & Hb & Ha). unfold put_rgba, put. split; [|split].
  - now rewrite !store_length.
  - intros c Hc.
    repeat (apply in_store in Hc; destruct Hc as [->|Hc];
            [first [apply clamp_is_byte | lia]|]).
    now apply Hb.
  - intros i Hi. destruct (Nat.eq_dec i j) as [->|Hne].
    + apply nth_store_same. rewrite !store_length. lia.
    + rewrite !nth_store_other by lia. apply Ha. lia.
Qed.

Lemma organic_pixel_writes (type : organic) (width height x y : nat)
    (data : list Z) (w : world F) :
  material type ->
  exists r g b,
    fst (organic_pixel type width height x y data w) =
    put_rgba data ((y * width + x) * 4) r g b.
Proof.
  intros Hm. destruct type; try contradiction;
    unfold organic_pixel, bind, ret; cbv zeta;
    repeat match goal with
      | |- context [fbm ?a ?b ?c ?n ?p ?s ?v] => destruct (fbm a b c n p s v)
      end.
  - destruct (ltb _ _), (ltb _ _); do 3 eexists; reflexivity.
  - do 3 eexists; reflexivity.
  - do 3 eexists; reflexivity.
  - do 3 eexists; reflexivity.
Qed.

Lemma organic_rows_painted (type : organic) (width height : nat) (w : world F) :
  material type ->
  painted (width * height * 4) (height * width)
    (fst (for_m height (fun y d =>
            for_m width (fun x d => organic_pixel type width height x y d) d)
            (blank width height) w)).
Proof.
  intros Hm. unfold for_m at 1.
  apply (for_lt_invariant
           (fun y (s : list Z * world F) =>
              painted (width * height * 4) (y * width) (fst s))).
  - simpl. split; [apply repeat_length|]. split.
    + intros b Hb. apply repeat_spec in Hb. lia.
    + intros j Hj. lia.
  - intros y [d v] Hy Hd. simpl in Hd. simpl fst at 2. simpl snd.
    unfold for_m.
    replace (S y * width) with (y * width + width) by lia.
    apply (for_lt_invariant
             (fun x (s : list Z * world F) =>
                painted (width * height * 4) (y * width + x) (fst s))).
    + simpl. now rewrite Nat.add_0_r.
    + intros x [d1 v1] Hx Hd1. simpl in Hd1. simpl fst at 2. simpl snd.
      destruct (organic_pixel_writes type width height x y d1 v1 Hm)
        as (r & g & b & ->).
      replace ((y * width + x) * 4) with (4 * (y * width + x)) by lia.
      replace (y * width + S x) with (S (y * width + x)) by lia.
      apply put_rgba_painted; [nia | exact Hd1].
Qed.

Lemma organic_texture_painted (type : organic) (width height : nat)
    (w : world F) :
  material type -> 0 < width -> 0 < height ->
  exists t,
    fst (createOrganicTexture width height type w) = Some t /\
    painted (width * height * 4) (height * width) (tex_data t).
Proof.
  intros Hm Hw Hh. unfold createOrganicTexture.
  rewrite (positive_sizes width height Hw Hh). unfold bind.
  destruct (setup w) as [[] w1]. destruct (tick w1) as [[] w2].
  pose proof (organic_rows_painted type width height w2 Hm) as Hp.
  destruct (for_m height _ (blank width height) w2) as [data w3].
  simpl in Hp.
  match goal with
  | |- context [let (s, v) := ?c w3 in _] => destruct (c w3) as [scuffs w4]
  end.
  eexists. split; [reflexivity | exact Hp].
Qed.

End Albedo.

Lemma float_clamp_is_byte (v : float) : (0 <= ToUint8Clamp v <= 255)%Z.
Proof.
  change (ToUint8Clamp v) with (Float64.to_uint8_clamp v).
  unfold Float64.to_uint8_clamp, Float64.byte_clip.
  destruct (PrimFloat.is_nan v); [lia|].
  destruct (PrimFloat.leb v (Float64.of_Z 0)); [lia|].
  destruct (PrimFloat.leb (Float64.of_Z 255) v); lia.
Qed.

Lemma real_clamp_is_byte (v : R) : (0 <= ToUint8Clamp v <= 255)%Z.
Proof.
  change (ToUint8Clamp v) with (Exact.to_uint8_clamp v).
  unfold Exact.to_uint8_clamp.
  destruct (Rle_dec v 0); [lia|].
  destruct (Rle_dec 255 v); lia.
Qed.

(** On binary64 and on any table: the albedo of a material the generator
    knows holds bytes and is opaque at every pixel. *)
Lemma material_albedo_is_opaque (type : organic) (width height : nat)
    (w : world float) :
  material type -> 0 < width -> 0 < height ->
  exists t,
    fst (createOrganicTexture width height type w) = Some t /\
    painted (width * height * 4) (height * width) (tex_data t).
Proof. apply organic_texture_painted. exact float_clamp_is_byte. Qed.

(** Granite at 4x4, whatever the table and the random source. *)
Lemma granite_4x4_is_opaque (w : world float) :
  exists t,
    fst (createOrganicTexture 4 4 granite w) = Some t /\
    length (tex_data t) = 64 /\
    (forall b, In b (tex_data t) -> (0 <= b <= 255)%Z) /\
    (forall j, j < 16 -> nth (4 * j + 3) (tex_data t) 0%Z = 255%Z).
Proof.
  destruct (material_albedo_is_opaque granite 4 4 w I) as (t & Ht & Hp);
    [lia | lia |].
  exists t. split; [exact Ht | exact Hp].
Qed.

(** ** Concrete runs on binary64 *)

(** C4, at the failing input.  [createOrganicTexture] accepts ['moss'] and
    ['roughness'] and has no branch for them: the ImageData stays as
    [createImageData] made it, transparent black, so the alpha byte is 0 and
    not 255. *)
Theorem moss_albedo_is_transparent :
  option_map (@tex_data float)
    (fst (createOrganicTexture 1 1 moss (boot zeros))) = Some [0; 0; 0; 0]%Z /\
  option_map (@tex_data float)
    (fst (createOrganicTexture 1 1 roughness (boot zeros))) = Some [0; 0; 0; 0]%Z.
Proof. vm_compute. split; reflexivity. Qed.

Lemma repeated_request_synthesises_again_witness :
  resynthesises (createRoughnessMap 1 1 sand_r) (boot zeros).
Proof.
  pose proof (repeated_request_synthesises_again float float_number
                (boot zeros) 1 1 ltac:(lia) ltac:(lia)) as (_ & Hr & _).
  exact (Hr sand_r).
Defined.

(** C1, as stated, fails: the second of two identical requests runs the
    pixel loop again (two passes after two calls), and the bamboo overlay of
    the second call is stamped elsewhere than that of the first. *)
Lemma second_request_is_a_second_pass :
  let r1 := createOrganicTexture 2 2 bamboo (boot ramp) in
  let r2 := createOrganicTexture 2 2 bamboo (snd r1) in
  passes (snd r1) = 1 /\
  passes (snd r2) = 2 /\
  match fst r1, fst r2 with
  | Some t1, Some t2 =>
      match tex_scuffs t1, tex_scuffs t2 with
      | (rx1, _, _, _) :: _, (rx2, _, _, _) :: _ => PrimFloat.ltb rx1 rx2 = true
      | _, _ => False
      end
  | _, _ => False
  end.
Proof. vm_compute. repeat split. Qed.

(** C3, as stated, fails: on the table that an all-zero random source
    gives, the sand pixel (1, 0) of an 8x1 map has roughness below 0.8, and
    the byte written for it, 196, is below 204 = 0.8 * 255. *)
Lemma sand_pixel_below_base :
  PrimFloat.ltb (fst (roughness_value sand_r 8 1 1 0 (boot zeros))) (lit 8 10)
    = true /\
  option_map (fun t : texture float => firstn 4 (skipn 4 (tex_data t)))
    (fst (createRoughnessMap 8 1 sand_r (boot zeros)))
    = Some [196; 196; 196; 255]%Z.
Proof. vm_compute. split; reflexivity. Qed.

(** The exact statements, observed on binary64 with the [ramp] source: the
    table is a permutation, the noise vanishes at a lattice point, one octave
    of FBM is the noise at the scaled point, and the normals of a 3x2 stone
    map at strength 15 have length 1 within 1e-3. *)
Example binary64_table_is_a_permutation :
  let table := perm (tg (snd (setup (boot ramp)))) in
  forallb (fun v => (count_occ Z.eq_dec (firstn 256 table) v =? 1)%nat)
    identity_table = true /\
  firstn 256 table = skipn 256 table.
Proof. vm_compute. split; reflexivity. Qed.

Example binary64_noise_on_the_lattice :
  PrimFloat.eqb
    (fst (noise (Float64.of_Z 3) (Float64.of_Z (-7)) (Float64.of_Z 12) (boot ramp)))
    PrimFloat.zero = true.
Proof. vm_compute. reflexivity. Qed.

Example binary64_one_octave :
  PrimFloat.eqb
    (fst (fbm (lit 37 10) (lit 12 10) (ofZ 5) 1 (lit 6 10) (ofZ 3) (boot ramp)))
    (fst (noise (lit 37 10 * ofZ 3)%js (lit 12 10 * ofZ 3)%js (ofZ 5 * ofZ 3)%js
            (boot ramp)))
  = true.
Proof. vm_compute. reflexivity. Qed.

Example binary64_normals_are_unit :
  let w := snd (setup (boot ramp)) in
  let buffer :=
    fst (for_m 2 (fun y b =>
           for_m 3 (fun x b => height_pixel stone_n 3 2 x y b) b)
           (repeat PrimFloat.zero 6) w) in
  forallb (fun xy : nat * nat =>
             let '(n1, n2, n3) :=
               normal_at buffer 3 2 (ofZ 15) (fst xy) (snd xy) in
             let n := PrimFloat.sqrt (n1 * n1 + n2 * n2 + n3 * n3)%float in
             PrimFloat.ltb (PrimFloat.abs (PrimFloat.sub n PrimFloat.one))
               (lit 1 1000))
    [(0, 0); (1, 0); (2, 0); (0, 1); (1, 1); (2, 1)] = true.
Proof. vm_compute. reflexivity. Qed.

(** * Further properties of the generator *)

(** ** The range of the noise *)

Section NoiseRange.

Local Open Scope R_scope.

Lemma lerp_monotone (t a b a' b' : R) :
  0 <= t <= 1 -> a <= a' -> b <= b' -> lerp t a b <= lerp t a' b'.
Proof. intros Ht Ha Hb. rewrite !lerp_convex. nra. Qed.

Lemma grad_le_sum (hash : Z) (a b c : R) :
  grad hash a b c <= Rabs a + Rabs b + Rabs c.
Proof.
  pose proof (Rle_abs a). pose proof (Rle_abs b). pose proof (Rle_abs c).
  pose proof (Rabs_pos a). pose proof (Rabs_pos b). pose proof (Rabs_pos c).
  pose proof (Rle_abs (- a)) as Ha. pose proof (Rle_abs (- b)) as Hb.
  pose proof (Rle_abs (- c)) as Hc. rewrite Rabs_Ropp in Ha, Hb, Hc.
  unfold grad. exact_arith. cbv zeta.
  generalize (Z.land hash 15). intros h.
  destruct (Z.ltb_spec h 8), (Z.ltb_spec h 4), (Z.eqb_spec h 12),
           (Z.eqb_spec h 14), (Z.land h 1 =? 0)%Z, (Z.land h 2 =? 0)%Z;
    simpl; try lia; lra.
Qed.

Lemma grad_ge_sum (hash : Z) (a b c : R) :
  - (Rabs a + Rabs b + Rabs c) <= grad hash a b c.
Proof.
  pose proof (Rle_abs a). pose proof (Rle_abs b). pose proof (Rle_abs c).
  pose proof (Rabs_pos a). pose proof (Rabs_pos b). pose proof (Rabs_pos c).
  pose proof (Rle_abs (- a)) as Ha. pose proof (Rle_abs (- b)) as Hb.
  pose proof (Rle_abs (- c)) as Hc. rewrite Rabs_Ropp in Ha, Hb, Hc.
  unfold grad. exact_arith. cbv zeta.
  generalize (Z.land hash 15). intros h.
  destruct (Z.ltb_spec h 8), (Z.ltb_spec h 4), (Z.eqb_spec h 12),
           (Z.eqb_spec h 14), (Z.land h 1 =? 0)%Z, (Z.land h 2 =? 0)%Z;
    simpl; try lia; lra.
Qed.

(** The distance to the two ends of a cell, interpolated by the eased
    offset, is at most 1/2. *)
Lemma eased_distance (t : R) :
  0 <= t <= 1 -> lerp (fade t) t (1 - t) <= 1 / 2.
Proof.
  intros Ht. rewrite lerp_convex, fade_expand.
  assert (Hq : 0 <= 6 * t ^ 2 * (1 - t) ^ 2 + 2 * t * (1 - t) + 1) by nra.
  assert (Hs : 0 <= (1 / 2 - t) ^ 2) by apply pow2_ge_0.
  pose proof (Rmult_le_pos _ _ Hs Hq) as Hp.
  replace ((1 - (6 * t ^ 5 - 15 * t ^ 4 + 10 * t ^ 3)) * t
           + (6 * t ^ 5 - 15 * t ^ 4 + 10 * t ^ 3) * (1 - t))
    with (1 / 2 - 2 * ((1 / 2 - t) ^ 2
                       * (6 * t ^ 2 * (1 - t) ^ 2 + 2 * t * (1 - t) + 1)))
    by field.
  lra.
Qed.

Lemma trilinear_of_sums (u v w a a' b b' c c' : R) :
  lerp w
    (lerp v (lerp u (a + b + c) (a' + b + c)) (lerp u (a + b' + c) (a' + b' + c)))
    (lerp v (lerp u (a + b + c') (a' + b + c')) (lerp u (a + b' + c') (a' + b' + c')))
  = lerp u a a' + lerp v b b' + lerp w c c'.
Proof. rewrite !lerp_convex. ring. Qed.

Lemma noise_at_upper (p : list Z) (x y z : R) : noise_at p x y z <= 3 / 2.
Proof.
  unfold noise_at. cbv zeta.
  pose proof (fraction_bounds x) as Hx.
  pose proof (fraction_bounds y) as Hy.
  pose proof (fraction_bounds z) as Hz.
  set (fx := (x - Math_floor x)%js) in *.
  set (fy := (y - Math_floor y)%js) in *.
  set (fz := (z - Math_floor z)%js) in *.
  assert (Hax : Rabs fx = fx) by (apply Rabs_right; lra).
  assert (Hay : Rabs fy = fy) by (apply Rabs_right; lra).
  assert (Haz : Rabs fz = fz) by (apply Rabs_right; lra).
  assert (Hbx : Rabs (fx - ofZ 1)%js = 1 - fx)
    by (exact_arith; rewrite Rabs_left; lra).
  assert (Hby : Rabs (fy - ofZ 1)%js = 1 - fy)
    by (exact_arith; rewrite Rabs_left; lra).
  assert (Hbz : Rabs (fz - ofZ 1)%js = 1 - fz)
    by (exact_arith; rewrite Rabs_left; lra).
  pose proof (fade_unit fx ltac:(lra)) as Hu.
  pose proof (fade_unit fy ltac:(lra)) as Hv.
  pose proof (fade_unit fz ltac:(lra)) as Hw.
  eapply Rle_trans.
  - repeat (apply lerp_monotone; [assumption | |]); apply grad_le_sum.
  - rewrite ?Hax, ?Hay, ?Haz, ?Hbx, ?Hby, ?Hbz.
    rewrite trilinear_of_sums.
    pose proof (eased_distance fx ltac:(lra)).
    pose proof (eased_distance fy ltac:(lra)).
    pose proof (eased_distance fz ltac:(lra)).
    lra.
Qed.

Lemma lerp_opp (t a b : R) : lerp t (- a) (- b) = - lerp t a b.
Proof. rewrite !lerp_convex. ring. Qed.

Lemma noise_at_lower (p : list Z) (x y z : R) : - (3 / 2) <= noise_at p x y z.
Proof.
  unfold noise_at. cbv zeta.
  pose proof (fraction_bounds x) as Hx.
  pose proof (fraction_bounds y) as Hy.
  pose proof (fraction_bounds z) as Hz.
  set (fx := (x - Math_floor x)%js) in *.
  set (fy := (y - Math_floor y)%js) in *.
  set (fz := (z - Math_floor z)%js) in *.
  assert (Hax : Rabs fx = fx) by (apply Rabs_right; lra).
  assert (Hay : Rabs fy = fy) by (apply Rabs_right; lra).
  assert (Haz : Rabs fz = fz) by (apply Rabs_right; lra).
  assert (Hbx : Rabs (fx - ofZ 1)%js = 1 - fx)
    by (exact_arith; rewrite Rabs_left; lra).
  assert (Hby : Rabs (fy - ofZ 1)%js = 1 - fy)
    by (exact_arith; rewrite Rabs_left; lra).
  assert (Hbz : Rabs (fz - ofZ 1)%js = 1 - fz)
    by (exact_arith; rewrite Rabs_left; lra).
  pose proof (fade_unit fx ltac:(lra)) as Hu.
  pose proof (fade_unit fy ltac:(lra)) as Hv.
  pose proof (fade_unit fz ltac:(lra)) as Hw.
  eapply Rle_trans.
  2: { repeat (apply lerp_monotone; [assumption | |]); apply grad_ge_sum. }
  rewrite ?Hax, ?Hay, ?Haz, ?Hbx, ?Hby, ?Hbz.
  rewrite !lerp_opp, trilinear_of_sums.
  pose proof (eased_distance fx ltac:(lra)).
  pose proof (eased_distance fy ltac:(lra)).
  pose proof (eased_distance fz ltac:(lra)).
  lra.
Qed.

End NoiseRange.

(** X1.  Whatever the table holds and wherever it is sampled, the noise lies
    between -3/2 and 3/2 (exact arithmetic): a corner contributes at most the
    sum of its offsets, and the eased interpolation of the distances to the
    two ends of a cell is at most 1/2 on each axis. *)
Theorem noise_range :
  forall (w : world R) (x y z : R),
    (- (3 / 2) <= fst (noise x y z w) <= 3 / 2)%R.
Proof.
  intros w x y z. rewrite noise_setup. simpl fst.
  split; [apply noise_at_lower | apply noise_at_upper].
Qed.

Lemma octave_sum_range (p : list Z) (x y z persistence scale : R) (n : nat) :
  (0 <= persistence)%R ->
  (- (3 / 2 * amplitude_sum persistence n)
   <= octave_sum p x y z persistence scale n
   <= 3 / 2 * amplitude_sum persistence n)%R.
Proof.
  intros Hp. induction n as [|n IH]; [simpl; lra|].
  cbn [octave_sum amplitude_sum].
  pose proof (pow_le persistence n Hp) as Hpow.
  pose proof (noise_at_upper p (x * (scale * 2 ^ n)) (y * (scale * 2 ^ n))
                (z * (scale * 2 ^ n))) as Hu.
  pose proof (noise_at_lower p (x * (scale * 2 ^ n)) (y * (scale * 2 ^ n))
                (z * (scale * 2 ^ n))) as Hl.
  split; nra.
Qed.

Lemma fbm_within (w : world R) (x y z persistence scale : R) (octaves : nat) :
  (0 <= persistence)%R -> 0 < octaves ->
  (- (3 / 2) <= fst (fbm x y z octaves persistence scale w) <= 3 / 2)%R.
Proof.
  destruct octaves as [|n]; intros Hp Ho; [lia|].
  rewrite fbm_exact.
  pose proof (amplitude_sum_positive persistence n Hp) as Ha.
  pose proof (octave_sum_range (perm (tg (snd (setup w)))) x y z persistence
                scale (S n) Hp) as Hs.
  set (a := amplitude_sum persistence (S n)) in *.
  set (s := octave_sum _ _ _ _ _ _ _) in *.
  split.
  - apply Rmult_le_reg_r with a; [lra|].
    unfold Rdiv. rewrite Rmult_assoc, Rinv_l by lra. lra.
  - apply Rmult_le_reg_r with a; [lra|].
    unfold Rdiv. rewrite Rmult_assoc, Rinv_l by lra. lra.
Qed.

(** X2.  With at least one octave and a persistence that is not negative,
    [fbm] lies between -3/2 and 3/2 (exact arithmetic), whatever the scale
    and the sample point: it is a weighted mean of noise values. *)
Theorem fbm_range :
  forall (w : world R) (x y z persistence scale : R) (octaves : nat),
    (0 <= persistence)%R -> 0 < octaves ->
    (- (3 / 2) <= fst (fbm x y z octaves persistence scale w) <= 3 / 2)%R.
Proof. intros. now apply fbm_within. Qed.

Lemma fbm_range_witness :
  (- (3 / 2)
   <= fst (fbm (1 / 3) 7 0 4 (1 / 2) 1 (boot (fun _ : nat => 0))) <= 3 / 2)%R.
Proof.
  apply (fbm_range (boot (fun _ : nat => 0%R)) (1 / 3)%R 7%R 0%R (1 / 2)%R 1%R 4);
    [lra | lia].
Defined.

(** ** The period of the noise *)

Section NoisePeriod.

Local Open Scope R_scope.

Lemma cell_shift (x : R) (k : Z) :
  (Zfloor (x + IZR (256 * k)) mod 256 = Zfloor x mod 256)%Z /\
  x + IZR (256 * k) - IZR (Zfloor (x + IZR (256 * k))) = x - IZR (Zfloor x).
Proof.
  rewrite Zfloor_addz. split.
  - replace (Zfloor x + 256 * k)%Z with (Zfloor x + k * 256)%Z by ring.
    apply Z.mod_add. lia.
  - rewrite plus_IZR. ring.
Qed.

Lemma lattice_noise_period (ease : R -> R) (p : list Z) (x y z : R) (i j k : Z) :
  lattice_noise ease p (x + IZR (256 * i)) (y + IZR (256 * j)) (z + IZR (256 * k))
  = lattice_noise ease p x y z.
Proof.
  unfold lattice_noise.
  destruct (cell_shift x i) as [-> ->].
  destruct (cell_shift y j) as [-> ->].
  destruct (cell_shift z k) as [-> ->].
  reflexivity.
Qed.

End NoisePeriod.

(** X3.  The noise repeats every 256 units along each axis (exact
    arithmetic): the cell coordinates are taken modulo 256 and the
    fractional offsets do not change. *)
Theorem noise_has_period_256 :
  forall (w : world R) (x y z : R) (i j k : Z),
    fst (noise (x + IZR (256 * i))%R (y + IZR (256 * j))%R
           (z + IZR (256 * k))%R w)
    = fst (noise x y z w).
Proof.
  intros w x y z i j k. rewrite !noise_setup. simpl fst.
  rewrite !noise_at_refines. apply lattice_noise_period.
Qed.

(** ** The table as [setup] leaves it, on any random source *)

Section TableBytes.

Context {F : Type} `{NF : Number F}.

Lemma store_keeps (P : Z -> Prop) (a : list Z) (k : nat) (v : Z) :
  (forall b, In b a -> P b) -> P v -> forall b, In b (store a k v) -> P b.
Proof.
  intros Ha Hv b Hb. apply in_store in Hb. destruct Hb as [->|Hb]; auto.
Qed.

Lemma nth_keeps (P : Z -> Prop) (a : list Z) (k : nat) :
  (forall b, In b a -> P b) -> P 0%Z -> P (nth k a 0%Z).
Proof.
  intros Ha H0. destruct (Nat.lt_ge_cases k (length a)) as [Hk|Hk].
  - apply Ha. now apply nth_In.
  - now rewrite nth_overflow.
Qed.

Lemma swap_keeps_bytes (p : list Z) (i : nat) (r : option Z) :
  (forall b, In b p -> (0 <= b <= 255)%Z) ->
  forall b, In b (swap p i r) -> (0 <= b <= 255)%Z.
Proof.
  intros Hp. unfold swap. destruct (key p r) as [j|].
  - apply store_keeps; [apply store_keeps; [exact Hp|] |];
      apply (nth_keeps (fun b => 0 <= b <= 255)%Z); auto; lia.
  - apply store_keeps; [exact Hp | lia].
Qed.

Lemma swap_length (p : list Z) (i : nat) (r : option Z) :
  length (swap p i r) = length p.
Proof. unfold swap. destruct (key p r); now rewrite ?store_length. Qed.

Lemma shuffle_run (i : nat) :
  forall (p : list Z) (w : world F),
    (forall b, In b p -> (0 <= b <= 255)%Z) ->
    (forall b, In b (fst (shuffle i p w)) -> (0 <= b <= 255)%Z) /\
    drawn (snd (shuffle i p w)) = drawn w + i /\
    rng (snd (shuffle i p w)) = rng w.
Proof.
  induction i as [|i IH]; intros p w Hp.
  - simpl. split; [exact Hp|]. split; [lia | reflexivity].
  - change (shuffle (S i) p w)
      with (bind Math_random (fun u : F =>
              shuffle i (swap p (S i)
                 (integer_value (Math_floor (u * ofZ (Z.of_nat (S i) + 1))%js)))) w).
    unfold bind, Math_random.
    match goal with
    | |- context [shuffle i ?q ?v] =>
        destruct (IH q v) as (Hb & Hd & Hr); [now apply swap_keeps_bytes|]
    end.
    split; [exact Hb|]. split; [rewrite Hd; simpl; lia | rewrite Hr; reflexivity].
Qed.

Lemma identity_table_bytes (b : Z) : In b identity_table -> (0 <= b <= 255)%Z.
Proof.
  unfold identity_table. intros Hb. apply in_map_iff in Hb.
  destruct Hb as (n & <- & Hn). apply in_seq in Hn. lia.
Qed.

Lemma at_byte (t : list Z) (k : Z) :
  (forall b, In b t -> (0 <= b <= 255)%Z) -> (0 <= at_ t k <= 255)%Z.
Proof.
  intros Ht. unfold at_.
  apply (nth_keeps (fun b => 0 <= b <= 255)%Z); auto; lia.
Qed.

Lemma at_app (t extra : list Z) (k : Z) :
  (0 <= k < Z.of_nat (length t))%Z -> at_ (t ++ extra) k = at_ t k.
Proof. intros Hk. unfold at_. apply app_nth1. lia. Qed.

Lemma land_255 (a : Z) : (0 <= Z.land a 255 <= 255)%Z.
Proof.
  change 255%Z with (Z.ones 8) at 1 2. rewrite Z.land_ones by lia.
  pose proof (Z.mod_pos_bound a (2 ^ 8)) as H. lia.
Qed.

End TableBytes.

(** X4.  On any random source, the first [setup] leaves a table of 512
    entries that are all bytes, after exactly 255 draws, without a synthesis
    pass; once it has run, [setup] draws nothing. *)
Theorem setup_builds_a_byte_table :
  forall (F : Type) (NF : Number F) (w : world F),
    init (tg w) = false ->
    length (perm (tg w)) = 512 ->
    let w' := snd (setup w) in
    length (perm (tg w')) = 512 /\
    (forall b, In b (perm (tg w')) -> (0 <= b <= 255)%Z) /\
    drawn w' = drawn w + 255 /\
    passes w' = passes w /\
    init (tg w') = true /\
    drawn (snd (setup w')) = drawn w'.
Proof.
  intros F NF w Hi Hl. cbv zeta.
  pose proof (setup_ready w) as Hready.
  rewrite (setup_again (snd (setup w)) Hready).
  rewrite (setup_passes w).
  unfold ready in Hready. rewrite Hready.
  unfold setup. rewrite Hi. unfold bind.
  destruct (shuffle_run 255 identity_table w identity_table_bytes)
    as (Hb & Hd & _).
  destruct (shuffle 255 identity_table w) as [p w1].
  cbn [fst snd] in Hb, Hd.
  cbn [set_generator snd tg perm drawn].
  destruct (mirror_entries p (perm (tg w)) Hl) as [Hml Hmn].
  split; [exact Hml|].
  split.
  { intros b Hin. destruct (In_nth _ _ 0%Z Hin) as (n & Hn & <-).
    rewrite Hml in Hn. rewrite (Hmn n Hn). apply at_byte. exact Hb. }
  split; [exact Hd|]. split; [reflexivity|]. split; reflexivity.
Qed.

Lemma setup_builds_a_byte_table_witness :
  let w' := snd (setup (boot ramp)) in
  length (perm (tg w')) = 512 /\ drawn w' = 255.
Proof.
  pose proof (setup_builds_a_byte_table float float_number (boot ramp)
                eq_refl eq_refl) as H.
  cbv zeta in H. destruct H as (Hl & _ & Hd & _).
  split; [exact Hl | exact Hd].
Defined.

(** X5.  On a table of 512 bytes every read of [noise] is at an index below
    512: the value does not depend on anything that follows the table. *)
Theorem noise_reads_inside_the_table :
  forall (F : Type) (NF : Number F) (t extra : list Z) (x y z : F),
    length t = 512 ->
    (forall b, In b t -> (0 <= b <= 255)%Z) ->
    noise_at (t ++ extra) x y z = noise_at t x y z.
Proof.
  intros F NF t extra x y z Hl Hb. unfold noise_at. cbv zeta.
  pose proof (land_255 (ToInt32 (Math_floor x))) as HX.
  pose proof (land_255 (ToInt32 (Math_floor y))) as HY.
  pose proof (land_255 (ToInt32 (Math_floor z))) as HZ.
  set (X := Z.land (ToInt32 (Math_floor x)) 255) in *.
  set (Y := Z.land (ToInt32 (Math_floor y)) 255) in *.
  set (Z_ := Z.land (ToInt32 (Math_floor z)) 255) in *.
  assert (Hin : forall k, (0 <= k < 512)%Z -> at_ (t ++ extra) k = at_ t k)
    by (intros; apply at_app; lia).
  pose proof (fun k => at_byte t k Hb) as Hat.
  rewrite (Hin X), (Hin (X + 1)%Z) by lia.
  pose proof (Hat X) as HA. pose proof (Hat (X + 1)%Z) as HB.
  set (A := (at_ t X + Y)%Z) in *.
  set (B := (at_ t (X + 1) + Y)%Z) in *.
  rewrite (Hin A), (Hin (A + 1)%Z), (Hin B), (Hin (B + 1)%Z) by lia.
  pose proof (Hat A). pose proof (Hat (A + 1)%Z).
  pose proof (Hat B). pose proof (Hat (B + 1)%Z).
  rewrite !Hin by lia. reflexivity.
Qed.

Lemma noise_reads_inside_the_table_witness :
  noise_at (repeat 0%Z 512 ++ [7%Z]) (lit 15 10 : float) (lit 25 10) (ofZ 3)
  = noise_at (repeat 0%Z 512) (lit 15 10) (lit 25 10) (ofZ 3).
Proof.
  apply (noise_reads_inside_the_table float float_number (repeat 0%Z 512)
           [7%Z]).
  - apply repeat_length.
  - intros b Hb. apply repeat_spec in Hb. lia.
Defined.

(** ** What the pixel loops leave in the buffers *)

Section PixelLoops.

Context {F : Type} `{NF : Number F}.

(** A loop whose body leaves a process [v] as it is, carrying an invariant
    of the accumulated value. *)
Lemma for_m_invariant {A} (n : nat) (body : nat -> A -> M F A) (a : A)
    (v : world F) (P : nat -> A -> Prop) :
  P 0 a ->
  (forall i b, i < n -> P i b ->
     snd (body i b v) = v /\ P (S i) (fst (body i b v))) ->
  snd (for_m n body a v) = v /\ P n (fst (for_m n body a v)).
Proof.
  intros H0 Hstep. unfold for_m.
  apply (for_lt_invariant
           (fun i (s : A * world F) => snd s = v /\ P i (fst s))).
  - split; [reflexivity | exact H0].
  - intros i [b v'] Hi [Hv Hb]. cbn [fst snd] in *. subst v'.
    now apply Hstep.
Qed.

(** Row-major indices. *)
Lemma cell_of_index (width x y : nat) :
  x < width -> (y * width + x) mod width = x /\ (y * width + x) / width = y.
Proof.
  intros Hx. split.
  - rewrite Nat.add_comm, Nat.Div0.mod_add. now apply Nat.mod_small.
  - rewrite Nat.add_comm, Nat.div_add by lia.
    rewrite Nat.div_small by assumption. reflexivity.
Qed.

Lemma pixel_put_rgba (data : list Z) (j : nat) (r g b : F) :
  4 * j + 3 < length data ->
  pixel (put_rgba data (4 * j) r g b) j
  = (ToUint8Clamp r, ToUint8Clamp g, ToUint8Clamp b, 255%Z).
Proof.
  intros Hj. unfold pixel, put_rgba, put.
  repeat f_equal.
  - rewrite !nth_store_other by lia. apply nth_store_same. lia.
  - rewrite !nth_store_other by lia. apply nth_store_same.
    rewrite !store_length. lia.
  - rewrite nth_store_other by lia. apply nth_store_same.
    rewrite !store_length. lia.
  - apply nth_store_same. rewrite !store_length. lia.
Qed.

Lemma pixel_put_rgba_other (data : list Z) (i j : nat) (r g b : F) :
  i <> j -> pixel (put_rgba data (4 * j) r g b) i = pixel data i.
Proof.
  intros Hij. unfold pixel, put_rgba, put.
  rewrite !nth_store_other by lia. reflexivity.
Qed.

Lemma put_rgba_length (data : list Z) (i : nat) (r g b : F) :
  length (put_rgba data i r g b) = length data.
Proof. unfold put_rgba, put. now rewrite !store_length. Qed.

(** Painting the pixels in row-major order with [paint x y], each pixel
    [j] ends up as [paint] made it. *)
Lemma painted_rows (width height : nat) (v : world F)
    (body : nat -> nat -> list Z -> M F (list Z))
    (paint : nat -> nat -> F * F * F) :
  (forall x y d,
      body x y d v =
      (put_rgba d (4 * (y * width + x)) (fst (fst (paint x y)))
         (snd (fst (paint x y))) (snd (paint x y)), v)) ->
  let run := for_m height (fun y d => for_m width (fun x d => body x y d) d)
               (blank width height) v in
  snd run = v /\
  length (fst run) = width * height * 4 /\
  forall x y, x < width -> y < height ->
    pixel (fst run) (y * width + x)
    = (ToUint8Clamp (fst (fst (paint x y))), ToUint8Clamp (snd (fst (paint x y))),
       ToUint8Clamp (snd (paint x y)), 255%Z).
Proof.
  intros Hbody run.
  set (Inv := fun (k : nat) (d : list Z) =>
         length d = width * height * 4 /\
         forall x y, x < width -> y * width + x < k ->
           pixel d (y * width + x)
           = (ToUint8Clamp (fst (fst (paint x y))),
              ToUint8Clamp (snd (fst (paint x y))),
              ToUint8Clamp (snd (paint x y)), 255%Z)).
  assert (Hrun : snd run = v /\ Inv (height * width) (fst run)).
  { unfold run.
    apply (for_m_invariant height _ _ v (fun y d => Inv (y * width) d)).
    - split; [apply repeat_length | intros; lia].
    - intros y d Hy Hd.
      replace (S y * width) with (y * width + width) by lia.
      apply (for_m_invariant width _ _ v (fun x d => Inv (y * width + x) d)).
      + now rewrite Nat.add_0_r.
      + intros x d1 Hx [Hl Hp]. rewrite Hbody. cbn [fst snd].
        split; [reflexivity|]. split; [now rewrite put_rgba_length|].
        intros x' y' Hx' Hlt.
        destruct (Nat.eq_dec (y' * width + x') (y * width + x)) as [He|Hne].
        * destruct (cell_of_index width x' y' Hx') as [Hm' Hd'].
          destruct (cell_of_index width x y Hx) as [Hm Hdv].
          rewrite He in Hm', Hd'. rewrite Hm in Hm'. rewrite Hdv in Hd'.
          subst x' y'. apply pixel_put_rgba. rewrite Hl. nia.
        * rewrite pixel_put_rgba_other by assumption. apply Hp; [assumption | lia]. }
  destruct Hrun as [Hv [Hl Hp]].
  split; [exact Hv|]. split; [exact Hl|].
  intros x y Hx Hy. apply Hp; [assumption | nia].
Qed.

Lemma roughness_pixel_ready (type : rough) (width height x y : nat)
    (d : list Z) (v : world F) :
  ready v ->
  roughness_pixel type width height x y d v =
  (let val := fst (roughness_value type width height x y v) in
   put_rgba d (4 * (y * width + x)) (val * ofZ 255)%js (val * ofZ 255)%js
     (val * ofZ 255)%js, v).
Proof.
  intros Hv. unfold roughness_pixel, bind. cbv zeta.
  assert (Hr : reader (roughness_value type width height x y)).
  { unfold roughness_value; cbv zeta.
    destruct type; (apply reader_bind; [apply reader_fbm | intros; apply reader_ret]). }
  destruct (Hr v Hv) as [Hs _].
  destruct (roughness_value type width height x y v) as [val v'].
  simpl in Hs. subst v'. unfold ret. simpl fst.
  now rewrite (Nat.mul_comm (y * width + x) 4).
Qed.

Lemma roughness_value_reader (type : rough) (width height x y : nat) :
  reader (F:=F) (roughness_value type width height x y).
Proof.
  unfold roughness_value; cbv zeta.
  destruct type; (apply reader_bind; [apply reader_fbm | intros; apply reader_ret]).
Qed.

End PixelLoops.

(** X6.  A roughness map of sizes other than 0 has [4 * width * height]
    bytes, and its pixel [(x, y)] is grey and opaque: its three colour bytes
    are the byte conversion of 255 times the roughness of that pixel, on the
    table that [setup] leaves; no later pixel overwrites it. *)
Theorem roughness_map_pixels :
  forall (F : Type) (NF : Number F) (w : world F) (width height : nat)
         (type : rough) (x y : nat),
    x < width -> y < height ->
    exists t,
      fst (createRoughnessMap width height type w) = Some t /\
      length (tex_data t) = width * height * 4 /\
      let val := fst (roughness_value type width height x y (snd (setup w))) in
      let byte := ToUint8Clamp (val * ofZ 255)%js in
      pixel (tex_data t) (y * width + x) = (byte, byte, byte, 255%Z).
Proof.
  intros F NF w width height type x y Hx Hy.
  unfold createRoughnessMap.
  rewrite (positive_sizes width height) by lia.
  unfold bind at 1. destruct (setup w) as [[] ws] eqn:Es.
  pose proof (setup_ready w) as Hready. rewrite Es in Hready. simpl in Hready.
  unfold bind at 1. simpl snd.
  set (wt := snd (tick ws)).
  assert (Hwt : ready wt) by exact Hready.
  destruct (painted_rows width height wt
              (fun x y d => roughness_pixel type width height x y d)
              (fun x y =>
                 let val := fst (roughness_value type width height x y wt) in
                 ((val * ofZ 255)%js, (val * ofZ 255)%js, (val * ofZ 255)%js)))
    as (Hs & Hl & Hp).
  { intros x' y' d. now rewrite roughness_pixel_ready. }
  change (tick ws) with (tt, wt).
  unfold bind, ret.
  destruct (for_m height _ (blank width height) wt) as [data w3].
  simpl in Hs, Hl, Hp. eexists. split; [reflexivity|]. simpl tex_data.
  split; [exact Hl|].
  rewrite (Hp x y Hx Hy). simpl fst. simpl snd.
  destruct (roughness_value_reader type width height x y ws Hready) as [_ Hsame].
  rewrite (Hsame wt Hwt eq_refl). reflexivity.
Qed.

Lemma roughness_map_pixels_witness :
  exists t,
    fst (createRoughnessMap 8 1 sand_r (boot zeros)) = Some t /\
    length (tex_data t) = 32.
Proof.
  destruct (roughness_map_pixels float float_number (boot zeros) 8 1 sand_r 1 0
              ltac:(lia) ltac:(lia)) as (t & Ht & Hl & _).
  exists t. split; [exact Ht | exact Hl].
Defined.

Section NormalLoops.

Context {F : Type} `{NF : Number F}.

Lemma for_m_pure {A} (n : nat) (f : nat -> A -> A) (a : A) (v : world F) :
  for_m n (fun i b => ret (f i b)) a v = (for_lt n f a, v).
Proof.
  unfold for_m, for_lt. generalize 0 as k. revert a.
  induction n as [|n IH]; intros a k; simpl; [reflexivity|].
  apply IH.
Qed.

Lemma for_m_ext {A} (n : nat) (body body' : nat -> A -> M F A) (a : A)
    (v : world F) :
  (forall i b u, body i b u = body' i b u) ->
  for_m n body a v = for_m n body' a v.
Proof.
  intros He. unfold for_m, for_lt. generalize 0 as k. generalize (a, v).
  induction n as [|n IH]; intros s k; simpl; [reflexivity|].
  rewrite He. apply IH.
Qed.

(** Filling the cells of a buffer in row-major order with [value x y]. *)
Lemma filled_rows (width height : nat) (v : world F)
    (body : nat -> nat -> list F -> M F (list F)) (value : nat -> nat -> F)
    (d0 : F) :
  (forall x y b, body x y b v = (store b (y * width + x) (value x y), v)) ->
  let run := for_m height (fun y b => for_m width (fun x b => body x y b) b)
               (repeat (ofZ 0) (width * height)) v in
  snd run = v /\
  length (fst run) = width * height /\
  forall x y, x < width -> y < height ->
    nth (y * width + x) (fst run) d0 = value x y.
Proof.
  intros Hbody run.
  set (Inv := fun (k : nat) (b : list F) =>
         length b = width * height /\
         forall x y, x < width -> y * width + x < k ->
           nth (y * width + x) b d0 = value x y).
  assert (Hrun : snd run = v /\ Inv (height * width) (fst run)).
  { unfold run.
    apply (for_m_invariant height _ _ v (fun y b => Inv (y * width) b)).
    - split; [apply repeat_length | intros; lia].
    - intros y b Hy Hb.
      replace (S y * width) with (y * width + width) by lia.
      apply (for_m_invariant width _ _ v (fun x b => Inv (y * width + x) b)).
      + now rewrite Nat.add_0_r.
      + intros x b1 Hx [Hl Hp]. rewrite Hbody. cbn [fst snd].
        split; [reflexivity|]. split; [now rewrite store_length|].
        intros x' y' Hx' Hlt.
        destruct (Nat.eq_dec (y' * width + x') (y * width + x)) as [He|Hne].
        * destruct (cell_of_index width x' y' Hx') as [Hm' Hd'].
          destruct (cell_of_index width x y Hx) as [Hm Hdv].
          rewrite He in Hm', Hd'. rewrite Hm in Hm'. rewrite Hdv in Hd'.
          subst x' y'. apply nth_store_same. rewrite Hl. nia.
        * rewrite nth_store_other by assumption. apply Hp; [assumption | lia]. }
  destruct Hrun as [Hv [Hl Hp]].
  split; [exact Hv|]. split; [exact Hl|].
  intros x y Hx Hy. apply Hp; [assumption | nia].
Qed.

Lemma height_value_reader (type : relief) (width height x y : nat) :
  reader (F:=F) (height_value type width height x y).
Proof. unfold height_value; cbv zeta. destruct type; apply reader_fbm. Qed.

Lemma height_pixel_ready (type : relief) (width height x y : nat)
    (b : list F) (v : world F) :
  ready v ->
  height_pixel type width height x y b v =
  (store b (y * width + x)
     (Math_fround (fst (height_value type width height x y v))), v).
Proof.
  intros Hv.
  change (height_pixel type width height x y b v)
    with (bind (height_value type width height x y)
            (fun s => ret (store b (y * width + x) (Math_fround s))) v).
  unfold bind.
  destruct (height_value_reader type width height x y v Hv) as [Hs _].
  destruct (height_value type width height x y v) as [s v'].
  simpl in Hs. subst v'. reflexivity.
Qed.

End NormalLoops.

(** X7.  A normal map of sizes other than 0: the height buffer has
    [width * height] cells, cell [(x', y')] holding the binary32 rounding of
    the FBM sample of that cell on the table that [setup] leaves; the
    ImageData has [4 * width * height] bytes and its pixel [(x, y)] is the
    byte conversion of the encoded normal of the height buffer at [(x, y)],
    with alpha 255. *)
Theorem normal_map_pixels :
  forall (F : Type) (NF : Number F) (w : world F) (width height : nat)
         (strength : F) (type : relief) (x y : nat),
    x < width -> y < height ->
    exists t buffer,
      fst (createNormalMap width height strength type w) = Some t /\
      length buffer = width * height /\
      (forall x' y', x' < width -> y' < height ->
         nth (y' * width + x') buffer (ofZ 0) =
         Math_fround (fst (height_value type width height x' y' (snd (setup w))))) /\
      length (tex_data t) = width * height * 4 /\
      pixel (tex_data t) (y * width + x) =
      (ToUint8Clamp (fst (fst (encoded_normal buffer width height strength x y))),
       ToUint8Clamp (snd (fst (encoded_normal buffer width height strength x y))),
       ToUint8Clamp (snd (encoded_normal buffer width height strength x y)),
       255%Z).
Proof.
  intros F NF w width height strength type x y Hx Hy.
  unfold createNormalMap.
  rewrite (positive_sizes width height) by lia. cbv zeta.
  unfold bind at 1. destruct (setup w) as [[] ws] eqn:Es.
  pose proof (setup_ready w) as Hready. rewrite Es in Hready. simpl in Hready.
  unfold bind at 1. simpl snd.
  set (wt := snd (tick ws)).
  assert (Hwt : ready wt) by exact Hready.
  change (tick ws) with (tt, wt).
  destruct (filled_rows width height wt
              (fun x y b => height_pixel type width height x y b)
              (fun x y =>
                 Math_fround (fst (height_value type width height x y wt)))
              (ofZ 0))
    as (Hs & Hl & Hp).
  { intros x' y' b. now rewrite height_pixel_ready. }
  unfold bind, ret.
  destruct (for_m height _ (repeat (ofZ 0) (width * height)) wt)
    as [buffer w3].
  cbn [fst snd] in Hs, Hl, Hp.
  destruct (painted_rows width height wt
              (fun x y d =>
                 ret (normal_pixel buffer width height strength x y d))
              (fun x y => encoded_normal buffer width height strength x y))
    as (_ & Hdl & Hdp).
  { intros x' y' d. unfold ret, normal_pixel.
    rewrite (Nat.mul_comm (y' * width + x') 4).
    destruct (encoded_normal buffer width height strength x' y') as [[r g] b].
    reflexivity. }
  rewrite (for_m_ext height _
             (fun y d =>
                ret (for_lt width
                       (fun x d => normal_pixel buffer width height strength x y d)
                       d)))
    in Hdl, Hdp by (intros; apply for_m_pure).
  rewrite for_m_pure in Hdl, Hdp. cbn [fst] in Hdl, Hdp.
  exists {| tex_width := width; tex_height := height;
            tex_data :=
              for_lt height (fun y d =>
                for_lt width (fun x d =>
                  normal_pixel buffer width height strength x y d) d)
                (blank width height);
            tex_scuffs := [] |}, buffer.
  split; [reflexivity|]. split; [exact Hl|]. split.
  { intros x' y' Hx' Hy'. rewrite (Hp x' y' Hx' Hy').
    destruct (height_value_reader type width height x' y' ws Hready)
      as [_ Hsame].
    now rewrite (Hsame wt Hwt eq_refl). }
  split; [exact Hdl | exact (Hdp x y Hx Hy)].
Qed.

Lemma normal_map_pixels_witness :
  exists (t : texture float) (buffer : list float),
    fst (createNormalMap 3 2 (ofZ 5) stone_n (boot ramp)) = Some t /\
    length buffer = 6 /\ length (tex_data t) = 24.
Proof.
  destruct (normal_map_pixels float float_number (boot ramp) 3 2 (ofZ 5)
              stone_n 1 1 ltac:(lia) ltac:(lia))
    as (t & buffer & Ht & Hl & _ & Hd & _).
  exists t, buffer. split; [exact Ht|]. split; [exact Hl | exact Hd].
Defined.

(** ** The deriver, pixel by pixel *)

Section Deriver.

Context {F : Type} `{NF : Number F}.

Lemma wrapped_cell (width a b : nat) :
  0 < width ->
  Z.to_nat (Z.of_nat a * Z.of_nat width + (Z.of_nat b) mod Z.of_nat width)
  = a * width + b mod width.
Proof.
  intros Hw. rewrite <- Nat2Z.inj_mod, <- Nat2Z.inj_mul, <- Nat2Z.inj_add.
  apply Nat2Z.id.
Qed.

Lemma wrapped_row (width height a b : nat) :
  0 < height ->
  Z.to_nat ((Z.of_nat a) mod Z.of_nat height * Z.of_nat width + Z.of_nat b)
  = a mod height * width + b.
Proof.
  intros Hh. rewrite <- Nat2Z.inj_mod, <- Nat2Z.inj_mul, <- Nat2Z.inj_add.
  apply Nat2Z.id.
Qed.

(** The gradient of a pixel inside the map, with the four samples written
    as reads of the buffer at the wrapped column and row. *)
Lemma gradient_wraps (buffer : list F) (width height : nat) (strength : F)
    (x y : nat) :
  x < width -> y < height ->
  gradient buffer width height strength x y =
  (((nth (y * width + (x + width - 1) mod width) buffer (ofZ 0)
     - nth (y * width + (x + 1) mod width) buffer (ofZ 0)) * strength)%js,
   ((nth ((y + height - 1) mod height * width + x) buffer (ofZ 0)
     - nth ((y + 1) mod height * width + x) buffer (ofZ 0)) * strength)%js,
   (ofZ 1 / strength)%js).
Proof.
  intros Hx Hy. unfold gradient, sample, left_index, right_index, up_index,
    down_index. cbv zeta.
  rewrite !rem_wraps by lia.
  replace (Z.of_nat x - 1 + Z.of_nat width)%Z
    with (Z.of_nat (x + width - 1)) by lia.
  replace (Z.of_nat x + 1)%Z with (Z.of_nat (x + 1)) by lia.
  replace (Z.of_nat y - 1 + Z.of_nat height)%Z
    with (Z.of_nat (y + height - 1)) by lia.
  replace (Z.of_nat y + 1)%Z with (Z.of_nat (y + 1)) by lia.
  rewrite !wrapped_cell, !wrapped_row by lia. reflexivity.
Qed.

Lemma normal_map_run (w : world F) (width height : nat) (strength : F)
    (type : relief) :
  0 < width -> 0 < height ->
  exists t buffer,
    fst (createNormalMap width height strength type w) = Some t /\
    length buffer = width * height /\
    (forall x y, x < width -> y < height ->
       nth (y * width + x) buffer (ofZ 0) =
       Math_fround (fst (height_value type width height x y (snd (setup w))))) /\
    length (tex_data t) = width * height * 4 /\
    forall x y, x < width -> y < height ->
      pixel (tex_data t) (y * width + x) =
      (ToUint8Clamp (fst (fst (encoded_normal buffer width height strength x y))),
       ToUint8Clamp (snd (fst (encoded_normal buffer width height strength x y))),
       ToUint8Clamp (snd (encoded_normal buffer width height strength x y)),
       255%Z).
Proof.
  intros Hw Hh.
  unfold createNormalMap.
  rewrite (positive_sizes width height) by lia. cbv zeta.
  unfold bind at 1. destruct (setup w) as [[] ws] eqn:Es.
  pose proof (setup_ready w) as Hready. rewrite Es in Hready. simpl in Hready.
  unfold bind at 1. simpl snd.
  set (wt := snd (tick ws)).
  assert (Hwt : ready wt) by exact Hready.
  change (tick ws) with (tt, wt).
  destruct (filled_rows width height wt
              (fun x y b => height_pixel type width height x y b)
              (fun x y =>
                 Math_fround (fst (height_value type width height x y wt)))
              (ofZ 0))
    as (Hs & Hl & Hp).
  { intros x' y' b. now rewrite height_pixel_ready. }
  unfold bind, ret.
  destruct (for_m height _ (repeat (ofZ 0) (width * height)) wt)
    as [buffer w3].
  cbn [fst snd] in Hs, Hl, Hp.
  destruct (painted_rows width height wt
              (fun x y d =>
                 ret (normal_pixel buffer width height strength x y d))
              (fun x y => encoded_normal buffer width height strength x y))
    as (_ & Hdl & Hdp).
  { intros x' y' d. unfold ret, normal_pixel.
    rewrite (Nat.mul_comm (y' * width + x') 4).
    destruct (encoded_normal buffer width height strength x' y') as [[r g] b].
    reflexivity. }
  rewrite (for_m_ext height _
             (fun y d =>
                ret (for_lt width
                       (fun x d => normal_pixel buffer width height strength x y d)
                       d)))
    in Hdl, Hdp by (intros; apply for_m_pure).
  rewrite for_m_pure in Hdl, Hdp. cbn [fst] in Hdl, Hdp.
  exists {| tex_width := width; tex_height := height;
            tex_data :=
              for_lt height (fun y d =>
                for_lt width (fun x d =>
                  normal_pixel buffer width height strength x y d) d)
                (blank width height);
            tex_scuffs := [] |}, buffer.
  split; [reflexivity|]. split; [exact Hl|]. split.
  { intros x' y' Hx' Hy'. rewrite (Hp x' y' Hx' Hy').
    destruct (height_value_reader type width height x' y' ws Hready)
      as [_ Hsame].
    now rewrite (Hsame wt Hwt eq_refl). }
  split; [exact Hdl | exact Hdp].
Qed.

(** The bytes of pixels that are all bytes are all bytes. *)
Lemma pixels_are_bytes (data : list Z) (n : nat) :
  length data = n * 4 ->
  (forall j, j < n ->
     let '(r, g, b, a) := pixel data j in
     (0 <= r <= 255 /\ 0 <= g <= 255 /\ 0 <= b <= 255 /\ 0 <= a <= 255)%Z) ->
  forall v, In v data -> (0 <= v <= 255)%Z.
Proof.
  intros Hl Hp v Hin.
  destruct (In_nth data v 0%Z Hin) as (i & Hi & <-).
  assert (Hj : i / 4 < n) by (apply Nat.Div0.div_lt_upper_bound; lia).
  specialize (Hp (i / 4) Hj). unfold pixel in Hp.
  pose proof (Nat.div_mod_eq i 4) as Hdm.
  pose proof (Nat.mod_upper_bound i 4 ltac:(lia)) as Hm.
  destruct Hp as (H0 & H1 & H2 & H3).
  destruct (i mod 4) as [|[|[|[|k]]]] eqn:Em; try lia.
  - replace i with (4 * (i / 4)) by lia. exact H0.
  - replace i with (4 * (i / 4) + 1) by lia. exact H1.
  - replace i with (4 * (i / 4) + 2) by lia. exact H2.
  - replace i with (4 * (i / 4) + 3) by lia. exact H3.
Qed.

End Deriver.

Lemma pixel_components (d : list Z) (j : nat) (r g b a : Z) :
  pixel d j = (r, g, b, a) ->
  nth (4 * j) d 0%Z = r /\ nth (4 * j + 1) d 0%Z = g /\
  nth (4 * j + 2) d 0%Z = b /\ nth (4 * j + 3) d 0%Z = a.
Proof.
  unfold pixel. intros H. injection H as <- <- <- <-.
  split; [|split; [|split]]; reflexivity.
Qed.

(** C6.  The deriver samples the four neighbours of a pixel with toroidal
    wrap-around.  For every pixel [(x, y)] of a generated map, [dx] is the
    difference of the height buffer at columns [(x + width - 1) mod width]
    and [(x + 1) mod width] of row [y], times the strength, and [dy] the
    difference at rows [(y + height - 1) mod height] and
    [(y + 1) mod height] of column [x]; the pixel holds the bytes of the
    normal of that gradient.  Nothing is clamped: at column 0 the left
    sample is column [width - 1], and at the last column the right sample,
    column [width] wrapped, is column 0; likewise for the rows. *)
Theorem neighbours_wrap_around :
  forall (F : Type) (NF : Number F) (w : world F) (width height : nat)
         (strength : F) (type : relief) (x y : nat),
    x < width -> y < height ->
    exists (t : texture F) (buffer : list F),
      fst (createNormalMap width height strength type w) = Some t /\
      length buffer = width * height /\
      (forall x' y', x' < width -> y' < height ->
         nth (y' * width + x') buffer (ofZ 0) =
         Math_fround (fst (height_value type width height x' y' (snd (setup w))))) /\
      let h := fun column row : nat => nth (row * width + column) buffer (ofZ 0) in
      let dx :=
        ((h ((x + width - 1) mod width)%nat y - h ((x + 1) mod width)%nat y)
         * strength)%js in
      let dy :=
        ((h x ((y + height - 1) mod height)%nat - h x ((y + 1) mod height)%nat)
         * strength)%js in
      let dz := (ofZ 1 / strength)%js in
      let len := Math_sqrt (dx * dx + dy * dy + dz * dz)%js in
      gradient buffer width height strength x y = (dx, dy, dz) /\
      pixel (tex_data t) (y * width + x) =
        (ToUint8Clamp ((dx / len * lit 5 10 + lit 5 10) * ofZ 255)%js,
         ToUint8Clamp ((dy / len * lit 5 10 + lit 5 10) * ofZ 255)%js,
         ToUint8Clamp (dz / len * ofZ 255)%js, 255%Z) /\
      (x = 0 ->
       dx = ((h (width - 1)%nat y - h (1 mod width)%nat y) * strength)%js) /\
      (x = width - 1 ->
       dx = ((h ((x + width - 1) mod width)%nat y - h 0%nat y) * strength)%js) /\
      (y = 0 ->
       dy = ((h x (height - 1)%nat - h x (1 mod height)%nat) * strength)%js) /\
      (y = height - 1 ->
       dy = ((h x ((y + height - 1) mod height)%nat - h x 0%nat) * strength)%js).
Proof.
  intros F NF w width height strength type x y Hx Hy.
  destruct (normal_map_run w width height strength type ltac:(lia) ltac:(lia))
    as (t & buffer & Ht & Hl & Hb & _ & Hp).
  exists t, buffer. split; [exact Ht|]. split; [exact Hl|]. split; [exact Hb|].
  cbv zeta.
  pose proof (gradient_wraps buffer width height strength x y Hx Hy) as Hg.
  split; [exact Hg|]. split.
  - rewrite (Hp x y Hx Hy). unfold encoded_normal, normal_at. rewrite Hg.
    reflexivity.
  - split; [|split; [|split]]; intros He.
    + subst x. replace (0 + width - 1) with (width - 1) by lia.
      rewrite (Nat.mod_small (width - 1) width) by lia. reflexivity.
    + replace ((x + 1) mod width) with 0; [reflexivity|].
      replace (x + 1) with width by lia. now rewrite Nat.Div0.mod_same.
    + subst y. replace (0 + height - 1) with (height - 1) by lia.
      rewrite (Nat.mod_small (height - 1) height) by lia. reflexivity.
    + replace ((y + 1) mod height) with 0; [reflexivity|].
      replace (y + 1) with height by lia. now rewrite Nat.Div0.mod_same.
Qed.

Lemma neighbours_wrap_around_witness :
  exists (t : texture float) (buffer : list float),
    fst (createNormalMap 3 3 (ofZ 15) stone_n (boot ramp)) = Some t /\
    length buffer = 9 /\
    gradient buffer 3 3 (ofZ 15) 0 0 =
      (((nth 2 buffer (ofZ 0) - nth 1 buffer (ofZ 0)) * ofZ 15)%js,
       ((nth 6 buffer (ofZ 0) - nth 3 buffer (ofZ 0)) * ofZ 15)%js,
       (ofZ 1 / ofZ 15)%js).
Proof.
  destruct (neighbours_wrap_around float float_number (boot ramp) 3 3 (ofZ 15)
              stone_n 0 0 ltac:(lia) ltac:(lia))
    as (t & buffer & Ht & Hl & _ & Hg & _).
  exists t, buffer. split; [exact Ht|]. split; [exact Hl | exact Hg].
Defined.

(** C2 (amended).  The deriver applies no floor to [strength]: whatever the
    strength, 0 included, the blue byte of a pixel is the byte conversion of
    [(1 / strength) / len * 255], with the depth term the plain quotient.
    No NaN and no infinity reaches the output buffer all the same: for every
    strength each of its entries is a byte between 0 and 255, the alpha byte
    being 255 (binary64). *)
Theorem strength_is_divided_unguarded :
  forall (w : world float) (width height : nat) (strength : float)
         (type : relief),
    0 < width -> 0 < height ->
    exists (t : texture float) (buffer : list float),
      fst (createNormalMap width height strength type w) = Some t /\
      (forall x y, x < width -> y < height ->
         nth (y * width + x) buffer (ofZ 0) =
         Math_fround (fst (height_value type width height x y (snd (setup w))))) /\
      length (tex_data t) = width * height * 4 /\
      (forall b, In b (tex_data t) -> (0 <= b <= 255)%Z) /\
      forall x y, x < width -> y < height ->
        let d := gradient buffer width height strength x y in
        let dx := fst (fst d) in
        let dy := snd (fst d) in
        let depth := (ofZ 1 / strength)%js in
        let len := Math_sqrt (dx * dx + dy * dy + depth * depth)%js in
        nth (4 * (y * width + x) + 2) (tex_data t) 0%Z
          = ToUint8Clamp (depth / len * ofZ 255)%js /\
        nth (4 * (y * width + x) + 3) (tex_data t) 0%Z = 255%Z.
Proof.
  intros w width height strength type Hw Hh.
  destruct (normal_map_run w width height strength type Hw Hh)
    as (t & buffer & Ht & _ & Hcells & Hl & Hp).
  exists t, buffer. split; [exact Ht|]. split; [exact Hcells|].
  split; [exact Hl|]. split.
  - apply (pixels_are_bytes (tex_data t) (width * height) Hl).
    intros j Hj.
    assert (Hjx : j mod width < width) by (apply Nat.mod_upper_bound; lia).
    assert (Hjy : j / width < height)
      by (apply Nat.Div0.div_lt_upper_bound; lia).
    replace j with (j / width * width + j mod width)
      by (pose proof (Nat.div_mod_eq j width); lia).
    rewrite (Hp _ _ Hjx Hjy).
    repeat split; try apply float_clamp_is_byte; lia.
  - intros x y Hx Hy. cbv zeta.
    destruct (pixel_components _ _ _ _ _ _ (Hp x y Hx Hy))
      as (_ & _ & H2 & H3).
    split; [|exact H3]. rewrite H2.
    unfold encoded_normal, normal_at.
    destruct (gradient buffer width height strength x y) as [[dx dy] dz] eqn:Eg.
    cbn [fst snd].
    assert (Hz : dz = (ofZ 1 / strength)%js).
    { change dz with (snd (dx, dy, dz)). rewrite <- Eg. reflexivity. }
    rewrite Hz. reflexivity.
Qed.

Lemma strength_is_divided_unguarded_witness :
  exists (t : texture float),
    fst (createNormalMap 1 1 (ofZ 0) generic_n (boot zeros)) = Some t /\
    length (tex_data t) = 4 /\
    (forall b, In b (tex_data t) -> (0 <= b <= 255)%Z).
Proof.
  destruct (strength_is_divided_unguarded (boot zeros) 1 1 (ofZ 0) generic_n
              ltac:(lia) ltac:(lia)) as (t & _ & Ht & _ & Hl & Hb & _).
  exists t. split; [exact Ht|]. split; [exact Hl | exact Hb].
Defined.





(** ** The encoded normal *)

Section Encoding.

Local Open Scope R_scope.

Lemma unit_components (a b c : R) :
  length3 (a, b, c) = 1 -> a * a + b * b + c * c = 1.
Proof.
  unfold length3. exact_arith. intros H.
  assert (Hs : 0 <= a * a + b * b + c * c) by nra.
  rewrite <- (sqrt_sqrt _ Hs), H. ring.
Qed.

Lemma clamp_half : ToUint8Clamp ((0 * (5 / 10) + 5 / 10) * 255)%R = 128%Z.
Proof.
  exact_arith. unfold Exact.to_uint8_clamp, Exact.round_ties_even.
  assert (Hf : Zfloor ((0 * (5 / 10) + 5 / 10) * 255) = 127%Z)
    by (apply Zfloor_eq; simpl; lra).
  rewrite Hf.
  destruct (Rle_dec _ 0) as [H|_]; [lra|].
  destruct (Rle_dec 255 _) as [H|_]; [lra|].
  destruct (Rlt_dec _ (1 / 2)) as [H|_]; [simpl in H; lra|].
  destruct (Rlt_dec (1 / 2) _) as [H|_]; [simpl in H; lra|].
  reflexivity.
Qed.

Lemma narrow_columns (width x y : nat) :
  (0 < width <= 2)%nat -> (x < width)%nat ->
  left_index width x y = right_index width x y.
Proof.
  intros Hw Hx. rewrite left_index_wraps, right_index_wraps by assumption.
  f_equal.
  assert (Hc : width = 1%nat \/ width = 2%nat) by lia.
  destruct Hc as [-> | ->].
  - now rewrite !Z.mod_1_r.
  - replace (Z.of_nat x + 1)%Z with (Z.of_nat x - 1 + 1 * Z.of_nat 2)%Z by lia.
    now rewrite Z.mod_add by lia.
Qed.

Lemma narrow_rows (width height x y : nat) :
  (0 < height <= 2)%nat -> (y < height)%nat ->
  up_index width height x y = down_index width height x y.
Proof.
  intros Hh Hy. rewrite up_index_wraps, down_index_wraps by assumption.
  do 2 f_equal.
  assert (Hc : height = 1%nat \/ height = 2%nat) by lia.
  destruct Hc as [-> | ->].
  - now rewrite !Z.mod_1_r.
  - replace (Z.of_nat y + 1)%Z with (Z.of_nat y - 1 + 1 * Z.of_nat 2)%Z by lia.
    now rewrite Z.mod_add by lia.
Qed.

End Encoding.

(** X8.  For a positive strength the three numbers written at a pixel of a
    normal map already lie in the byte range (exact arithmetic): red and
    green in [0, 255], blue in (0, 255]; the byte store has nothing to
    clamp. *)
Theorem encoded_normal_fits_a_byte :
  forall (buffer : list R) (width height : nat) (strength : R) (x y : nat),
    (0 < strength)%R ->
    let e := encoded_normal buffer width height strength x y in
    (0 <= fst (fst e) <= 255 /\ 0 <= snd (fst e) <= 255 /\ 0 < snd e <= 255)%R.
Proof.
  intros buffer width height strength x y Hs e.
  assert (Hd : snd (gradient buffer width height strength x y) <> 0%R).
  { rewrite gradient_depth. apply depth_nonzero. lra. }
  assert (Hz : (0 < snd (gradient buffer width height strength x y))%R).
  { rewrite gradient_depth. apply Rdiv_lt_0_compat; lra. }
  unfold e, encoded_normal, normal_at.
  destruct (gradient buffer width height strength x y) as [[dx dy] dz].
  simpl in Hd, Hz.
  pose proof (length3_positive dx dy dz Hd) as Hlen.
  pose proof (unit_components _ _ _ (normalised_is_unit dx dy dz Hd)) as Hu.
  cbv zeta in Hu. cbn [fst snd]. exact_arith.
  set (len := length3 (dx, dy, dz)) in *.
  assert (H3 : (0 < dz / len)%R) by (apply Rdiv_lt_0_compat; assumption).
  set (n1 := (dx / len)%R) in *. set (n2 := (dy / len)%R) in *.
  set (n3 := (dz / len)%R) in *.
  assert (-1 <= n1 <= 1)%R by nra.
  assert (-1 <= n2 <= 1)%R by nra.
  assert (n3 <= 1)%R by nra.
  lra.
Qed.

Lemma encoded_normal_fits_a_byte_witness :
  let e := encoded_normal [1; 3; 2; 5]%R 2 2 15%R 1 0 in
  (0 < snd e <= 255)%R.
Proof.
  pose proof (encoded_normal_fits_a_byte [1; 3; 2; 5]%R 2 2 15%R 1 0
                ltac:(lra)) as H.
  cbv zeta in H. exact (proj2 (proj2 H)).
Defined.

(** X9.  A map one or two pixels wide has no horizontal relief: the left and
    the right neighbour of a pixel are the same cell, so [dx] is 0 and the
    red byte is 128 at every pixel; likewise the green byte for a map one or
    two pixels high (exact arithmetic, strength other than 0). *)
Theorem narrow_maps_are_flat :
  forall (buffer : list R) (width height : nat) (strength : R) (x y : nat),
    x < width -> y < height -> strength <> 0%R ->
    (width <= 2 ->
     fst (fst (gradient buffer width height strength x y)) = 0%R /\
     ToUint8Clamp (fst (fst (encoded_normal buffer width height strength x y)))
     = 128%Z) /\
    (height <= 2 ->
     snd (fst (gradient buffer width height strength x y)) = 0%R /\
     ToUint8Clamp (snd (fst (encoded_normal buffer width height strength x y)))
     = 128%Z).
Proof.
  intros buffer width height strength x y Hx Hy Hs. split.
  - intros Hw.
    assert (H0 : fst (fst (gradient buffer width height strength x y)) = 0%R).
    { unfold gradient. cbv zeta. cbn [fst snd].
      rewrite (narrow_columns width x y) by lia. exact_arith. ring. }
    split; [exact H0|].
    unfold encoded_normal, normal_at.
    destruct (gradient buffer width height strength x y) as [[dx dy] dz].
    cbn [fst snd] in *. subst dx.
    replace (0%R / length3 (0%R, dy, dz))%js with 0%R
      by (exact_arith; unfold Rdiv; ring).
    apply clamp_half.
  - intros Hh.
    assert (H0 : snd (fst (gradient buffer width height strength x y)) = 0%R).
    { unfold gradient. cbv zeta. cbn [fst snd].
      rewrite (narrow_rows width height x y) by lia. exact_arith. ring. }
    split; [exact H0|].
    unfold encoded_normal, normal_at.
    destruct (gradient buffer width height strength x y) as [[dx dy] dz].
    cbn [fst snd] in *. subst dy.
    replace (0%R / length3 (dx, 0%R, dz))%js with 0%R
      by (exact_arith; unfold Rdiv; ring).
    apply clamp_half.
Qed.

Lemma narrow_maps_are_flat_witness :
  ToUint8Clamp (fst (fst (encoded_normal [1; 3; 2; 5]%R 2 2 15%R 1 0))) = 128%Z.
Proof.
  destruct (narrow_maps_are_flat [1; 3; 2; 5]%R 2 2 15%R 1 0
              ltac:(lia) ltac:(lia) ltac:(lra)) as [H _].
  exact (proj2 (H ltac:(lia))).
Defined.

(** ** The scuff overlay *)

Lemma setup_rng (F : Type) (NF : Number F) (w : world F) :
  rng (snd (setup w)) = rng w.
Proof.
  unfold setup. destruct (init (tg w)); [reflexivity|].
  unfold bind.
  destruct (shuffle_run 255 identity_table w identity_table_bytes)
    as (_ & _ & Hr).
  destruct (shuffle 255 identity_table w). exact Hr.
Qed.

Section Scuffs.

Local Open Scope R_scope.

Lemma scuff_step (width height : nat) (rects : list (R * R * R * R))
    (v : world R) :
  (0 < width)%nat -> (0 < height)%nat ->
  (forall n, 0 <= rng v n < 1) ->
  exists r,
    fst (scuff width height rects v) = rects ++ [r] /\
    scuff_inside width height r /\
    rng (snd (scuff width height rects v)) = rng v /\
    drawn (snd (scuff width height rects v)) = (drawn v + 4)%nat /\
    tg (snd (scuff width height rects v)) = tg v.
Proof.
  intros Hw Hh Hr. unfold scuff, bind, Math_random, ret. cbn [fst snd rng drawn tg].
  eexists. split; [reflexivity|]. split.
  - unfold scuff_inside. exact_arith.
    pose proof (Hr (drawn v)). pose proof (Hr (S (drawn v))).
    pose proof (Hr (S (S (drawn v)))). pose proof (Hr (S (S (S (drawn v))))).
    assert (1 <= IZR (Z.of_nat width)) by (apply IZR_le; lia).
    assert (1 <= IZR (Z.of_nat height)) by (apply IZR_le; lia).
    repeat split; nra.
  - repeat split. lia.
Qed.

End Scuffs.

Lemma CanvasTexture_run (F : Type) (v : world F) :
  CanvasTexture v =
  (tt, {| tg := tg v; rng := rng v; drawn := 8 + drawn v;
          passes := passes v |}).
Proof. reflexivity. Qed.

(** X10.  With draws in [0, 1) a bamboo texture carries exactly 30 scuff
    rectangles, each starting inside the canvas, between 2 and 7 wide and
    between 10 and 40 high (exact arithmetic); the overlay costs 120 draws
    and the texture constructor 8, so the call makes 128 draws after those
    of [setup].  The other types carry no rectangle and make the 8 draws of
    the constructor alone. *)
Theorem bamboo_carries_thirty_scuffs :
  forall (w : world R) (width height : nat) (type : organic),
    0 < width -> 0 < height ->
    (forall n, (0 <= rng w n < 1)%R) ->
    exists t,
      fst (createOrganicTexture width height type w) = Some t /\
      match type with
      | bamboo =>
          length (tex_scuffs t) = 30 /\
          (forall r, In r (tex_scuffs t) -> scuff_inside width height r) /\
          drawn (snd (createOrganicTexture width height type w))
          = drawn (snd (setup w)) + 128
      | _ =>
          tex_scuffs t = [] /\
          drawn (snd (createOrganicTexture width height type w))
          = drawn (snd (setup w)) + 8
      end.
Proof.
  intros w width height type Hw Hh Hr.
  unfold createOrganicTexture.
  rewrite (positive_sizes width height Hw Hh).
  unfold bind. pose proof (setup_ready w) as Hready.
  pose proof (setup_rng R real_number w) as Hrng.
  destruct (setup w) as [[] ws]. cbn [snd] in Hready, Hrng.
  set (wt := snd (tick ws)). change (tick ws) with (tt, wt). cbv beta iota.
  assert (Hwt : ready wt) by exact Hready.
  destruct (reader_for_m height
              (fun y d =>
                 for_m width (fun x d => organic_pixel type width height x y d) d)
              (blank width height)
              (fun y d => reader_for_m width _ d
                            (fun x d => reader_organic_pixel type width height x y d))
              wt Hwt) as [Hs _].
  destruct (for_m height _ (blank width height) wt) as [data w3].
  cbn [snd] in Hs. subst w3.
  assert (Hinv :
    let s := for_lt 30 (fun i s => scuff width height (fst s) (snd s))
               ([], wt) in
    length (fst s) = 30 /\
    (forall r, In r (fst s) -> scuff_inside width height r) /\
    rng (snd s) = rng wt /\ drawn (snd s) = drawn wt + 4 * 30).
  { apply (for_lt_invariant
             (fun k (s : list (R * R * R * R) * world R) =>
                length (fst s) = k /\
                (forall r, In r (fst s) -> scuff_inside width height r) /\
                rng (snd s) = rng wt /\ drawn (snd s) = drawn wt + 4 * k)).
    - cbn [fst snd]. split; [reflexivity|]. split; [intros r []|].
      split; [reflexivity | lia].
    - intros k [rects v] Hk (Hl & Hin & Hrv & Hd). cbn [fst snd] in *.
      destruct (scuff_step width height rects v Hw Hh)
        as (r & He & Hok & Hr' & Hd' & _).
      { intros n. rewrite Hrv. unfold wt. cbn [tick snd rng]. rewrite Hrng.
        apply Hr. }
      rewrite He, Hr', Hd'. split; [rewrite length_app; cbn [length]; lia|].
      split; [|split; [exact Hrv | lia]].
      intros r' Hr''. apply in_app_or in Hr''.
      destruct Hr'' as [Hr''|[<-|[]]]; auto. }
  cbv zeta in Hinv. destruct Hinv as (Hl & Hin & _ & Hd).
  destruct type;
    [ unfold ret; cbv beta iota; rewrite (CanvasTexture_run R wt);
      eexists; split; [reflexivity|]; split; [reflexivity|];
      cbn [snd drawn]; unfold wt; cbn [tick snd drawn]; lia
    |
    | unfold ret; cbv beta iota; rewrite (CanvasTexture_run R wt);
      eexists; split; [reflexivity|]; split; [reflexivity|];
      cbn [snd drawn]; unfold wt; cbn [tick snd drawn]; lia .. ].
  unfold ret, for_m.
  destruct (for_lt 30 _ ([], wt)) as [scuffs w4]. cbn [fst snd] in *.
  rewrite (CanvasTexture_run R w4).
  eexists. split; [reflexivity|]. cbn [tex_scuffs snd drawn].
  split; [exact Hl|]. split; [exact Hin|].
  rewrite Hd. unfold wt. cbn [tick snd drawn]. lia.
Qed.

Lemma bamboo_carries_thirty_scuffs_witness :
  exists t,
    fst (createOrganicTexture 2 2 bamboo (boot (fun _ : nat => 0%R))) = Some t /\
    length (tex_scuffs t) = 30.
Proof.
  destruct (bamboo_carries_thirty_scuffs (boot (fun _ : nat => 0%R)) 2 2 bamboo
              ltac:(lia) ltac:(lia) ltac:(intros; simpl; lra))
    as (t & Ht & Hl & _).
  exists t. split; [exact Ht | exact Hl].
Defined.

(** ** Albedo pixels *)

(** X11.  On binary64, for each of the four materials and sizes other than
    0, the albedo has [4 * width * height] entries, all of them bytes, and
    every pixel is opaque. *)
Theorem material_albedo_bytes :
  forall (w : world float) (type : organic) (width height : nat),
    material type -> 0 < width -> 0 < height ->
    exists t,
      fst (createOrganicTexture width height type w) = Some t /\
      length (tex_data t) = width * height * 4 /\
      (forall b, In b (tex_data t) -> (0 <= b <= 255)%Z) /\
      (forall x y, x < width -> y < height ->
         nth (4 * (y * width + x) + 3) (tex_data t) 0%Z = 255%Z).
Proof.
  intros w type width height Hm Hw Hh.
  destruct (organic_texture_painted float_clamp_is_byte type width height w
              Hm Hw Hh) as (t & Ht & Hl & Hb & Ha).
  exists t. split; [exact Ht|]. split; [exact Hl|]. split; [exact Hb|].
  intros x y Hx Hy. apply Ha. nia.
Qed.

Lemma material_albedo_bytes_witness :
  exists t,
    fst (createOrganicTexture 4 4 granite (boot ramp)) = Some t /\
    length (tex_data t) = 64.
Proof.
  destruct (material_albedo_bytes (boot ramp) granite 4 4 I
              ltac:(lia) ltac:(lia)) as (t & Ht & Hl & _).
  exists t. split; [exact Ht | exact Hl].
Defined.

Lemma wood_pixel_ready (width height x y : nat) (d : list Z) (v : world R) :
  ready v ->
  organic_pixel wood width height x y d v =
  (let grain :=
     fst (fbm (num x / num width * 6)%R
            (num y / num height * 40 + sin (num x / num width * 10) * 3)%R
            5%R 4 persistence_default scale_default v) in
   put_rgba d (4 * (y * width + x)) (120 + grain * 30)%R (20 + grain * 10)%R
     (15 + grain * 10)%R, v).
Proof.
  intros Hv. unfold organic_pixel, bind. cbv zeta.
  match goal with
  | |- context [fbm ?a ?b ?c ?n ?p ?s v] =>
      destruct (reader_fbm a b c n p s v Hv) as [Hs _];
      change (fbm (num x / num width * 6)%R
                (num y / num height * 40 + sin (num x / num width * 10) * 3)%R
                5%R 4 persistence_default scale_default v)
        with (fbm a b c n p s v);
      destruct (fbm a b c n p s v) as [grain v']
  end.
  cbn [fst snd] in *. subst v'. unfold ret.
  now rewrite (Nat.mul_comm (y * width + x) 4).
Qed.

(** X12.  A wood pixel is written without clamping (exact arithmetic):
    with [grain] the FBM sample of the pixel, on the table that [setup]
    leaves, the pixel holds the byte conversions of [120 + 30 grain],
    [20 + 10 grain] and [15 + 10 grain], with alpha 255; the sample lies
    between -3/2 and 3/2, so red lies between 75 and 165, green between 5
    and 35 and blue between 0 and 30. *)
Theorem wood_pixels_need_no_clamp :
  forall (w : world R) (width height x y : nat),
    x < width -> y < height ->
    let nx := (num x / num width)%R in
    let ny := (num y / num height)%R in
    let grain :=
      fst (fbm (nx * 6)%R (ny * 40 + sin (nx * 10) * 3)%R 5%R 4
             persistence_default scale_default (snd (setup w))) in
    exists t,
      fst (createOrganicTexture width height wood w) = Some t /\
      pixel (tex_data t) (y * width + x) =
        (ToUint8Clamp (120 + grain * 30)%R, ToUint8Clamp (20 + grain * 10)%R,
         ToUint8Clamp (15 + grain * 10)%R, 255%Z) /\
      (- (3 / 2) <= grain <= 3 / 2 /\
       75 <= 120 + grain * 30 <= 165 /\
       5 <= 20 + grain * 10 <= 35 /\
       0 <= 15 + grain * 10 <= 30)%R.
Proof.
  intros w width height x y Hx Hy. cbv zeta.
  unfold createOrganicTexture.
  rewrite (positive_sizes width height) by lia.
  unfold bind at 1. pose proof (setup_ready w) as Hready.
  destruct (setup w) as [[] ws]. cbn [snd] in Hready |- *.
  unfold bind at 1.
  set (wt := snd (tick ws)). change (tick ws) with (tt, wt).
  assert (Hwt : ready wt) by exact Hready.
  set (grain_at := fun x y : nat =>
         fst (fbm (num x / num width * 6)%R
                (num y / num height * 40 + sin (num x / num width * 10) * 3)%R
                5%R 4 persistence_default scale_default wt)).
  destruct (painted_rows width height wt
              (fun x y d => organic_pixel wood width height x y d)
              (fun x y =>
                 ((120 + grain_at x y * 30)%R, (20 + grain_at x y * 10)%R,
                  (15 + grain_at x y * 10)%R)))
    as (Hs & Hl & Hp).
  { intros x' y' d. now rewrite wood_pixel_ready. }
  unfold bind, ret.
  destruct (for_m height _ (blank width height) wt) as [data w3].
  cbn [fst snd] in Hs, Hl, Hp.
  assert (Hsame : grain_at x y =
                  fst (fbm (num x / num width * 6)%R
                         (num y / num height * 40
                          + sin (num x / num width * 10) * 3)%R
                         5%R 4 persistence_default scale_default ws)).
  { unfold grain_at.
    match goal with
    | |- fst (fbm ?a ?b ?c ?n ?p ?s wt) = _ =>
        destruct (reader_fbm a b c n p s ws Hready) as [_ Hf];
        exact (Hf wt Hwt eq_refl)
    end. }
  rewrite <- Hsame.
  exists {| tex_width := width; tex_height := height;
            tex_data := data; tex_scuffs := [] |}.
  split; [reflexivity|]. split; [exact (Hp x y Hx Hy)|].
  assert (Hg : (- (3 / 2) <= grain_at x y <= 3 / 2)%R).
  { unfold grain_at. apply fbm_within; [|lia].
    unfold persistence_default. exact_arith. lra. }
  split; [exact Hg|]. lra.
Qed.

Lemma wood_pixels_need_no_clamp_witness :
  exists (t : texture R),
    fst (createOrganicTexture 2 2 wood (boot (fun _ : nat => 0%R))) = Some t.
Proof.
  destruct (wood_pixels_need_no_clamp (boot (fun _ : nat => 0%R)) 2 2 1 0
              ltac:(lia) ltac:(lia)) as (t & Ht & _).
  exists t. exact Ht.
Defined.

(** * The scene components *)

(** ** Loops that draw *)

Lemma for_m_state {F A} (n : nat) (body : nat -> A -> M F A) (a : A)
    (w : world F) (P : nat -> A -> world F -> Prop) :
  P 0 a w ->
  (forall i b v, i < n -> P i b v ->
     P (S i) (fst (body i b v)) (snd (body i b v))) ->
  P n (fst (for_m n body a w)) (snd (for_m n body a w)).
Proof.
  intros H0 Hstep. unfold for_m.
  apply (for_lt_invariant (fun i s => P i (fst s) (snd s))); [exact H0|].
  intros i [b v] Hi Hp. cbn [fst snd] in *. now apply Hstep.
Qed.

Lemma array_map_state {F A} (f : nat -> M F A) (Q : nat -> A -> Prop)
    (I : nat -> world F -> Prop) :
  (forall i v, I i v -> I (S i) (snd (f i v)) /\ Q i (fst (f i v))) ->
  forall n k w,
    I k w ->
    length (fst (array_map k n f w)) = n /\
    I (k + n) (snd (array_map k n f w)) /\
    forall j, j < n ->
      exists a, nth_error (fst (array_map k n f w)) j = Some a /\ Q (k + j) a.
Proof.
  intros Hf. induction n as [|n IH]; intros k w Hw.
  - cbn [array_map]. unfold ret. cbn [fst snd length].
    rewrite Nat.add_0_r. split; [reflexivity|]. split; [exact Hw|].
    intros j Hj. lia.
  - cbn [array_map]. unfold bind, ret.
    destruct (Hf k w Hw) as [Hi Hq].
    destruct (f k w) as [a v]. cbn [fst snd] in Hi, Hq.
    destruct (IH (S k) v Hi) as (Hl & Hi' & Hn).
    destruct (array_map (S k) n f v) as [rest v']. cbn [fst snd] in *.
    split; [cbn [length]; now rewrite Hl|]. split.
    + replace (k + S n) with (S k + n) by lia. exact Hi'.
    + intros [|j] Hj.
      * exists a. rewrite Nat.add_0_r. split; [reflexivity | exact Hq].
      * destruct (Hn j ltac:(lia)) as (b & Hb & Hqb).
        exists b. split; [exact Hb|].
        replace (k + S j) with (S k + j) by lia. exact Hqb.
Qed.

Ltac stores :=
  repeat first
    [ rewrite nth_store_other by lia
    | rewrite nth_store_same by (rewrite ?store_length; lia) ].

(** ** The particle systems *)

(** X13.  The initial positions of a particle system: for draws in [0, 1)
    and an area that is not negative, the array has three entries for each
    particle, three draws are made for each, and every particle starts
    with [x] and [z] within half the area of the origin and with a height
    between 2 and [0.8 * area + 2] (exact arithmetic). *)
Theorem particles_start_inside_the_volume :
  forall (w : world R) (count : nat) (area : R),
    (forall k, 0 <= rng w k < 1)%R -> (0 <= area)%R ->
    length (fst (GenerateParticles.positions count area w)) = count * 3 /\
    drawn (snd (GenerateParticles.positions count area w))
      = drawn w + 3 * count /\
    forall i, i < count ->
      let p := fst (GenerateParticles.positions count area w) in
      (- (area / 2) <= nth (i * 3) p 0 <= area / 2 /\
       2 <= nth (i * 3 + 1) p 0 <= area * (8 / 10) + 2 /\
       - (area / 2) <= nth (i * 3 + 2) p 0 <= area / 2)%R.
Proof.
  intros w count area Hr Ha. unfold GenerateParticles.positions.
  match goal with
  | |- context [for_m count ?body ?a w] =>
      pose proof (for_m_state count body a w
        (fun i pos v =>
           rng v = rng w /\ drawn v = drawn w + 3 * i /\
           length pos = count * 3 /\
           forall j, j < i ->
             (- (area / 2) <= nth (j * 3) pos 0 <= area / 2 /\
              2 <= nth (j * 3 + 1) pos 0 <= area * (8 / 10) + 2 /\
              - (area / 2) <= nth (j * 3 + 2) pos 0 <= area / 2)%R)) as Hloop;
      destruct (for_m count body a w) as [p v]
  end.
  cbn [fst snd] in *.
  destruct Hloop as (_ & Hd & Hl & Hb).
  - split; [reflexivity|]. split; [lia|]. split; [apply repeat_length|].
    intros j Hj. lia.
  - intros i b u Hi (Hu & Hd & Hl & Hb).
    unfold bind, Math_random, ret. cbn [fst snd rng drawn].
    split; [exact Hu|]. split; [lia|].
    split; [now rewrite !store_length|].
    intros j Hj. rewrite !Hu.
    pose proof (Hr (drawn u)) as H1.
    pose proof (Hr (S (drawn u))) as H2.
    pose proof (Hr (S (S (drawn u)))) as H3.
    destruct (Nat.eq_dec j i) as [->|Hne].
    + stores. exact_arith. nra.
    + stores. apply Hb. lia.
  - split; [exact Hl|]. split; [exact Hd|]. intros i Hi. now apply Hb.
Qed.

(** X14.  After a frame no particle is below the ground, on any number
    type: when the respawn height [area * 0.6], as the array stores it, does
    not compare below 0, every height of the array compares not below 0
    after the callback.  The array keeps its length, and the callback makes
    two draws for each particle it respawns. *)
Theorem frame_leaves_no_particle_below_ground :
  forall (F : Type) (NF : Number F) (CF : Circular F) (w : world F)
         (count : nat) (speedY speedX area : F) (seeds : list F)
         (elapsedTime delta : F) (positions : list F),
    length positions = count * 3 ->
    (Math_fround (area * lit 6 10) <? ofZ 0)%js = false ->
    let run :=
      GenerateParticles.useFrame count speedY speedX area seeds elapsedTime
        delta positions w in
    length (fst run) = count * 3 /\
    (exists k, k <= count /\ drawn (snd run) = drawn w + 2 * k) /\
    forall i, i < count ->
      (nth (i * 3 + 1) (fst run) (ofZ 0) <? ofZ 0)%js = false.
Proof.
  intros F NF CF w count speedY speedX area seeds t delta positions Hlen Harea.
  unfold GenerateParticles.useFrame.
  match goal with
  | |- context [for_m count ?body positions w] =>
      pose proof (for_m_state count body positions w
        (fun i pos v =>
           length pos = count * 3 /\
           (exists k, k <= i /\ drawn v = drawn w + 2 * k) /\
           forall j, j < i ->
             (nth (j * 3 + 1) pos (ofZ 0) <? ofZ 0)%js = false)) as Hloop;
      destruct (for_m count body positions w) as [p v]
  end.
  cbn [fst snd] in *.
  apply Hloop.
  - split; [exact Hlen|]. split; [exists 0; lia|]. intros j Hj. lia.
  - intros i b u Hi (Hl & (k & Hk & Hd) & Hb). cbv zeta.
    match goal with
    | |- context [if ?c then _ else _] => destruct c eqn:Hc
    end.
    + unfold bind, Math_random, ret. cbn [fst snd rng drawn].
      split; [now rewrite !store_length|].
      split; [exists (S k); split; lia|].
      intros j Hj. destruct (Nat.eq_dec j i) as [->|Hne].
      * stores. exact Harea.
      * stores. apply Hb. lia.
    + unfold ret. cbn [fst snd].
      split; [now rewrite !store_length|].
      split; [exists k; split; [lia | exact Hd]|].
      intros j Hj. destruct (Nat.eq_dec j i) as [->|Hne].
      * exact Hc.
      * stores. apply Hb. lia.
Qed.

Lemma frame_leaves_no_particle_below_ground_witness :
  let p := fst (GenerateParticles.positions 2 (ofZ 40) (boot ramp)) in
  let run :=
    GenerateParticles.useFrame 2 (ofZ 500) (lit 5 10) (ofZ 40)
      [ofZ 1; ofZ 2] (ofZ 3) (lit 16 1000) p (boot ramp) in
  length (fst run) = 6 /\
  (nth 1 (fst run) (ofZ 0) <? ofZ 0)%js = false.
Proof.
  pose proof (frame_leaves_no_particle_below_ground float float_number
                float_circular (boot ramp) 2 (ofZ 500) (lit 5 10) (ofZ 40)
                [ofZ 1; ofZ 2] (ofZ 3) (lit 16 1000)
                (fst (GenerateParticles.positions 2 (ofZ 40) (boot ramp)))
                ltac:(vm_compute; reflexivity) ltac:(vm_compute; reflexivity))
    as (Hl & _ & Hy).
  split; [exact Hl | exact (Hy 0 ltac:(lia))].
Defined.

Lemma particles_start_inside_the_volume_witness :
  length (fst (GenerateParticles.positions 2 40%R (boot (fun _ : nat => 0%R))))
  = 6 /\
  (2 <= nth 1 (fst (GenerateParticles.positions 2 40%R
                      (boot (fun _ : nat => 0%R)))) 0)%R.
Proof.
  pose proof (particles_start_inside_the_volume (boot (fun _ : nat => 0%R)) 2
                40%R ltac:(intros; cbn [rng boot]; lra) ltac:(lra))
    as (Hl & _ & Hb).
  split; [exact Hl|]. exact (proj1 (proj1 (proj2 (Hb 0 ltac:(lia))))).
Defined.

Lemma rising_particles (w : world R) (count : nat) (speedY speedX area : R)
    (seeds positions : list R) (t delta : R) :
  (speedY <= 0)%R -> (0 <= delta)%R ->
  length positions = count * 3 ->
  (forall i, i < count -> (0 <= nth (i * 3 + 1) positions 0)%R) ->
  snd (GenerateParticles.useFrame count speedY speedX area seeds t delta
         positions w) = w /\
  forall i, i < count ->
    (nth (i * 3 + 1) positions 0
     <= nth (i * 3 + 1)
          (fst (GenerateParticles.useFrame count speedY speedX area seeds t
                  delta positions w)) 0
     <= nth (i * 3 + 1) positions 0 - speedY * delta * (12 / 10))%R.
Proof.
  intros Hs Hd Hlen Hy. unfold GenerateParticles.useFrame.
  match goal with
  | |- context [for_m count ?body positions w] =>
      pose proof (for_m_state count body positions w
        (fun i pos v =>
           v = w /\ length pos = count * 3 /\
           (forall j, j < i ->
              (nth (j * 3 + 1) positions 0 <= nth (j * 3 + 1) pos 0
               <= nth (j * 3 + 1) positions 0 - speedY * delta * (12 / 10))%R) /\
           (forall j, i <= j < count ->
              nth (j * 3 + 1) pos 0%R = nth (j * 3 + 1) positions 0%R))) as Hloop;
      destruct (for_m count body positions w) as [p v]
  end.
  cbn [fst snd] in *.
  destruct Hloop as (Hv & _ & Hb & _).
  - split; [reflexivity|]. split; [exact Hlen|]. split.
    + intros j Hj. lia.
    + intros j Hj. reflexivity.
  - intros i b u Hi (Hu & Hl & Hb & Hrest). subst u. cbv zeta.
    pose proof (Hrest i ltac:(lia)) as Hyi.
    pose proof (Hy i Hi) as Hpos.
    pose proof (SIN_bound (nth i seeds 0%R + t)) as Hsin.
    set (s := sin (nth i seeds 0%R + t)) in *.
    assert (Hmove : (0 <= - speedY * delta * (1 + s * (2 / 10))
                     <= - speedY * delta * (12 / 10))%R).
    { assert (0 <= - speedY * delta)%R by nra. split; nra. }
    match goal with
    | |- context [if ?c then _ else _] =>
        assert (Hc : c = false)
    end.
    { stores. exact_arith. fold s. unfold Exact.lt_bool.
      destruct (Rlt_dec _ _) as [Hlt|]; [|reflexivity].
      exfalso. rewrite Hyi in Hlt. lra. }
    rewrite Hc. unfold ret. cbn [fst snd].
    split; [reflexivity|]. split; [now rewrite !store_length|]. split.
    + intros j Hj. destruct (Nat.eq_dec j i) as [->|Hne].
      * stores. exact_arith. fold s. rewrite Hyi. lra.
      * stores. apply Hb. lia.
    + intros j Hj. stores. apply Hrest. lia.
  - split; [exact Hv | exact Hb].
Qed.

(** X15.  The fireflies of Summer are never respawned (exact arithmetic):
    their [speedY] is negative, so with a time step that is not negative a
    frame draws nothing and moves every particle that is not below the
    ground upwards, by at most [0.12 * delta]. *)
Theorem fireflies_are_never_respawned :
  forall (w : world R) (seeds positions : list R) (t delta : R),
    (0 <= delta)%R ->
    length positions
      = GenerateParticles.count (SeasonalEffects (F := R) Summer) * 3 ->
    (forall i, i < GenerateParticles.count (SeasonalEffects (F := R) Summer) ->
       (0 <= nth (i * 3 + 1) positions 0)%R) ->
    let p := SeasonalEffects (F := R) Summer in
    let run :=
      GenerateParticles.useFrame (GenerateParticles.count p)
        (GenerateParticles.speedY p) (GenerateParticles.speedX p)
        (GenerateParticles.area p) seeds t delta positions w in
    snd run = w /\
    forall i, i < GenerateParticles.count p ->
      (nth (i * 3 + 1) positions 0 <= nth (i * 3 + 1) (fst run) 0
       <= nth (i * 3 + 1) positions 0 + delta * (12 / 100))%R.
Proof.
  intros w seeds positions t delta Hd Hlen Hy p run.
  assert (Hs : (GenerateParticles.speedY p = - (1 / 10))%R).
  { unfold p. cbn [SeasonalEffects GenerateParticles.speedY]. exact_arith.
    reflexivity. }
  destruct (rising_particles w (GenerateParticles.count p)
              (GenerateParticles.speedY p) (GenerateParticles.speedX p)
              (GenerateParticles.area p) seeds positions t delta
              ltac:(lra) Hd Hlen Hy) as [Hw Hb].
  split; [exact Hw|].
  intros i Hi. specialize (Hb i Hi). fold run in Hb. rewrite Hs in Hb. lra.
Qed.

Lemma fireflies_are_never_respawned_witness :
  snd (GenerateParticles.useFrame 150 (- (1 / 10))%R (2 / 10)%R 40%R []
         0%R (1 / 60)%R (repeat 2%R 450) (boot (fun _ : nat => 0%R)))
  = boot (fun _ : nat => 0%R).
Proof.
  refine (proj1 (fireflies_are_never_respawned (boot (fun _ : nat => 0%R)) []
                   (repeat 2%R 450) 0%R (1 / 60)%R _ _ _)).
  - lra.
  - apply repeat_length.
  - intros i _.
    destruct (nth_in_or_default (i * 3 + 1) (repeat 2%R 450) 0%R) as [Hin | Hdef].
    + apply repeat_spec in Hin. rewrite Hin. lra.
    + rewrite Hdef. lra.
Defined.

Lemma integer_value_integer (k : Z) : integer_value (IZR k) = Some k.
Proof.
  exact_arith. unfold Exact.integer_of. rewrite ZfloorZ.
  destruct (Req_dec_T (IZR k) (IZR k)); [reflexivity | contradiction].
Qed.

(** ** The haiku of a stone *)

(** X16.  For a draw in [0, 1) the stone's haiku is an entry of [HAIKUS],
    never [undefined], at the cost of one draw; every entry has an author,
    so the modal never shows the fallback (exact arithmetic). *)
Theorem the_haiku_is_from_the_table :
  forall (w : world R),
    (0 <= rng w (drawn w) < 1)%R ->
    exists h,
      fst (ZenStone.haiku w) = Some h /\
      In h HAIKUS /\
      author h = Some (author_shown h) /\
      author_shown h <> "Unknown"%string /\
      drawn (snd (ZenStone.haiku w)) = S (drawn w).
Proof.
  intros w Hr. unfold ZenStone.haiku, bind, Math_random, ret.
  cbn [fst snd drawn].
  set (r := rng w (drawn w)) in *.
  change (length HAIKUS) with 8.
  assert (Hf : (Math_floor (r * num 8)%js = IZR (Zfloor (r * 8)))).
  { exact_arith. reflexivity. }
  rewrite Hf, integer_value_integer.
  pose proof (Zfloor_bound (r * 8)) as Hb.
  assert (Hk : (0 <= Zfloor (r * 8) < 8)%Z).
  { split.
    - apply le_IZR. apply Rnot_lt_le. intros Hlt.
      assert (IZR (Zfloor (r * 8)) <= -1)%R.
      { apply IZR_le. apply lt_IZR in Hlt. lia. }
      lra.
    - apply lt_IZR. lra. }
  destruct (Z.ltb_spec (Zfloor (r * 8)) 0) as [Hneg|_]; [lia|].
  assert (Hn : Z.to_nat (Zfloor (r * 8)) < 8) by lia.
  revert Hn. generalize (Z.to_nat (Zfloor (r * 8))). intros n Hn.
  do 8 (destruct n as [|n];
        [eexists; split; [reflexivity|]; split;
           [cbv [HAIKUS In]; tauto|]; split; [reflexivity|]; split;
           [discriminate | reflexivity]|]).
  lia.
Qed.

Lemma the_haiku_is_from_the_table_witness :
  exists h, fst (ZenStone.haiku (boot (fun _ : nat => 0%R))) = Some h /\
            In h HAIKUS.
Proof.
  destruct (the_haiku_is_from_the_table (boot (fun _ : nat => 0%R))
              ltac:(cbn [rng boot]; lra)) as (h & Hh & Hin & _).
  exists h. split; [exact Hh | exact Hin].
Defined.

(** ** The pond *)

Ltac trig_arith :=
  exact_arith; cbn [Math_cos Math_PI real_circular] in *.

(** X17.  Each of the three koi of the pond stays inside the water disc
    at every phase of its path: its distance from the centre of the pond is
    at most 5.5, the radius of the disc is 6, and its depth is constant. *)
Theorem koi_stay_in_the_water :
  forall (startPos : R * R * R) (speed : R) (t x y z : R),
    In (startPos, speed) ZenPond.koi ->
    Koi.position startPos t = (x, y, z) ->
    (x * x + z * z < ZenPond.water_radius * ZenPond.water_radius /\
     x * x + z * z <= (55 / 10) * (55 / 10) /\ y = - (3 / 10))%R.
Proof.
  intros startPos speed t x y z Hin Hp.
  pose proof (SIN_bound t) as Hs.
  pose proof (COS_bound (t * (7 / 10))) as Hc.
  unfold ZenPond.koi, ZenPond.water_radius in *. cbn [In] in Hin.
  destruct Hin as [H|[H|[H|[]]]]; injection H as <- <-;
    unfold Koi.position in Hp; trig_arith; injection Hp as <- <- <-;
    (split; [|split]; [nra | nra | lra]).
Qed.

Lemma koi_stay_in_the_water_witness :
  exists x y z : R,
    Koi.position (2, 0, 1)%R 0%R = (x, y, z) /\
    (x * x + z * z < 6 * 6)%R.
Proof.
  eexists _, _, _. split; [reflexivity|].
  refine (proj1 (koi_stay_in_the_water (2, 0, 1)%R (lit 4 10) 0%R _ _ _
                   _ eq_refl)).
  right. left. reflexivity.
Defined.

(** X18.  A koi looks along its path: the point given to [lookAt], minus
    the position, is the derivative of the position with respect to the
    phase [t], on both horizontal axes. *)
Theorem koi_look_along_their_path :
  forall (startPos : R * R * R) (t : R),
    derivable_pt_lim (fun s => fst (fst (Koi.position startPos s))) t
      (fst (fst (Koi.lookAt startPos t))
       - fst (fst (Koi.position startPos t)))%R
    /\
    derivable_pt_lim (fun s => snd (Koi.position startPos s)) t
      (snd (Koi.lookAt startPos t) - snd (Koi.position startPos t))%R.
Proof.
  intros [[sx sy] sz] t. unfold Koi.position, Koi.lookAt. trig_arith.
  cbn [fst snd]. split.
  - replace (sin t * (25 / 10) + sx + cos t * (25 / 10)
             - (sin t * (25 / 10) + sx))%R
      with (cos t * (25 / 10) + 0)%R by ring.
    apply (derivable_pt_lim_plus (fun s => sin s * (25 / 10))%R (fct_cte sx)).
    + apply (derivable_pt_lim_scal_right sin). apply derivable_pt_lim_sin.
    + apply derivable_pt_lim_const.
  - replace (cos (t * (7 / 10)) * 2 + sz - sin (t * (7 / 10)) * (14 / 10)
             - (cos (t * (7 / 10)) * 2 + sz))%R
      with (- sin (t * (7 / 10)) * (1 * (7 / 10)) * 2 + 0)%R by field.
    apply (derivable_pt_lim_plus
             (fun s => comp cos (fun u => id u * (7 / 10)) s * 2)%R
             (fct_cte sz)).
    + apply (derivable_pt_lim_scal_right
               (comp cos (fun u => id u * (7 / 10))%R)).
      apply (derivable_pt_lim_comp (fun u => id u * (7 / 10))%R cos).
      * apply (derivable_pt_lim_scal_right id). apply derivable_pt_lim_id.
      * apply derivable_pt_lim_cos.
    + apply derivable_pt_lim_const.
Qed.

(** ** The light *)

(** X19.  The frame callback keeps the directional light on the ellipse
    with half-axes 20 and 15 around the origin, so [x] stays within 20 and
    [z] within 15 of it, whatever [position] the element was given. *)
Theorem the_light_moves_on_an_ellipse :
  forall (elapsedTime : R),
    let '(x, z) := Lighting.position elapsedTime in
    ((x / 20) ^ 2 + (z / 15) ^ 2 = 1 /\
     -20 <= x <= 20 /\ -15 <= z <= 15)%R.
Proof.
  intros e. unfold Lighting.position. trig_arith.
  set (a := (e * (5 / 100) + 5 / 10)%R).
  pose proof (sin2_cos2 a) as H. unfold Rsqr in H.
  pose proof (SIN_bound a). pose proof (COS_bound a).
  split; [|split]; [|lra|lra].
  replace ((20 * cos a / 20) ^ 2 + (15 * sin a / 15) ^ 2)%R
    with (sin a * sin a + cos a * cos a)%R by field.
  exact H.
Qed.

(** ** The ring of stones *)

Section Ring.

Local Open Scope R_scope.

(** A point within 1/4 of a point of the circle on each axis is within
    36/100 of the circle. *)
Lemma near_the_circle (radius c s jx jz : R) :
  36 / 100 <= radius -> c * c + s * s = 1 ->
  -(1 / 4) <= jx <= 1 / 4 -> -(1 / 4) <= jz <= 1 / 4 ->
  let x := c * radius + jx in
  let z := s * radius + jz in
  (radius - 36 / 100) * (radius - 36 / 100) <= x * x + z * z
  <= (radius + 36 / 100) * (radius + 36 / 100).
Proof.
  intros Hr Hcs Hx Hz x z. subst x z.
  set (m := sqrt (jx * jx + jz * jz)).
  assert (Hj : 0 <= jx * jx + jz * jz) by nra.
  assert (Hm0 : 0 <= m) by apply sqrt_pos.
  assert (Hm2 : m * m = jx * jx + jz * jz) by (apply sqrt_sqrt; exact Hj).
  assert (Hm : m <= 36 / 100) by nra.
  set (q := c * jx + s * jz).
  assert (Hq2 : q * q <= m * m).
  { rewrite Hm2. unfold q.
    pose proof (Rle_0_sqr (c * jz - s * jx)) as Hsq. unfold Rsqr in Hsq.
    replace (jx * jx + jz * jz) with ((c * c + s * s) * (jx * jx + jz * jz))
      by (rewrite Hcs; ring).
    clear - Hsq. nra. }
  assert (Hq : - m <= q <= m) by (split; nra).
  replace ((c * radius + jx) * (c * radius + jx)
           + (s * radius + jz) * (s * radius + jz))
    with (radius * radius * (c * c + s * s) + 2 * radius * q + m * m)
    by (rewrite Hm2; unfold q; ring).
  rewrite Hcs. split; nra.
Qed.

End Ring.

(** X20.  The ring of stones: for draws in [0, 1) and a radius of at
    least 0.36, [count] stones are made with six draws each, every one at
    height 0.1, between [radius - 0.36] and [radius + 0.36] from the centre,
    and with a scale between 0.3 and 0.6 (exact arithmetic). *)
Theorem ring_stones_stay_on_the_ring :
  forall (w : world R) (radius : R) (count : nat),
    (forall k, 0 <= rng w k < 1)%R -> (36 / 100 <= radius)%R ->
    length (fst (RingOfStones.stones radius count w)) = count /\
    drawn (snd (RingOfStones.stones radius count w)) = drawn w + 6 * count /\
    forall s x y z,
      In s (fst (RingOfStones.stones radius count w)) ->
      RingOfStones.pos s = (x, y, z) ->
      ((radius - 36 / 100) * (radius - 36 / 100) <= x * x + z * z
       <= (radius + 36 / 100) * (radius + 36 / 100) /\
       y = 1 / 10 /\
       3 / 10 <= RingOfStones.scale s <= 6 / 10)%R.
Proof.
  intros w radius count Hr Hrad. unfold RingOfStones.stones.
  match goal with
  | |- context [array_map 0 count ?f w] =>
      pose proof (array_map_state f
        (fun (i : nat) s =>
           forall x y z, RingOfStones.pos s = (x, y, z) ->
             ((radius - 36 / 100) * (radius - 36 / 100) <= x * x + z * z
              <= (radius + 36 / 100) * (radius + 36 / 100) /\
              y = 1 / 10 /\
              3 / 10 <= RingOfStones.scale s <= 6 / 10)%R)
        (fun i v => rng v = rng w /\ drawn v = drawn w + 6 * i)) as Hmap;
      destruct (fun H => Hmap H count 0 w) as (Hl & (_ & Hd) & Hs);
      [| split; [reflexivity | lia] |]
  end.
  - intros i v [Hv Hdv]. unfold bind, Math_random, ret.
    cbn [fst snd rng drawn]. split; [split; [exact Hv | lia]|].
    intros x y z Hp. cbn [RingOfStones.pos RingOfStones.scale] in *.
    rewrite !Hv in *.
    pose proof (Hr (drawn v)) as H1.
    pose proof (Hr (S (drawn v))) as H2.
    pose proof (Hr (S (S (drawn v)))) as H3.
    trig_arith. injection Hp as <- <- <-.
    set (a := (IZR (Z.of_nat i) / IZR (Z.of_nat count) * PI * 2)%R).
    split; [|split; [reflexivity | lra]].
    apply (near_the_circle radius (cos a) (sin a)); [exact Hrad | | lra | lra].
    pose proof (sin2_cos2 a) as H. unfold Rsqr in H. lra.
  - split; [exact Hl|]. split; [exact Hd|].
    intros s x y z Hin Hp.
    destruct (In_nth_error _ _ Hin) as [j Hj].
    assert (Hjn : j < count).
    { rewrite <- Hl. apply nth_error_Some. now rewrite Hj. }
    destruct (Hs j Hjn) as (s' & Hs' & Hq).
    rewrite Hj in Hs'. injection Hs' as <-. now apply Hq.
Qed.

Lemma ring_stones_stay_on_the_ring_witness :
  length (fst (RingOfStones.stones ZenPond.ring_radius ZenPond.ring_count
                 (boot (fun _ : nat => 0%R)))) = ZenPond.ring_count.
Proof.
  refine (proj1 (ring_stones_stay_on_the_ring (boot (fun _ : nat => 0%R))
                   ZenPond.ring_radius ZenPond.ring_count _ _)).
  - intros k. cbn [rng boot]. lra.
  - unfold ZenPond.ring_radius. exact_arith. lra.
Defined.

(** ** The grass *)

(** X21.  The blades of the grass field: for draws in [0, 1) and an area
    that is not negative, [count] blades are made with five draws each,
    every one within half the area of the origin on both axes, with a scale
    between 0.6 and 1.4, a rotation between 0 and pi and a lean between 0
    and 0.4. *)
Theorem grass_blades_are_sown_inside_the_field :
  forall (w : world R) (count : nat) (area : R),
    (forall k, 0 <= rng w k < 1)%R -> (0 <= area)%R ->
    length (fst (GrassField.data count area w)) = count /\
    drawn (snd (GrassField.data count area w)) = drawn w + 5 * count /\
    forall d,
      In d (fst (GrassField.data count area w)) ->
      (- (area / 2) <= GrassField.x d <= area / 2 /\
       - (area / 2) <= GrassField.z d <= area / 2 /\
       6 / 10 <= GrassField.scale d <= 14 / 10 /\
       0 <= GrassField.rotation d <= PI /\
       0 <= GrassField.lean d <= 4 / 10)%R.
Proof.
  intros w count area Hr Ha. unfold GrassField.data.
  match goal with
  | |- context [array_map 0 count ?f w] =>
      pose proof (array_map_state f
        (fun (i : nat) d =>
           (- (area / 2) <= GrassField.x d <= area / 2 /\
            - (area / 2) <= GrassField.z d <= area / 2 /\
            6 / 10 <= GrassField.scale d <= 14 / 10 /\
            0 <= GrassField.rotation d <= PI /\
            0 <= GrassField.lean d <= 4 / 10)%R)
        (fun i v => rng v = rng w /\ drawn v = drawn w + 5 * i)) as Hmap;
      destruct (fun H => Hmap H count 0 w) as (Hl & (_ & Hd) & Hs);
      [| split; [reflexivity | lia] |]
  end.
  - intros i v [Hv Hdv]. unfold bind, Math_random, ret.
    cbn [fst snd rng drawn]. split; [split; [exact Hv | lia]|].
    cbn [GrassField.x GrassField.z GrassField.scale GrassField.rotation
         GrassField.lean].
    rewrite !Hv.
    pose proof (Hr (drawn v)) as H1.
    pose proof (Hr (S (drawn v))) as H2.
    pose proof (Hr (S (S (drawn v)))) as H3.
    pose proof (Hr (S (S (S (drawn v))))) as H4.
    pose proof (Hr (S (S (S (S (drawn v)))))) as H5.
    pose proof PI_RGT_0 as Hpi.
    trig_arith. repeat split; nra.
  - split; [exact Hl|]. split; [exact Hd|].
    intros d Hin.
    destruct (In_nth_error _ _ Hin) as [j Hj].
    assert (Hjn : j < count).
    { rewrite <- Hl. apply nth_error_Some. now rewrite Hj. }
    destruct (Hs j Hjn) as (d' & Hd' & Hq).
    rewrite Hj in Hd'. injection Hd' as <-. exact Hq.
Qed.

Lemma grass_blades_are_sown_inside_the_field_witness :
  length (fst (GrassField.data 3 55%R (boot (fun _ : nat => 0%R)))) = 3.
Proof.
  refine (proj1 (grass_blades_are_sown_inside_the_field
                   (boot (fun _ : nat => 0%R)) 3 55%R _ _)).
  - intros k. cbn [rng boot]. lra.
  - lra.
Defined.

(** X22.  The wind on a blade, at any time: [windX] lies between -1.3 and
    1.3, the wind strength between 0.15 and 0.41, and the three angles
    given to the blade differ from its lean by at most 0.246, from its
    rotation by at most 0.13 and from 0 by at most 0.082. *)
Theorem the_wind_bends_a_blade_a_little :
  forall (time : R) (d : GrassField.blade R),
    let '(rx, ry, rz) := GrassField.dummy_rotation time d in
    (- (13 / 10) <= GrassField.windX time d <= 13 / 10 /\
     15 / 100 <= GrassField.windStrength time d <= 41 / 100 /\
     Rabs (rx - GrassField.lean d) <= 246 / 1000 /\
     Rabs (ry - GrassField.rotation d) <= 13 / 100 /\
     Rabs rz <= 82 / 1000)%R.
Proof.
  intros time d.
  unfold GrassField.dummy_rotation, GrassField.windStrength, GrassField.windX.
  trig_arith.
  pose proof (SIN_bound (time * (7 / 10) + GrassField.x d * (3 / 10))) as H1.
  pose proof (SIN_bound (time * (13 / 10) + GrassField.x d * (8 / 10))) as H2.
  pose proof (SIN_bound (time * (5 / 10) + GrassField.x d)) as H3.
  pose proof (COS_bound (time * (5 / 10) + GrassField.z d)) as H4.
  set (s1 := sin (time * (7 / 10) + GrassField.x d * (3 / 10))) in *.
  set (s2 := sin (time * (13 / 10) + GrassField.x d * (8 / 10))) in *.
  set (s3 := sin (time * (5 / 10) + GrassField.x d)) in *.
  set (c4 := cos (time * (5 / 10) + GrassField.z d)) in *.
  assert (Hm : (0 <= Rmax 0 (s1 + s2 * (3 / 10)) <= 13 / 10)%R).
  { split; [apply Rmax_l|]. apply Rmax_lub; lra. }
  set (m := Rmax 0 (s1 + s2 * (3 / 10))) in *.
  split; [lra|]. split; [lra|].
  split; [|split]; apply Rabs_le; split; nra.
Qed.

(** X23.  A blade tapers upwards: [widthMod] does not grow with the
    height of the vertex and lies between 0.1 and 1, and a vertex that gets
    the dark colour of the base keeps its full width. *)
Theorem a_blade_tapers_upwards :
  forall (y1 y2 : R),
    (y1 <= y2)%R ->
    (GrassField.widthMod y2 <= GrassField.widthMod y1 /\
     1 / 10 <= GrassField.widthMod y1 <= 1)%R /\
    (GrassField.vertex_color y1 = (lit 1 10, lit 2 10, lit 5 100) ->
     GrassField.widthMod y1 = 1%R).
Proof.
  intros y1 y2 Hy. unfold GrassField.widthMod, GrassField.vertex_color.
  exact_arith. unfold Exact.lt_bool.
  repeat match goal with
         | |- context [Rlt_dec ?a ?b] => destruct (Rlt_dec a b)
         end;
    (split; [split; lra|]); intros Hc; try reflexivity; try lra;
    try (injection Hc; intros; lra).
Qed.

Lemma a_blade_tapers_upwards_witness :
  (GrassField.widthMod (45 / 100) <= GrassField.widthMod 0)%R.
Proof.
  exact (proj1 (proj1 (a_blade_tapers_upwards 0%R (45 / 100)%R ltac:(lra)))).
Defined.

(** ** The raked sand *)

Section RakeNoise.

Local Open Scope R_scope.

Lemma round_ties_even_near (x : R) :
  (Zfloor x <= Exact.round_ties_even x <= Zfloor x + 1)%Z.
Proof.
  unfold Exact.round_ties_even. cbv zeta.
  destruct (Rlt_dec _ _); [lia|].
  destruct (Rlt_dec _ _); [lia|].
  destruct (Z.even _); lia.
Qed.

(** A byte plus a number in [-5, 5) is stored as a byte at most 5 away. *)
Lemma nudged_byte (b : Z) (n : R) :
  (0 <= b <= 255)%Z -> -5 <= n < 5 ->
  (b - 5 <= ToUint8Clamp (IZR b + n)%R <= b + 5)%Z /\
  (0 <= ToUint8Clamp (IZR b + n)%R <= 255)%Z.
Proof.
  intros Hb Hn. exact_arith. unfold Exact.to_uint8_clamp.
  assert (H0 : IZR 0 <= IZR b) by (apply IZR_le; lia).
  assert (H255 : IZR b <= IZR 255) by (apply IZR_le; lia).
  destruct (Rle_dec _ _) as [Hle|Hgt].
  { assert (IZR b <= IZR 5) by lra. apply le_IZR in H. lia. }
  destruct (Rle_dec _ _) as [Hle'|Hlt].
  { assert (IZR 250 < IZR b) by lra. apply lt_IZR in H. lia. }
  pose proof (round_ties_even_near (IZR b + n)) as Hr.
  pose proof (Zfloor_bound (IZR b + n)) as Hf.
  assert (Hlo : (b - 5 <= Zfloor (IZR b + n))%Z).
  { apply Zfloor_lub. rewrite minus_IZR. lra. }
  assert (Hhi : (Zfloor (IZR b + n) < b + 5)%Z).
  { apply lt_IZR. rewrite plus_IZR. lra. }
  lia.
Qed.

End RakeNoise.

(** X24.  The noise loop of the rake normal map, on an ImageData of
    [pixels] pixels and draws in [0, 1): one draw for each pixel; red and
    green of a pixel get the same number [n] of [-5, 5) added and move by
    at most 5; blue and alpha are left as they were (exact arithmetic). *)
Theorem rake_noise_nudges_red_and_green :
  forall (w : world R) (data : list Z) (pixels : nat),
    (forall k, 0 <= rng w k < 1)%R ->
    length data = 4 * pixels ->
    (forall b, In b data -> (0 <= b <= 255)%Z) ->
    length (fst (SandGarden.rake_noise data w)) = 4 * pixels /\
    drawn (snd (SandGarden.rake_noise data w)) = drawn w + pixels /\
    forall j, j < pixels ->
      exists n : R,
        (-5 <= n < 5)%R /\
        pixel (fst (SandGarden.rake_noise data w)) j =
          (ToUint8Clamp (IZR (nth (4 * j) data 0%Z) + n)%R,
           ToUint8Clamp (IZR (nth (4 * j + 1) data 0%Z) + n)%R,
           nth (4 * j + 2) data 0%Z, nth (4 * j + 3) data 0%Z) /\
        (Z.abs (nth (4 * j) (fst (SandGarden.rake_noise data w)) 0
                - nth (4 * j) data 0) <= 5)%Z /\
        (Z.abs (nth (4 * j + 1) (fst (SandGarden.rake_noise data w)) 0
                - nth (4 * j + 1) data 0) <= 5)%Z.
Proof.
  intros w data pixels Hr Hlen Hbytes. unfold SandGarden.rake_noise.
  replace ((length data + 3) / 4) with pixels
    by (rewrite Hlen; apply Nat.div_unique with 3; lia).
  match goal with
  | |- context [for_m pixels ?body data w] =>
      pose proof (for_m_state pixels body data w
        (fun i d v =>
           rng v = rng w /\ drawn v = drawn w + i /\
           length d = 4 * pixels /\
           (forall j, i <= j < pixels -> pixel d j = pixel data j) /\
           forall j, j < i ->
             exists n : R,
               (-5 <= n < 5)%R /\
               pixel d j =
                 (ToUint8Clamp (IZR (nth (4 * j) data 0%Z) + n)%R,
                  ToUint8Clamp (IZR (nth (4 * j + 1) data 0%Z) + n)%R,
                  nth (4 * j + 2) data 0%Z, nth (4 * j + 3) data 0%Z))) as Hloop;
      destruct (for_m pixels body data w) as [d v]
  end.
  cbn [fst snd] in *.
  destruct Hloop as (_ & Hd & Hl & _ & Hp).
  - split; [reflexivity|]. split; [lia|]. split; [exact Hlen|]. split.
    + intros j Hj. reflexivity.
    + intros j Hj. lia.
  - intros i b u Hi (Hu & Hd & Hl & Hrest & Hdone).
    unfold bind, Math_random, ret, put. cbn [fst snd rng drawn].
    split; [exact Hu|]. split; [lia|].
    split; [now rewrite !store_length|].
    split.
    + intros j Hj. rewrite <- (Hrest j) by lia. unfold pixel.
      stores. reflexivity.
    + intros j Hj. destruct (Nat.eq_dec j i) as [->|Hne].
      * destruct (pixel_components _ _ _ _ _ _ (Hrest i ltac:(lia)))
          as (H0 & H1 & H2 & H3).
        exists ((rng u (drawn u) - lit 5 10) * ofZ 10)%js.
        split.
        { rewrite Hu. pose proof (Hr (drawn u)). exact_arith. lra. }
        unfold pixel.
        replace (i * 4) with (4 * i) by lia.
        stores. rewrite H0, H1, H2, H3. reflexivity.
      * destruct (Hdone j ltac:(lia)) as (n & Hn & Hpj).
        exists n. split; [exact Hn|]. rewrite <- Hpj. unfold pixel.
        stores. reflexivity.
  - split; [exact Hl|]. split; [exact Hd|].
    intros j Hj. destruct (Hp j Hj) as (n & Hn & Hpj).
    exists n. split; [exact Hn|]. split; [exact Hpj|].
    destruct (pixel_components _ _ _ _ _ _ Hpj) as (H0 & H1 & _ & _).
    rewrite H0, H1.
    assert (Hb0 : (0 <= nth (4 * j) data 0 <= 255)%Z)
      by (apply Hbytes, nth_In; lia).
    assert (Hb1 : (0 <= nth (4 * j + 1) data 0 <= 255)%Z)
      by (apply Hbytes, nth_In; lia).
    pose proof (nudged_byte _ n Hb0 Hn) as [H0' _].
    pose proof (nudged_byte _ n Hb1 Hn) as [H1' _].
    split; lia.
Qed.

Lemma rake_noise_nudges_red_and_green_witness :
  length (fst (SandGarden.rake_noise [128; 128; 255; 255]%Z
                 (boot (fun _ : nat => 0%R)))) = 4.
Proof.
  refine (proj1 (rake_noise_nudges_red_and_green (boot (fun _ : nat => 0%R))
                   [128; 128; 255; 255]%Z 1 _ eq_refl _)).
  - intros k. cbn [rng boot]. lra.
  - intros b Hb. cbn [In] in Hb. lia.
Defined.

(** ** The bamboo albedo *)

Lemma bamboo_pixel_ready (width height x y : nat) (d : list Z) (v : world R) :
  ready v ->
  organic_pixel bamboo width height x y d v =
  (let fiber :=
     fst (fbm (num x / num width * 80)%R (num y / num height * 2)%R 0%R 5
            (lit 6 10) scale_default v) in
   let stain :=
     fst (fbm (num x / num width * 4)%R (num y / num height * 6)%R 32%R 4
            (lit 5 10) scale_default v) in
   let fiberVar := ((fiber - 5 / 10) * 40)%R in
   let stainVar := ((stain - 5 / 10) * 50)%R in
   put_rgba d (4 * (y * width + x))
     (Rmax 0 (Rmin 255 (110 + fiberVar - stainVar * (5 / 10))))
     (Rmax 0 (Rmin 255 (140 + fiberVar - stainVar * (5 / 10))))
     (Rmax 0 (Rmin 255 (80 + fiberVar - stainVar * (8 / 10)))), v).
Proof.
  intros Hv. unfold organic_pixel, bind. cbv zeta.
  match goal with
  | |- context [fbm ?a ?b ?c 5 ?p ?s v] =>
      destruct (reader_fbm a b c 5 p s v Hv) as [Hs _];
      change (fbm (num x / num width * 80)%R (num y / num height * 2)%R 0%R 5
                (lit 6 10) scale_default v)
        with (fbm a b c 5 p s v);
      destruct (fbm a b c 5 p s v) as [fiber v']
  end.
  cbn [fst snd] in *. subst v'.
  match goal with
  | |- context [fbm ?a ?b ?c 4 ?p ?s v] =>
      destruct (reader_fbm a b c 4 p s v Hv) as [Hs _];
      change (fbm (num x / num width * 4)%R (num y / num height * 6)%R 32%R 4
                (lit 5 10) scale_default v)
        with (fbm a b c 4 p s v);
      destruct (fbm a b c 4 p s v) as [stain v']
  end.
  cbn [fst snd] in *. subst v'. unfold ret.
  now rewrite (Nat.mul_comm (y * width + x) 4).
Qed.

(** X25.  The explicit clamps of the bamboo albedo never act on red and
    green (exact arithmetic): with [fiber] and [stain] the two FBM samples
    of the pixel, on the table that [setup] leaves, the red value
    [110 + fiberVar - 0.5 stainVar] lies between 5 and 200 and the green
    value between 35 and 230, so [Math.max(0, Math.min(255, v))] returns
    each of them unchanged and the pixel holds their byte conversions; blue
    keeps its clamp. *)
Theorem bamboo_red_and_green_are_never_clamped :
  forall (w : world R) (width height x y : nat),
    x < width -> y < height ->
    let nx := (num x / num width)%R in
    let ny := (num y / num height)%R in
    let fiber :=
      fst (fbm (nx * 80)%R (ny * 2)%R 0%R 5 (lit 6 10) scale_default
             (snd (setup w))) in
    let stain :=
      fst (fbm (nx * 4)%R (ny * 6)%R 32%R 4 (lit 5 10) scale_default
             (snd (setup w))) in
    let fiberVar := ((fiber - 5 / 10) * 40)%R in
    let stainVar := ((stain - 5 / 10) * 50)%R in
    let r := (110 + fiberVar - stainVar * (5 / 10))%R in
    let g := (140 + fiberVar - stainVar * (5 / 10))%R in
    let b := (80 + fiberVar - stainVar * (8 / 10))%R in
    exists t,
      fst (createOrganicTexture width height bamboo w) = Some t /\
      Math_max (ofZ 0) (Math_min (ofZ 255) r) = r /\
      Math_max (ofZ 0) (Math_min (ofZ 255) g) = g /\
      pixel (tex_data t) (y * width + x) =
        (ToUint8Clamp r, ToUint8Clamp g,
         ToUint8Clamp (Math_max (ofZ 0) (Math_min (ofZ 255) b)), 255%Z) /\
      (5 <= r <= 200 /\ 35 <= g <= 230)%R.
Proof.
  intros w width height x y Hx Hy. cbv zeta.
  unfold createOrganicTexture.
  rewrite (positive_sizes width height) by lia.
  unfold bind at 1. pose proof (setup_ready w) as Hready.
  destruct (setup w) as [[] ws]. cbn [snd] in Hready |- *.
  unfold bind at 1.
  set (wt := snd (tick ws)). change (tick ws) with (tt, wt).
  assert (Hwt : ready wt) by exact Hready.
  set (fiber_at := fun (v : world R) (x y : nat) =>
         fst (fbm (num x / num width * 80)%R (num y / num height * 2)%R 0%R 5
                (lit 6 10) scale_default v)).
  set (stain_at := fun (v : world R) (x y : nat) =>
         fst (fbm (num x / num width * 4)%R (num y / num height * 6)%R 32%R 4
                (lit 5 10) scale_default v)).
  set (fv := fun x y : nat => ((fiber_at wt x y - 5 / 10) * 40)%R).
  set (sv := fun x y : nat => ((stain_at wt x y - 5 / 10) * 50)%R).
  destruct (painted_rows width height wt
              (fun x y d => organic_pixel bamboo width height x y d)
              (fun x y =>
                 (Rmax 0 (Rmin 255 (110 + fv x y - sv x y * (5 / 10))),
                  Rmax 0 (Rmin 255 (140 + fv x y - sv x y * (5 / 10))),
                  Rmax 0 (Rmin 255 (80 + fv x y - sv x y * (8 / 10))))))
    as (Hs & Hl & Hp).
  { intros x' y' d. now rewrite bamboo_pixel_ready. }
  unfold bind.
  destruct (for_m height _ (blank width height) wt) as [data w3].
  cbn [fst snd] in Hs, Hl, Hp.
  destruct (for_m 30 _ [] w3) as [scuffs w4]. unfold ret. cbn [fst].
  change (fst (fbm (num x / num width * 80)%R (num y / num height * 2)%R 0%R 5
                 (lit 6 10) scale_default ws)) with (fiber_at ws x y).
  change (fst (fbm (num x / num width * 4)%R (num y / num height * 6)%R 32%R 4
                 (lit 5 10) scale_default ws)) with (stain_at ws x y).
  assert (Hfs : fiber_at wt x y = fiber_at ws x y).
  { unfold fiber_at.
    match goal with
    | |- fst (fbm ?a ?b ?c ?n ?p ?s wt) = _ =>
        destruct (reader_fbm a b c n p s ws Hready) as [_ Hf];
        exact (Hf wt Hwt eq_refl)
    end. }
  assert (Hss : stain_at wt x y = stain_at ws x y).
  { unfold stain_at.
    match goal with
    | |- fst (fbm ?a ?b ?c ?n ?p ?s wt) = _ =>
        destruct (reader_fbm a b c n p s ws Hready) as [_ Hf];
        exact (Hf wt Hwt eq_refl)
    end. }
  rewrite <- Hfs, <- Hss.
  assert (Hf : (- (3 / 2) <= fiber_at wt x y <= 3 / 2)%R).
  { unfold fiber_at. apply fbm_within; [|lia]. exact_arith. lra. }
  assert (Hst : (- (3 / 2) <= stain_at wt x y <= 3 / 2)%R).
  { unfold stain_at. apply fbm_within; [|lia]. exact_arith. lra. }
  fold (fv x y). fold (sv x y).
  assert (Hfv : (-80 <= fv x y <= 40)%R) by (unfold fv; lra).
  assert (Hsv : (-100 <= sv x y <= 50)%R) by (unfold sv; lra).
  assert (Hr : Rmax 0 (Rmin 255 (110 + fv x y - sv x y * (5 / 10)))
               = (110 + fv x y - sv x y * (5 / 10))%R).
  { rewrite Rmin_right by lra. apply Rmax_right. lra. }
  assert (Hg : Rmax 0 (Rmin 255 (140 + fv x y - sv x y * (5 / 10)))
               = (140 + fv x y - sv x y * (5 / 10))%R).
  { rewrite Rmin_right by lra. apply Rmax_right. lra. }
  exists {| tex_width := width; tex_height := height;
            tex_data := data; tex_scuffs := scuffs |}.
  split; [reflexivity|]. split; [exact Hr|]. split; [exact Hg|]. split.
  - cbn [tex_data]. rewrite (Hp x y Hx Hy). cbn [fst snd].
    rewrite Hr, Hg. reflexivity.
  - lra.
Qed.

Lemma bamboo_red_and_green_are_never_clamped_witness :
  exists (t : texture R),
    fst (createOrganicTexture 2 2 bamboo (boot (fun _ : nat => 0%R))) = Some t.
Proof.
  destruct (bamboo_red_and_green_are_never_clamped (boot (fun _ : nat => 0%R))
              2 2 1 0 ltac:(lia) ltac:(lia)) as (t & Ht & _).
  exists t. exact Ht.
Defined.
